(** * WhatsApp webhook ingestion and customer segmentation

    A shallow embedding of the ingestion pipeline
    ([src/services/whatsapp.service.ts]), the transaction wrapper
    ([DatabaseService.transaction]), the relational schema ([init.sql]), the
    conversation digest and response parsing of [src/services/llm.service.ts]
    and the segmentation endpoint of the webhook controller.

    Modelling conventions.
    - Instants (JS [Date], SQL [TIMESTAMP], [NOW()], [Date.now()]) are
      integers: milliseconds since the epoch.  [payload.timestamp] is a whole
      number of seconds.
    - A table is the list of its rows in insertion order; [SERIAL] columns
      draw from a sequence stored next to the tables.  Sequences are not
      restored by [ROLLBACK], tables are.
    - The [UNIQUE] constraints of [init.sql] are checked on every insert, and
      the width of [messages.status] on every status update.  The widths of
      the other [VARCHAR(n)] columns, the range of [TIMESTAMP] and the 32-bit
      range of [INTEGER] are not modelled.  The storage engine is always
      reachable.
    - A text is a string of one-byte characters.
    - Requests are processed one after the other, a transaction seeing the
      tables as the previous one left them; the one exception is the
      delivery that another one overtakes, which is modelled apart.
    - Logging is left out, except for the line [handleMessageStatus] chooses.
    - JS numbers that are not integers of this kind (confidence scores,
      averages) are exact rationals. *)

From Stdlib Require Import ZArith List String Ascii Bool Lia QArith.
From Stdlib Require Import DecimalString Permutation.
Import ListNotations.
Local Open Scope string_scope.
Local Open Scope list_scope.
Local Open Scope Z_scope.

(** ** Data model: the three tables of [init.sql] *)

Module Customer.
Record t : Type := mk {
  id : Z;
  phone_number : string;
  name : option string;
  first_message_at : Z;
  last_message_at : Z;
  total_messages : Z;
  segment : option string;
  segment_updated_at : option Z;
  created_at : Z;
  updated_at : Z
}.
End Customer.

Module ChatSession.
Record t : Type := mk {
  id : Z;
  customer_id : Z;
  session_start : Z;
  session_end : option Z;
  message_count : Z;
  is_active : bool;
  created_at : Z;
  updated_at : Z
}.
End ChatSession.

Module Message.
Record t : Type := mk {
  id : Z;
  customer_id : Z;
  session_id : Z;
  waha_message_id : string;
  chat_id : string;
  from_number : string;
  to_number : option string;
  message_body : option string;
  timestamp : Z;
  is_from_me : option bool;
  status : option string;
  reply_to : option string;
  created_at : Z;
  updated_at : Z
}.
End Message.

(** ** Webhook payloads ([waha.types.ts]), restricted to the fields the
    services read.  [notifyName] stands for [payload._data?.notifyName];
    [caption] and [replyTo] reach the service through [passthrough()].

    The controller checks the request body against the schema and then hands
    the services the body as it came, not the parsed value: the default
    [false] that the schema gives [fromMe] is not applied, and a body without
    the field reaches [handleIncomingMessage] with [fromMe] undefined
    ([None]). *)

Module WahaMessagePayload.
Record t : Type := mk {
  id : string;
  timestamp : Z;
  from : string;
  fromMe : option bool;
  to : option string;
  body : option string;
  caption : option string;
  replyTo : option string;
  notifyName : option string
}.
End WahaMessagePayload.

Module WahaMessageStatusPayload.
Record t : Type := mk {
  id : string;
  from : string;
  to : option string;
  chatId : string;
  status : string;
  timestamp : Z
}.
End WahaMessageStatusPayload.

(** ** The store *)

Record Database : Type := mkDatabase {
  customers : list Customer.t;
  chat_sessions : list ChatSession.t;
  messages : list Message.t;
  customers_id_seq : Z;
  chat_sessions_id_seq : Z;
  messages_id_seq : Z
}.

Definition empty_db : Database :=
  mkDatabase [] [] [] 1 1 1.

(** Two stores hold the same rows. *)
Definition same_tables (d d' : Database) : Prop :=
  customers d' = customers d /\
  chat_sessions d' = chat_sessions d /\
  messages d' = messages d.

(** ** Errors and the monad of storage code *)

Inductive Error : Type :=
| NoCause
| PgError (detail : string)
| JsError (message : string)
| ZodError (issues : string)
| DatabaseServiceError (message : string) (cause : Error)
| WhatsAppServiceError (message : string) (cause : Error)
| LLMServiceError (message : string) (cause : Error).

Inductive Result (A : Type) : Type :=
| Ok (a : A)
| Throw (e : Error).
Arguments Ok {A} a.
Arguments Throw {A} e.

Definition M (A : Type) : Type := Database -> Result A * Database.

Definition ret {A} (a : A) : M A := fun d => (Ok a, d).

Definition throw {A} (e : Error) : M A := fun d => (Throw e, d).

Definition bind {A B} (m : M A) (k : A -> M B) : M B := fun d =>
  match m d with
  | (Ok a, d') => k a d'
  | (Throw e, d') => (Throw e, d')
  end.

Definition catch {A} (m : M A) (handler : Error -> M A) : M A := fun d =>
  match m d with
  | (Ok a, d') => (Ok a, d')
  | (Throw e, d') => handler e d'
  end.

Notation "x <- m ;; k" := (bind m (fun x => k))
  (at level 61, m at next level, right associativity).
Notation "m ;;; k" := (bind m (fun _ => k))
  (at level 61, right associativity).

(** [ROLLBACK]: the rows of the snapshot taken at [BEGIN], the sequences as
    they are now. *)
Definition rollback (snapshot current : Database) : Database :=
  mkDatabase (customers snapshot) (chat_sessions snapshot) (messages snapshot)
             (customers_id_seq current) (chat_sessions_id_seq current)
             (messages_id_seq current).

(** [DatabaseService.transaction]: BEGIN, the callback, COMMIT; on an
    exception ROLLBACK and rethrow wrapped. *)
Definition transaction {A} (callback : M A) : M A := fun d =>
  match callback d with
  | (Ok result, d') => (Ok result, d')
  | (Throw error, d') =>
      (Throw (DatabaseServiceError "Transaction failed" error), rollback d d')
  end.

(** ** The SQL statements of the ingestion path *)

Definition THIRTY_MINUTES : Z := 30 * 60 * 1000.

(** JS [x || null] on an optional string: the empty string is falsy. *)
Definition or_null (x : option string) : option string :=
  match x with
  | Some s => if (s =? "")%string then None else Some s
  | None => None
  end.

Definition or_else (x y : option string) : option string :=
  match or_null x with
  | Some s => Some s
  | None => y
  end.

(** The truth value JS gives a flag that is [true], [false] or missing
    ([undefined], or [null] when read back from a nullable column). *)
Definition truthy_flag (flag : option bool) : bool :=
  match flag with
  | Some true => true
  | _ => false
  end.

(** [SELECT * FROM customers WHERE phone_number = $1] *)
Definition select_customers_by_phone (phoneNumber : string) : M (list Customer.t) :=
  fun d => (Ok (filter (fun c => (Customer.phone_number c =? phoneNumber)%string)
                       (customers d)), d).

(** [INSERT INTO customers (phone_number, name, first_message_at,
    last_message_at, total_messages) VALUES ($1, $2, $3, $3, 1) RETURNING *] *)
Definition insert_customer (phoneNumber : string) (name : option string)
    (timestamp now : Z) : M Customer.t := fun d =>
  let row := Customer.mk (customers_id_seq d) phoneNumber name timestamp timestamp 1
                         None None now now in
  let d1 := mkDatabase (customers d) (chat_sessions d) (messages d)
                       (customers_id_seq d + 1) (chat_sessions_id_seq d)
                       (messages_id_seq d) in
  if existsb (fun c => (Customer.phone_number c =? phoneNumber)%string) (customers d)
  then (Throw (PgError "customers_phone_number_key"), d1)
  else (Ok row,
        mkDatabase (customers d ++ [row]) (chat_sessions d) (messages d)
                   (customers_id_seq d + 1) (chat_sessions_id_seq d)
                   (messages_id_seq d)).

Definition fresh_active (customerId now : Z) (s : ChatSession.t) : bool :=
  (ChatSession.customer_id s =? customerId) &&
  ChatSession.is_active s &&
  (now - THIRTY_MINUTES <? ChatSession.session_start s).

(** [ORDER BY session_start DESC LIMIT 1]; among equal starts the row that
    comes first in the table. *)
Fixpoint latest_session (l : list ChatSession.t) : option ChatSession.t :=
  match l with
  | [] => None
  | s :: r =>
      match latest_session r with
      | None => Some s
      | Some s' =>
          if ChatSession.session_start s' <=? ChatSession.session_start s
          then Some s else Some s'
      end
  end.

(** [SELECT * FROM chat_sessions WHERE customer_id = $1 AND is_active = true
    AND session_start > NOW() - INTERVAL '30 minutes'
    ORDER BY session_start DESC LIMIT 1] *)
Definition select_fresh_session (customerId now : Z) : M (option ChatSession.t) :=
  fun d => (Ok (latest_session (filter (fresh_active customerId now) (chat_sessions d))), d).

Definition is_active_of (customerId : Z) (s : ChatSession.t) : bool :=
  (ChatSession.customer_id s =? customerId) && ChatSession.is_active s.

Definition close_session (now : Z) (s : ChatSession.t) : ChatSession.t :=
  ChatSession.mk (ChatSession.id s) (ChatSession.customer_id s)
                 (ChatSession.session_start s) (Some now)
                 (ChatSession.message_count s) false
                 (ChatSession.created_at s) now.

(** [UPDATE chat_sessions SET is_active = false, session_end = NOW()
    WHERE customer_id = $1 AND is_active = true], with the table's
    [updated_at] trigger. *)
Definition close_active (customerId now : Z) (l : list ChatSession.t)
  : list ChatSession.t :=
  map (fun s => if is_active_of customerId s then close_session now s else s) l.

Definition close_active_sessions (customerId now : Z) : M unit := fun d =>
  (Ok tt, mkDatabase (customers d) (close_active customerId now (chat_sessions d))
                     (messages d) (customers_id_seq d) (chat_sessions_id_seq d)
                     (messages_id_seq d)).

(** [INSERT INTO chat_sessions (customer_id, session_start, message_count,
    is_active) VALUES ($1, NOW(), 0, true) RETURNING *] *)
Definition insert_session (customerId now : Z) : M ChatSession.t := fun d =>
  let row := ChatSession.mk (chat_sessions_id_seq d) customerId now None 0 true now now in
  (Ok row, mkDatabase (customers d) (chat_sessions d ++ [row]) (messages d)
                      (customers_id_seq d) (chat_sessions_id_seq d + 1)
                      (messages_id_seq d)).

(** [INSERT INTO messages (...) VALUES ($1, ..., $10) RETURNING *]; fails on
    the unique constraint of [waha_message_id].  An undefined [is_from_me] is
    sent as [NULL], which the column takes in place of its default. *)
Definition insert_message (customerId sessionId : Z) (wahaMessageId chatId fromNumber : string)
    (toNumber messageBody : option string) (timestamp : Z) (isFromMe : option bool)
    (replyTo : option string) (now : Z) : M Message.t := fun d =>
  let row := Message.mk (messages_id_seq d) customerId sessionId wahaMessageId chatId
                        fromNumber toNumber messageBody timestamp isFromMe None
                        replyTo now now in
  let d1 := mkDatabase (customers d) (chat_sessions d) (messages d)
                       (customers_id_seq d) (chat_sessions_id_seq d)
                       (messages_id_seq d + 1) in
  if existsb (fun m => (Message.waha_message_id m =? wahaMessageId)%string) (messages d)
  then (Throw (PgError "messages_waha_message_id_key"), d1)
  else (Ok row,
        mkDatabase (customers d) (chat_sessions d) (messages d ++ [row])
                   (customers_id_seq d) (chat_sessions_id_seq d)
                   (messages_id_seq d + 1)).

Definition bump_customer (now : Z) (c : Customer.t) : Customer.t :=
  Customer.mk (Customer.id c) (Customer.phone_number c) (Customer.name c)
              (Customer.first_message_at c) now (Customer.total_messages c + 1)
              (Customer.segment c) (Customer.segment_updated_at c)
              (Customer.created_at c) now.

(** [UPDATE customers SET total_messages = total_messages + 1,
    last_message_at = NOW() WHERE id = $1] *)
Definition bump_customers (customerId now : Z) (l : list Customer.t) : list Customer.t :=
  map (fun c => if Customer.id c =? customerId then bump_customer now c else c) l.

Definition bump_session (now : Z) (s : ChatSession.t) : ChatSession.t :=
  ChatSession.mk (ChatSession.id s) (ChatSession.customer_id s)
                 (ChatSession.session_start s) (ChatSession.session_end s)
                 (ChatSession.message_count s + 1) (ChatSession.is_active s)
                 (ChatSession.created_at s) now.

(** [UPDATE chat_sessions SET message_count = message_count + 1 WHERE id = $1] *)
Definition bump_sessions (sessionId now : Z) (l : list ChatSession.t) : list ChatSession.t :=
  map (fun s => if ChatSession.id s =? sessionId then bump_session now s else s) l.

Definition set_status (st : string) (now : Z) (m : Message.t) : Message.t :=
  Message.mk (Message.id m) (Message.customer_id m) (Message.session_id m)
             (Message.waha_message_id m) (Message.chat_id m) (Message.from_number m)
             (Message.to_number m) (Message.message_body m) (Message.timestamp m)
             (Message.is_from_me m) (Some st) (Message.reply_to m)
             (Message.created_at m) now.

Definition has_waha_id (wahaMessageId : string) (m : Message.t) : bool :=
  (Message.waha_message_id m =? wahaMessageId)%string.

(** *** Texts as parameters of a statement *)

Fixpoint occurs (c : ascii) (s : string) : bool :=
  match s with
  | EmptyString => false
  | String a r => Ascii.eqb a c || occurs c r
  end.

(** The storage engine takes no text that holds the character of code 0. *)
Definition text_parameter (s : string) : Result string :=
  if occurs "000"%char s then Throw (PgError "invalid byte sequence: 0x00")
  else Ok s.

Fixpoint only_spaces (s : string) : bool :=
  match s with
  | EmptyString => true
  | String c r => Ascii.eqb c " " && only_spaces r
  end.

(** A text assigned to a [VARCHAR(n)] column.  A text of more than [n]
    characters is rejected when the statement is bound, whether or not a row
    will match; but when all that lies beyond the [n]-th character is spaces,
    they are cut off and the text is taken. *)
Definition varchar (n : nat) (s : string) : Result string :=
  match text_parameter s with
  | Throw e => Throw e
  | Ok _ =>
      if (String.length s <=? n)%nat then Ok s
      else if only_spaces (substring n (String.length s - n) s)
           then Ok (substring 0 n s)
           else Throw (PgError "value too long for type character varying")
  end.

(** The two parameters of the status update as the engine takes them: the
    status as the [VARCHAR(50)] column will store it. *)
Definition status_parameters (st wahaMessageId : string) : Result string :=
  match varchar 50 st, text_parameter wahaMessageId with
  | Ok stored, Ok _ => Ok stored
  | Throw e, _ => Throw e
  | Ok _, Throw e => Throw e
  end.

(** [UPDATE messages SET status = $1, updated_at = NOW()
    WHERE waha_message_id = $2]; the result is [rowCount]. *)
Definition update_message_status (st wahaMessageId : string) (now : Z) : M nat := fun d =>
  match status_parameters st wahaMessageId with
  | Ok stored =>
      (Ok (List.length (filter (has_waha_id wahaMessageId) (messages d))),
       mkDatabase (customers d) (chat_sessions d)
                  (map (fun m => if has_waha_id wahaMessageId m
                                 then set_status stored now m else m)
                       (messages d))
                  (customers_id_seq d) (chat_sessions_id_seq d) (messages_id_seq d))
  | Throw e => (Throw e, d)
  end.

(** [DatabaseService.query], for the statements sent outside a transaction:
    what the statement throws is wrapped. *)
Definition query {A} (statement : M A) : M A := fun d =>
  match statement d with
  | (Ok a, d') => (Ok a, d')
  | (Throw e, d') => (Throw (DatabaseServiceError "Query execution failed" e), d')
  end.

(** ** [WhatsAppService] *)

(** [waId.replace(/@[cg]\.us$/, '')] *)
Definition extractPhoneNumber (waId : string) : string :=
  let n := String.length waId in
  let tail := substring (n - 5) 5 waId in
  if (5 <=? n)%nat && ((tail =? "@c.us")%string || (tail =? "@g.us")%string)
  then substring 0 (n - 5) waId
  else waId.

Definition findOrCreateCustomer (phoneNumber : string) (payload : WahaMessagePayload.t)
    (now : Z) : M Customer.t :=
  findResult <- select_customers_by_phone phoneNumber ;;
  match findResult with
  | c :: _ => ret c
  | [] =>
      let timestamp := WahaMessagePayload.timestamp payload * 1000 in
      let name := or_null (WahaMessagePayload.notifyName payload) in
      insert_customer phoneNumber name timestamp now
  end.

Definition findOrCreateChatSession (customerId now : Z) : M ChatSession.t :=
  findResult <- select_fresh_session customerId now ;;
  match findResult with
  | Some s => ret s
  | None =>
      close_active_sessions customerId now ;;;
      insert_session customerId now
  end.

Definition saveMessage (customerId sessionId : Z) (payload : WahaMessagePayload.t)
    (now : Z) : M Message.t :=
  let timestamp := WahaMessagePayload.timestamp payload * 1000 in
  let messageBody := or_else (WahaMessagePayload.body payload)
                             (or_null (WahaMessagePayload.caption payload)) in
  let toNumber := match or_null (WahaMessagePayload.to payload) with
                  | Some t => Some (extractPhoneNumber t)
                  | None => None
                  end in
  insert_message customerId sessionId (WahaMessagePayload.id payload)
                 (WahaMessagePayload.from payload)
                 (extractPhoneNumber (WahaMessagePayload.from payload))
                 toNumber messageBody timestamp (WahaMessagePayload.fromMe payload)
                 (or_null (WahaMessagePayload.replyTo payload)) now.

Definition updateCustomerStats (customerId now : Z) : M unit := fun d =>
  (Ok tt, mkDatabase (bump_customers customerId now (customers d)) (chat_sessions d)
                     (messages d) (customers_id_seq d) (chat_sessions_id_seq d)
                     (messages_id_seq d)).

Definition updateSessionStats (sessionId now : Z) : M unit := fun d =>
  (Ok tt, mkDatabase (customers d) (bump_sessions sessionId now (chat_sessions d))
                     (messages d) (customers_id_seq d) (chat_sessions_id_seq d)
                     (messages_id_seq d)).

Definition valid_phone (phoneNumber : string) : bool :=
  negb ((phoneNumber =? "")%string || (String.length phoneNumber <? 10)%nat).

(** The callback handed to [databaseService.transaction]. *)
Definition ingest (payload : WahaMessagePayload.t) (now : Z) : M unit :=
  let phoneNumber := extractPhoneNumber (WahaMessagePayload.from payload) in
  if negb (valid_phone phoneNumber) then ret tt
  else
    customer <- findOrCreateCustomer phoneNumber payload now ;;
    session <- findOrCreateChatSession (Customer.id customer) now ;;
    saveMessage (Customer.id customer) (ChatSession.id session) payload now ;;;
    updateCustomerStats (Customer.id customer) now ;;;
    updateSessionStats (ChatSession.id session) now.

Definition handleIncomingMessage (payload : WahaMessagePayload.t) (now : Z) : M unit :=
  catch
    (if truthy_flag (WahaMessagePayload.fromMe payload) then ret tt
     else transaction (ingest payload now))
    (fun error => throw (WhatsAppServiceError "Failed to process incoming message"
                                              error)).

(** The lines the logger writes are not part of the store.
    [handleMessageStatus], whose only branch chooses between two of them,
    returns the line it logs. *)
Inductive LogEntry : Type :=
| LogWarn (message : string)
| LogDebug (message : string).

(** [handleMessageStatus]; the TypeScript function returns nothing, the
    value here is the line it logs after the update. *)
Definition handleMessageStatus (payload : WahaMessageStatusPayload.t) (now : Z)
  : M LogEntry :=
  catch
    (rowCount <- query (update_message_status (WahaMessageStatusPayload.status payload)
                                              (WahaMessageStatusPayload.id payload) now) ;;
     if (rowCount =? 0)%nat
     then ret (LogWarn "Message not found for status update")
     else ret (LogDebug "Message status updated"))
    (fun error => throw (WhatsAppServiceError "Failed to update message status"
                                              error)).

(** [updateCustomerSegment]: [UPDATE customers SET segment = $1,
    segment_updated_at = NOW() WHERE id = $2]. *)
Definition set_segment (seg : string) (now : Z) (c : Customer.t) : Customer.t :=
  Customer.mk (Customer.id c) (Customer.phone_number c) (Customer.name c)
              (Customer.first_message_at c) (Customer.last_message_at c)
              (Customer.total_messages c) (Some seg) (Some now)
              (Customer.created_at c) now.

Definition update_customer_segment (seg : string) (customerId now : Z) : M unit := fun d =>
  (Ok tt, mkDatabase
            (map (fun c => if Customer.id c =? customerId then set_segment seg now c else c)
                 (customers d))
            (chat_sessions d) (messages d)
            (customers_id_seq d) (chat_sessions_id_seq d) (messages_id_seq d)).

(** ** The conversation digest ([llm.service.ts]) *)

Module RecentMessage.
Record t : Type := mk {
  messageBody : string;
  timestamp : Z;
  isFromMe : option bool
}.
End RecentMessage.

(** [messages.sort((a, b) => a.timestamp - b.timestamp)]: ascending and
    stable. *)
Fixpoint insert_by_time (m : RecentMessage.t) (l : list RecentMessage.t)
  : list RecentMessage.t :=
  match l with
  | [] => [m]
  | x :: r =>
      if RecentMessage.timestamp m <=? RecentMessage.timestamp x
      then m :: x :: r
      else x :: insert_by_time m r
  end.

Definition sort_by_time (l : list RecentMessage.t) : list RecentMessage.t :=
  fold_right insert_by_time [] l.

(** The [for] loop of [calculateAverageResponseTime], from index [i] on:
    [previous] is [sortedMessages[i - 1]], [rest] starts at [sortedMessages[i]]. *)
Fixpoint response_loop (previous : RecentMessage.t) (rest : list RecentMessage.t)
    (totalResponseTime responseCount : Z) : Z * Z :=
  match rest with
  | [] => (totalResponseTime, responseCount)
  | current :: rest' =>
      if negb (truthy_flag (RecentMessage.isFromMe current))
         && truthy_flag (RecentMessage.isFromMe previous)
      then response_loop current rest'
             (totalResponseTime +
              (RecentMessage.timestamp current - RecentMessage.timestamp previous))
             (responseCount + 1)
      else response_loop current rest' totalResponseTime responseCount
  end.

(** The result is in seconds. *)
Definition calculateAverageResponseTime (messages : list RecentMessage.t) : Q :=
  if (List.length messages <? 2)%nat then 0%Q
  else
    match sort_by_time messages with
    | [] => 0%Q
    | first :: rest =>
        let '(totalResponseTime, responseCount) := response_loop first rest 0 0 in
        if 0 <? responseCount
        then (inject_Z totalResponseTime / inject_Z responseCount / inject_Z 1000)%Q
        else 0%Q
    end.

(** ** The classifier's answer *)

#[warnings="-register-all"]
Inductive json : Type :=
| JNull
| JBool (b : bool)
| JNumber (n : Q)
| JString (s : string)
| JArray (items : list json)
| JObject (fields : list (string * json)).

(** [obj[key]] on a parsed object: the last binding of a repeated key wins;
    [None] is [undefined]. *)
Fixpoint lookup_field (key : string) (fields : list (string * json)) : option json :=
  match fields with
  | [] => None
  | (k, v) :: rest =>
      match lookup_field key rest with
      | Some v' => Some v'
      | None => if (k =? key)%string then Some v else None
      end
  end.

(** Property access on a JSON value: a [TypeError] on [null], [undefined] on
    the other values that are not objects (none of the four keys read here is
    a property of strings, numbers, booleans or arrays). *)
Definition get_property (v : json) (key : string) : Result (option json) :=
  match v with
  | JNull => Throw (JsError "TypeError: Cannot read properties of null")
  | JObject fields => Ok (lookup_field key fields)
  | _ => Ok None
  end.

Definition truthy (v : option json) : bool :=
  match v with
  | None | Some JNull => false
  | Some (JBool b) => b
  | Some (JNumber n) => negb (Qeq_bool n 0)
  | Some (JString s) => negb (s =? "")%string
  | Some (JArray _) | Some (JObject _) => true
  end.

Record SegmentationResult : Type := mkSegmentationResult {
  result_segment : string;
  confidence : Q;
  reasoning : json;
  characteristics : list json
}.

Definition validSegments : list string :=
  ["VIP_CUSTOMER"; "REGULAR_CUSTOMER"; "POTENTIAL_CUSTOMER";
   "SUPPORT_SEEKER"; "PRICE_SENSITIVE"; "INACTIVE_CUSTOMER"; "NEW_CUSTOMER"].

Definition includes (l : list string) (s : string) : bool :=
  existsb (fun x => (x =? s)%string) l.

Definition fallback_result : SegmentationResult :=
  mkSegmentationResult "REGULAR_CUSTOMER" (1 # 2)
    (JString "Failed to parse LLM response, assigned default segment")
    [JString "parsing_error"].

Fixpoint last_index_of (c : ascii) (s : string) : option nat :=
  match s with
  | EmptyString => None
  | String a r =>
      match last_index_of c r with
      | Some j => Some (S j)
      | None => if Ascii.eqb a c then Some O else None
      end
  end.

(** [response.match(/\{[\s\S]*\}/)]: from the first opening brace to the
    last closing brace after it. *)
Definition jsonMatch (response : string) : option string :=
  match index 0 "{" response with
  | None => None
  | Some i =>
      let tail := substring i (String.length response - i) response in
      match last_index_of "}"%char tail with
      | None => None
      | Some j => Some (substring 0 (S j) tail)
      end
  end.

Section Segmentation.

(** [JSON.parse]; [None] stands for the [SyntaxError] it throws. *)
Variable JSON_parse : string -> option json.

(** The [try] block of [parseSegmentationResponse]. *)
Definition parseSegmentationResponse_try (response : string) : Result SegmentationResult :=
  match jsonMatch response with
  | None => Throw (JsError "No valid JSON found in LLM response")
  | Some text =>
      match JSON_parse text with
      | None => Throw (JsError "SyntaxError")
      | Some parsed =>
          match get_property parsed "segment" with
          | Throw e => Throw e
          | Ok (Some (JString segment)) =>
              if negb (includes validSegments segment)
              then Throw (JsError "Invalid segment")
              else
                match get_property parsed "confidence" with
                | Throw e => Throw e
                | Ok (Some (JNumber c)) =>
                    if negb (Qle_bool 0 c) || negb (Qle_bool c 1)
                    then Throw (JsError "Invalid confidence score")
                    else
                      match get_property parsed "reasoning",
                            get_property parsed "characteristics" with
                      | Ok r, Ok chars =>
                          Ok (mkSegmentationResult segment c
                                (match r with
                                 | Some v => if truthy r then v
                                             else JString "No reasoning provided"
                                 | None => JString "No reasoning provided"
                                 end)
                                (match chars with
                                 | Some (JArray items) => items
                                 | _ => []
                                 end))
                      | Throw e, _ => Throw e
                      | _, Throw e => Throw e
                      end
                | Ok _ => Throw (JsError "Invalid confidence score")
                end
          | Ok _ => Throw (JsError "Invalid segment")
          end
      end
  end.

(** [parseSegmentationResponse]: the [catch] block returns the fallback. *)
Definition parseSegmentationResponse (response : string) : SegmentationResult :=
  match parseSegmentationResponse_try response with
  | Ok result => result
  | Throw _ => fallback_result
  end.

End Segmentation.

(** ** JS numbers as route parameters *)

Inductive jsnum : Type :=
| NaN
| Infinity (negative : bool)
| Finite (q : Q).

Definition is_whitespace (c : ascii) : bool :=
  let n := nat_of_ascii c in
  ((9 <=? n) && (n <=? 13) || (n =? 32) || (n =? 160))%nat.

Fixpoint trim_start (s : string) : string :=
  match s with
  | String c r => if is_whitespace c then trim_start r else s
  | EmptyString => EmptyString
  end.

Fixpoint reverse (s : string) : string :=
  match s with
  | EmptyString => EmptyString
  | String c r => reverse r ++ String c EmptyString
  end.

Definition trim (s : string) : string :=
  reverse (trim_start (reverse (trim_start s))).

Definition digit_value (radix : nat) (c : ascii) : option Z :=
  let n := nat_of_ascii c in
  let v := if ((48 <=? n) && (n <=? 57))%nat then Some (n - 48)%nat
           else if ((97 <=? n) && (n <=? 102))%nat then Some (n - 87)%nat
           else if ((65 <=? n) && (n <=? 70))%nat then Some (n - 55)%nat
           else None in
  match v with
  | Some d => if (d <? radix)%nat then Some (Z.of_nat d) else None
  | None => None
  end.

(** The leading digits of [s] in the given radix: their value, their number,
    and the rest of the string. *)
Fixpoint read_digits (radix : nat) (s : string) (value : Z) (count : nat)
  : Z * nat * string :=
  match s with
  | EmptyString => (value, count, s)
  | String c r =>
      match digit_value radix c with
      | Some d => read_digits radix r (value * Z.of_nat radix + d) (S count)
      | None => (value, count, s)
      end
  end.

Definition read_sign (s : string) : bool * string :=
  match s with
  | String "+" r => (false, r)
  | String "-" r => (true, r)
  | _ => (false, s)
  end.

(** [ExponentPart] at the end of a literal: the power of ten, if well formed. *)
Definition read_exponent (s : string) : option Z :=
  match s with
  | EmptyString => Some 0
  | String c r =>
      if (Ascii.eqb c "e" || Ascii.eqb c "E")%bool then
        let '(negative, r1) := read_sign r in
        match read_digits 10 r1 0 0 with
        | (v, S _, EmptyString) => Some (if negative then - v else v)
        | _ => None
        end
      else None
  end.

(** [StrUnsignedDecimalLiteral] other than [Infinity]. *)
Definition read_unsigned_decimal (s : string) : option Q :=
  let '(int_value, int_count, r1) := read_digits 10 s 0 0 in
  let '(frac_value, frac_count, has_dot, r2) :=
    match r1 with
    | String "." r => let '(v, n, r') := read_digits 10 r 0 0 in (v, n, true, r')
    | _ => (0, O, false, r1)
    end in
  if ((int_count =? 0) && (frac_count =? 0))%nat then None
  else
    match read_exponent r2 with
    | None => None
    | Some e =>
        Some ((inject_Z int_value +
               inject_Z frac_value / inject_Z (10 ^ Z.of_nat frac_count))
              * Qpower (inject_Z 10) e)%Q
    end.

Definition read_radix_literal (s : string) : option Q :=
  match s with
  | String "0" (String p r) =>
      let radix := if (Ascii.eqb p "x" || Ascii.eqb p "X")%bool then Some 16%nat
                   else if (Ascii.eqb p "o" || Ascii.eqb p "O")%bool then Some 8%nat
                   else if (Ascii.eqb p "b" || Ascii.eqb p "B")%bool then Some 2%nat
                   else None in
      match radix with
      | Some b =>
          match read_digits b r 0 0 with
          | (v, S _, EmptyString) => Some (inject_Z v)
          | _ => None
          end
      | None => None
      end
  | _ => None
  end.

(** [Number(s)] on a string (ECMAScript [StringToNumber]); the value of a
    literal is kept exact. *)
Definition Number (s : string) : jsnum :=
  let t := trim s in
  if (t =? "")%string then Finite 0
  else
    match read_radix_literal t with
    | Some q => Finite q
    | None =>
        let '(negative, u) := read_sign t in
        if (u =? "Infinity")%string then Infinity negative
        else
          match read_unsigned_decimal u with
          | Some q => Finite (if negative then - q else q)%Q
          | None => NaN
          end
    end.

(** A JS number bound to an [INTEGER] parameter: the driver sends its decimal
    text, and the engine rejects a text that is not an integer.  (It also
    rejects integers outside the 32-bit range; the model lets them through,
    and the lookup then finds no row.) *)
Definition integer_parameter (n : jsnum) : Result Z :=
  match n with
  | Finite q =>
      if Qnum q mod Zpos (Qden q) =? 0
      then Ok (Qnum q / Zpos (Qden q))
      else Throw (PgError "invalid input syntax for type integer")
  | _ => Throw (PgError "invalid input syntax for type integer")
  end.

(** ** Storage access outside transactions: [databaseService.query]

    Each call is one round trip to the storage engine; the calls made are
    recorded next to the store. *)

Inductive Query : Type :=
| SelectCustomerById (customerId : jsnum)
| SelectRecentMessages (customerId : jsnum)
| SelectSessionStats (customerId : jsnum)
| UpdateCustomerSegment (segment : string) (customerId : jsnum).

Definition IO (A : Type) : Type :=
  Database * list Query -> Result A * (Database * list Query).

Definition io_ret {A} (a : A) : IO A := fun w => (Ok a, w).

Definition io_throw {A} (e : Error) : IO A := fun w => (Throw e, w).

Definition io_bind {A B} (m : IO A) (k : A -> IO B) : IO B := fun w =>
  match m w with
  | (Ok a, w') => k a w'
  | (Throw e, w') => (Throw e, w')
  end.

Definition io_catch {A} (m : IO A) (handler : Error -> IO A) : IO A := fun w =>
  match m w with
  | (Ok a, w') => (Ok a, w')
  | (Throw e, w') => handler e w'
  end.

Notation "x <-- m ;; k" := (io_bind m (fun x => k))
  (at level 61, m at next level, right associativity).

(** [DatabaseService.query]: run the statement, wrap what it throws. *)
Definition databaseService_query {A} (q : Query) (statement : M A) : IO A :=
  fun '(d, log) =>
    match statement d with
    | (Ok a, d') => (Ok a, (d', log ++ [q]))
    | (Throw e, d') =>
        (Throw (DatabaseServiceError "Query execution failed" e), (d', log ++ [q]))
    end.

(** A statement with one [INTEGER] parameter bound to a JS number. *)
Definition with_integer {A} (n : jsnum) (statement : Z -> M A) : M A :=
  match integer_parameter n with
  | Ok z => statement z
  | Throw e => throw e
  end.

(** [SELECT * FROM customers WHERE id = $1] *)
Definition select_customer_by_id (customerId : Z) : M (list Customer.t) := fun d =>
  (Ok (filter (fun c => Customer.id c =? customerId) (customers d)), d).

Fixpoint insert_newest_first (m : Message.t) (l : list Message.t) : list Message.t :=
  match l with
  | [] => [m]
  | x :: r =>
      if Message.timestamp x <=? Message.timestamp m
      then m :: x :: r
      else x :: insert_newest_first m r
  end.

Definition has_body (m : Message.t) : bool :=
  match Message.message_body m with
  | Some _ => true
  | None => false
  end.

(** [SELECT message_body, timestamp, is_from_me FROM messages
    WHERE customer_id = $1 AND message_body IS NOT NULL
    ORDER BY timestamp DESC LIMIT 100]; rows of equal timestamp in table
    order. *)
Definition select_recent_messages (customerId : Z) : M (list Message.t) := fun d =>
  (Ok (firstn 100
         (fold_right insert_newest_first []
            (filter (fun m => (Message.customer_id m =? customerId) && has_body m)
                    (messages d)))), d).

(** [SELECT COUNT( * ), AVG(message_count) FROM chat_sessions
    WHERE customer_id = $1]; [AVG] over no row is [NULL].  The average is the
    exact quotient; the engine returns it rounded to 16 decimals, and
    [parseFloat] reads that as a double. *)
Definition select_session_stats (customerId : Z) : M (Z * option Q) := fun d =>
  let rows := filter (fun s => ChatSession.customer_id s =? customerId) (chat_sessions d) in
  let count := Z.of_nat (List.length rows) in
  (Ok (count,
       if count =? 0 then None
       else Some (inject_Z (fold_right Z.add 0%Z (map ChatSession.message_count rows))
                  / inject_Z count)%Q), d).

Record ConversationHistory : Type := mkConversationHistory {
  customerId : Z;
  phoneNumber : string;
  name : option string;
  totalMessages : Z;
  firstMessageAt : Z;
  lastMessageAt : Z;
  totalSessions : Z;
  avgMessagesPerSession : Q;
  daysAsCustomer : Z;
  recentMessages : list RecentMessage.t
}.

Definition MS_PER_DAY : Z := 1000 * 60 * 60 * 24.

Definition recent_row (m : Message.t) : RecentMessage.t :=
  RecentMessage.mk (match Message.message_body m with Some b => b | None => "" end)
                   (Message.timestamp m) (Message.is_from_me m).

(** The text of a number in a template literal.  The one template of this
    file is filled after the storage engine has taken the number as an
    [INTEGER] parameter: the text of such a number is its decimal numeral.
    (Of a number with a fractional part, which no template receives here,
    only the whole part is written.) *)
Definition Number_toString (n : jsnum) : string :=
  match n with
  | NaN => "NaN"
  | Infinity negative => if negative then "-Infinity" else "Infinity"
  | Finite q => NilZero.string_of_int (Z.to_int (Qnum q / Zpos (Qden q)))
  end.

(** [WhatsAppService.getCustomerConversationHistory]; [now] is [Date.now()]. *)
Definition getCustomerConversationHistory (customerId : jsnum) (now : Z)
  : IO ConversationHistory :=
  io_catch
    (customerResult <-- databaseService_query (SelectCustomerById customerId)
                          (with_integer customerId select_customer_by_id) ;;
     match customerResult with
     | [] => io_throw (WhatsAppServiceError
                         ("Customer with ID " ++ Number_toString customerId ++ " not found")
                         NoCause)
     | customer :: _ =>
         messagesResult <-- databaseService_query (SelectRecentMessages customerId)
                              (with_integer customerId select_recent_messages) ;;
         sessionStats <-- databaseService_query (SelectSessionStats customerId)
                            (with_integer customerId select_session_stats) ;;
         io_ret (mkConversationHistory
                   (Customer.id customer)
                   (Customer.phone_number customer)
                   (Customer.name customer)
                   (Customer.total_messages customer)
                   (Customer.first_message_at customer)
                   (Customer.last_message_at customer)
                   (fst sessionStats)
                   (match snd sessionStats with Some a => a | None => 0%Q end)
                   ((now - Customer.first_message_at customer) / MS_PER_DAY)
                   (map recent_row messagesResult))
     end)
    (fun error =>
       io_throw (WhatsAppServiceError "Failed to retrieve conversation history" error)).

(** [WhatsAppService.updateCustomerSegment] *)
Definition updateCustomerSegment (customerId : jsnum) (seg : string) (now : Z) : IO unit :=
  io_catch
    (databaseService_query (UpdateCustomerSegment seg customerId)
       (with_integer customerId (fun z => update_customer_segment seg z now)))
    (fun error =>
       io_throw (WhatsAppServiceError "Failed to update customer segment" error)).

(** The digest handed to the prompt.  The most active hours and the common
    topics of [conversationPatterns] are not modelled. *)
Record CustomerSegmentationData : Type := mkCustomerSegmentationData {
  history : ConversationHistory;
  digest_recentMessages : list RecentMessage.t;
  averageResponseTime : Q
}.

Definition formatCustomerDataForAnalysis (data : ConversationHistory)
  : CustomerSegmentationData :=
  let messages := recentMessages data in
  mkCustomerSegmentationData data (firstn 20 messages)
                             (calculateAverageResponseTime messages).

Section Endpoint.

Variable JSON_parse : string -> option json.

(** The prompt template, and the classifier behind [callAnthropicAPI]: the
    text of its answer, or the error it fails with. *)
Variable createSegmentationPrompt : CustomerSegmentationData -> string.
Variable callAnthropicAPI : string -> Result string.

(** [LLMService.segmentCustomer] *)
Definition LLMService_segmentCustomer (customerId : jsnum) (now : Z)
  : IO SegmentationResult :=
  io_catch
    (customerData <-- getCustomerConversationHistory customerId now ;;
     let analysisData := formatCustomerDataForAnalysis customerData in
     let prompt := createSegmentationPrompt analysisData in
     match callAnthropicAPI prompt with
     | Throw e => io_throw e
     | Ok response =>
         let segmentationResult := parseSegmentationResponse JSON_parse response in
         _ <-- updateCustomerSegment customerId (result_segment segmentationResult) now ;;
         io_ret segmentationResult
     end)
    (fun error => io_throw (LLMServiceError "Failed to segment customer" error)).

(** [customerIdSchema.parse(req.params)] with
    [customerId: z.string().transform(Number)]: a [ZodError] when the
    parameter is not a string ([None]); every string passes. *)
Definition customerIdSchema_parse (customerId : option string) : Result jsnum :=
  match customerId with
  | Some s => Ok (Number s)
  | None => Throw (ZodError "Expected string, received undefined")
  end.

Definition instanceof_ZodError (e : Error) : bool :=
  match e with
  | ZodError _ => true
  | _ => false
  end.

(** [WebhookController.segmentCustomer]: the status of the response and the
    result it carries. *)
Definition segmentCustomer (customerId : option string) (now : Z)
  : Database * list Query -> (Z * option SegmentationResult) * (Database * list Query) :=
  fun w =>
    match
      match customerIdSchema_parse customerId with
      | Ok n => LLMService_segmentCustomer n now w
      | Throw e => (Throw e, w)
      end
    with
    | (Ok result, w') => ((200, Some result), w')
    | (Throw error, w') =>
        if instanceof_ZodError error then ((400, None), w') else ((500, None), w')
    end.

End Endpoint.

(** * Statements and proofs

    The definitions the statements are written with come first, the lemmas
    and theorems after them. *)

(** ** Runs of the service *)

Inductive Event : Type :=
| EvMessage (payload : WahaMessagePayload.t)
| EvStatus (payload : WahaMessageStatusPayload.t)
| EvSegment (customerId : Z) (segment : string).

(** The store after an event processed at time [now]. *)
Definition apply_event (now : Z) (e : Event) (d : Database) : Database :=
  match e with
  | EvMessage payload => snd (handleIncomingMessage payload now d)
  | EvStatus payload => snd (handleMessageStatus payload now d)
  | EvSegment customerId seg => snd (update_customer_segment seg customerId now d)
  end.

(** [evolves t d t' d']: from store [d] at time [t], a sequence of events
    processed at non-decreasing times leads to [d'] at time [t']. *)
Inductive evolves (t : Z) (d : Database) : Z -> Database -> Prop :=
| evolves_refl : evolves t d t d
| evolves_step : forall t1 d1 t2 e,
    evolves t d t1 d1 -> t1 <= t2 -> evolves t d t2 (apply_event t2 e d1).

Definition reachable (t : Z) (d : Database) : Prop :=
  exists t0, evolves t0 empty_db t d.

(** The row of a given external message id, and of a given session id. *)
Definition message_of (d : Database) (wahaMessageId : string) : option Message.t :=
  find (has_waha_id wahaMessageId) (messages d).

Definition session_of (d : Database) (sessionId : Z) : option ChatSession.t :=
  find (fun s => ChatSession.id s =? sessionId) (chat_sessions d).

(** The number of active sessions of a customer. *)
Definition active_count (customerId : Z) (l : list ChatSession.t) : nat :=
  List.length (filter (is_active_of customerId) l).

Definition at_most_one_active (d : Database) : Prop :=
  forall customerId, (active_count customerId (chat_sessions d) <= 1)%nat.

(** ** Two deliveries in flight at once

    Each delivery runs its transaction on a connection of its own, at the
    default isolation level (READ COMMITTED), and locks nothing before it
    looks for the customer and for a fresh session.  At that level a
    statement reads the rows that were committed when it started; an
    [UPDATE] that meets a row another transaction has changed waits for that
    transaction to end and then checks the new version of the row against
    its [WHERE]; a row inserted after the statement started is not among its
    rows. *)

(** The closing [UPDATE] of [findOrCreateChatSession] when another
    transaction commits while it waits: it closes the rows that were active
    in [seen], the table as committed when the statement started, and are
    still active. *)
Definition seen_active (seen : list ChatSession.t) (customerId : Z) (s : ChatSession.t)
  : bool :=
  existsb (fun s0 => (ChatSession.id s0 =? ChatSession.id s) && is_active_of customerId s0)
          seen.

Definition close_seen (seen : list ChatSession.t) (customerId now : Z) : M unit := fun d =>
  (Ok tt, mkDatabase (customers d)
            (map (fun s => if seen_active seen customerId s && is_active_of customerId s
                           then close_session now s else s)
                 (chat_sessions d))
            (messages d) (customers_id_seq d) (chat_sessions_id_seq d)
            (messages_id_seq d)).

(** The callback of a delivery that is overtaken: its two lookups and the
    start of its closing [UPDATE] come before the commit of another delivery
    and are answered from [before], the store as it was committed then; what
    it writes, it writes to the store the other delivery has left.  (An
    [INSERT] that meets the unique key of a row the other delivery has
    inserted waits for the commit and fails, as it does on the committed
    row.) *)
Definition overtaken (payload : WahaMessagePayload.t) (now : Z) (before : Database)
  : M unit :=
  let phoneNumber := extractPhoneNumber (WahaMessagePayload.from payload) in
  if negb (valid_phone phoneNumber) then ret tt
  else
    customer <- match fst (select_customers_by_phone phoneNumber before) with
                | Ok (c :: _) => ret c
                | _ => insert_customer phoneNumber
                         (or_null (WahaMessagePayload.notifyName payload))
                         (WahaMessagePayload.timestamp payload * 1000) now
                end ;;
    session <- match fst (select_fresh_session (Customer.id customer) now before) with
               | Ok (Some s) => ret s
               | _ => close_seen (chat_sessions before) (Customer.id customer) now ;;;
                      insert_session (Customer.id customer) now
               end ;;
    saveMessage (Customer.id customer) (ChatSession.id session) payload now ;;;
    updateCustomerStats (Customer.id customer) now ;;;
    updateSessionStats (ChatSession.id session) now.

(** [handleIncomingMessage] for such a delivery. *)
Definition handleIncomingMessage_overtaken (payload : WahaMessagePayload.t) (now : Z)
    (before : Database) : M unit :=
  catch
    (if truthy_flag (WahaMessagePayload.fromMe payload) then ret tt
     else transaction (overtaken payload now before))
    (fun error => throw (WhatsAppServiceError "Failed to process incoming message"
                                              error)).

(** ** What one ingestion does to the tables *)

(** The rows the three inserts create. *)
Definition new_customer_row (phoneNumber : string) (payload : WahaMessagePayload.t)
    (now seq : Z) : Customer.t :=
  Customer.mk seq phoneNumber (or_null (WahaMessagePayload.notifyName payload))
              (WahaMessagePayload.timestamp payload * 1000)
              (WahaMessagePayload.timestamp payload * 1000) 1 None None now now.

Definition new_session_row (customerId now seq : Z) : ChatSession.t :=
  ChatSession.mk seq customerId now None 0 true now now.

Definition by_phone (phoneNumber : string) (c : Customer.t) : bool :=
  (Customer.phone_number c =? phoneNumber)%string.

(** The customer lookup: found, or inserted at the end of the table. *)
Definition customer_step (phoneNumber : string) (payload : WahaMessagePayload.t)
    (now : Z) (l : list Customer.t) (seq : Z)
    (cust : Customer.t) (l' : list Customer.t) (seq' : Z) : Prop :=
  (exists rest, filter (by_phone phoneNumber) l = cust :: rest /\ l' = l /\ seq' = seq)
  \/ (filter (by_phone phoneNumber) l = [] /\
      cust = new_customer_row phoneNumber payload now seq /\
      l' = l ++ [cust] /\ seq' = seq + 1).

(** The session lookup: a fresh active session reused, or every active
    session closed and a new one opened. *)
Definition session_step (customerId now : Z) (l : list ChatSession.t) (seq : Z)
    (sess : ChatSession.t) (l' : list ChatSession.t) (seq' : Z) : Prop :=
  (latest_session (filter (fresh_active customerId now) l) = Some sess /\
   l' = l /\ seq' = seq)
  \/ (filter (fresh_active customerId now) l = [] /\
      sess = new_session_row customerId now seq /\
      l' = close_active customerId now l ++ [sess] /\ seq' = seq + 1).

Definition new_message_row (customerId sessionId : Z) (payload : WahaMessagePayload.t)
    (now seq : Z) : Message.t :=
  Message.mk seq customerId sessionId (WahaMessagePayload.id payload)
             (WahaMessagePayload.from payload)
             (extractPhoneNumber (WahaMessagePayload.from payload))
             (match or_null (WahaMessagePayload.to payload) with
              | Some t => Some (extractPhoneNumber t)
              | None => None
              end)
             (or_else (WahaMessagePayload.body payload)
                      (or_null (WahaMessagePayload.caption payload)))
             (WahaMessagePayload.timestamp payload * 1000)
             (WahaMessagePayload.fromMe payload) None
             (or_null (WahaMessagePayload.replyTo payload)) now now.

(** No sequence went backwards. *)
Definition seq_le (d d' : Database) : Prop :=
  customers_id_seq d <= customers_id_seq d' /\
  chat_sessions_id_seq d <= chat_sessions_id_seq d' /\
  messages_id_seq d <= messages_id_seq d'.

(** The committed effect of one message: customer and session resolved, the
    message appended, both counters bumped. *)
Definition ingested (payload : WahaMessagePayload.t) (now : Z) (d d' : Database)
    (cust : Customer.t) (sess : ChatSession.t) : Prop :=
  exists l1 seq1 l2 seq2,
    customer_step (extractPhoneNumber (WahaMessagePayload.from payload)) payload now
                  (customers d) (customers_id_seq d) cust l1 seq1 /\
    session_step (Customer.id cust) now (chat_sessions d) (chat_sessions_id_seq d)
                 sess l2 seq2 /\
    d' = mkDatabase (bump_customers (Customer.id cust) now l1)
                    (bump_sessions (ChatSession.id sess) now l2)
                    (messages d ++ [new_message_row (Customer.id cust) (ChatSession.id sess)
                                                    payload now (messages_id_seq d)])
                    seq1 seq2 (messages_id_seq d + 1).

(** What [handleIncomingMessage] throws on a duplicate message id. *)
Definition duplicate_error : Error :=
  WhatsAppServiceError "Failed to process incoming message"
    (DatabaseServiceError "Transaction failed" (PgError "messages_waha_message_id_key")).

(** ** Invariants of reachable stores *)

(** Facts that hold of every store reachable at time [t]. *)
Record wf (t : Z) (d : Database) : Prop := mk_wf {
  wf_one_active : at_most_one_active d;
  wf_session_id : forall s, In s (chat_sessions d) ->
                            ChatSession.id s < chat_sessions_id_seq d;
  wf_session_nodup : NoDup (map ChatSession.id (chat_sessions d));
  wf_session_start : forall s, In s (chat_sessions d) -> ChatSession.session_start s <= t;
  wf_customer_id : forall c, In c (customers d) -> Customer.id c < customers_id_seq d;
  wf_session_fk : forall s, In s (chat_sessions d) ->
                            ChatSession.customer_id s < customers_id_seq d;
  wf_message_fk : forall m, In m (messages d) ->
                            Message.customer_id m < customers_id_seq d;
  wf_message_from : forall m, In m (messages d) ->
      exists c, In c (customers d) /\ Customer.phone_number c = Message.from_number m;
  wf_from_me : forall m, In m (messages d) -> truthy_flag (Message.is_from_me m) = false
}.

(** ** Rows of a customer *)

Definition session_of_customer (customerId : Z) (s : ChatSession.t) : bool :=
  ChatSession.customer_id s =? customerId.

Definition message_of_customer (customerId : Z) (m : Message.t) : bool :=
  Message.customer_id m =? customerId.

Definition message_from (phoneNumber : string) (m : Message.t) : bool :=
  (Message.from_number m =? phoneNumber)%string.

(** The customer row of a given id. *)
Definition customer_by_id (d : Database) (customerId : Z) : option Customer.t :=
  find (fun c => Customer.id c =? customerId) (customers d).

(** The customer id a phone number resolves to. *)
Definition customer_id_of (d : Database) (phoneNumber : string) : option Z :=
  option_map Customer.id (find (by_phone phoneNumber) (customers d)).

(** ** Following a session through a run *)

(** The session [k] of customer [c], started at [st], is in the table and is
    either active or was closed at some time between [st + 30 min] and [t]. *)
Definition tracked (k c st t : Z) (d : Database) : Prop :=
  exists s, In s (chat_sessions d) /\ ChatSession.id s = k /\
    ChatSession.customer_id s = c /\ ChatSession.session_start s = st /\
    (ChatSession.is_active s = true \/
     (ChatSession.is_active s = false /\
      exists e, ChatSession.session_end s = Some e /\ st + THIRTY_MINUTES <= e <= t)).

(** After the second message, session [k] is closed: inactive, with an end
    time after [now1] and no later than [now2]; the end time is [now2] when
    the session was still active just before the second message. *)
Definition closed_after (d2 d3 : Database) (k now1 now2 : Z) : Prop :=
  exists s e,
    session_of d3 k = Some s /\
    ChatSession.is_active s = false /\
    ChatSession.session_end s = Some e /\
    now1 < e <= now2 /\
    (forall s2, session_of d2 k = Some s2 -> ChatSession.is_active s2 = true -> e = now2).

(** ** Sample runs *)

Definition MINUTE : Z := 60 * 1000.

Definition sample_message (wahaMessageId : string) (seconds : Z) : WahaMessagePayload.t :=
  WahaMessagePayload.mk wahaMessageId seconds "6281234567890@c.us" (Some false) None
                        (Some "halo") None None (Some "Budi").

Definition store_a : Database :=
  apply_event 0 (EvMessage (sample_message "A" 0)) empty_db.

Definition store_b : Database :=
  apply_event (20 * MINUTE) (EvMessage (sample_message "B" 1200)) store_a.

Definition store_c : Database :=
  apply_event (40 * MINUTE) (EvMessage (sample_message "C" 2400)) store_b.

(** ** Status updates *)


(** Every column other than [status] and [updated_at] agrees. *)
Definition same_message_content (m m' : Message.t) : Prop :=
  Message.id m' = Message.id m /\
  Message.customer_id m' = Message.customer_id m /\
  Message.session_id m' = Message.session_id m /\
  Message.waha_message_id m' = Message.waha_message_id m /\
  Message.chat_id m' = Message.chat_id m /\
  Message.from_number m' = Message.from_number m /\
  Message.to_number m' = Message.to_number m /\
  Message.message_body m' = Message.message_body m /\
  Message.timestamp m' = Message.timestamp m /\
  Message.is_from_me m' = Message.is_from_me m /\
  Message.reply_to m' = Message.reply_to m /\
  Message.created_at m' = Message.created_at m.




(** What [handleMessageStatus] throws when the engine rejects the statement. *)
Definition status_error (e : Error) : Error :=
  WhatsAppServiceError "Failed to update message status"
    (DatabaseServiceError "Query execution failed" e).

(** ** Average response latency, as specified *)

(** The definition in the words of the specification: over the consecutive
    pairs of the messages in timestamp order, keep the pairs where a customer
    message follows a business message, and take the mean of the elapsed
    times. *)
Fixpoint consecutive_pairs (l : list RecentMessage.t)
  : list (RecentMessage.t * RecentMessage.t) :=
  match l with
  | previous :: (current :: _) as rest => (previous, current) :: consecutive_pairs rest
  | _ => []
  end.

Definition customer_after_business (pair : RecentMessage.t * RecentMessage.t) : bool :=
  negb (truthy_flag (RecentMessage.isFromMe (snd pair)))
  && truthy_flag (RecentMessage.isFromMe (fst pair)).

Definition elapsed (pair : RecentMessage.t * RecentMessage.t) : Z :=
  RecentMessage.timestamp (snd pair) - RecentMessage.timestamp (fst pair).

(** The elapsed times of the customer-after-business pairs of a list that is
    in order. *)
Definition delays (ordered : list RecentMessage.t) : list Z :=
  map elapsed (filter customer_after_business (consecutive_pairs ordered)).

Definition response_delays (messages : list RecentMessage.t) : list Z :=
  delays (sort_by_time messages).

(** Timestamp order.  No message of the list is later than one that comes
    after it. *)
Fixpoint in_timestamp_order (l : list RecentMessage.t) : Prop :=
  match l with
  | [] => True
  | x :: r => (forall y, In y r -> RecentMessage.timestamp x <= RecentMessage.timestamp y)
              /\ in_timestamp_order r
  end.

(** The messages of one timestamp, in the order the list has them. *)
Definition at_time (t : Z) (l : list RecentMessage.t) : list RecentMessage.t :=
  filter (fun m => RecentMessage.timestamp m =? t) l.

(** [ordered] is [messages] put in timestamp order, the messages of equal
    timestamp keeping the order they have in [messages].  This fixes
    [ordered]. *)
Definition timestamp_order (messages ordered : list RecentMessage.t) : Prop :=
  in_timestamp_order ordered /\
  forall t, at_time t ordered = at_time t messages.

(** The four messages of the example: the business at [t0], the customer 30
    seconds later, the business at [t1], the customer 90 seconds later. *)
Definition two_answers (t0 t1 : Z) (b1 b2 b3 b4 : string) : list RecentMessage.t :=
  [RecentMessage.mk b1 t0 (Some true); RecentMessage.mk b2 (t0 + 30000) (Some false);
   RecentMessage.mk b3 t1 (Some true); RecentMessage.mk b4 (t1 + 90000) (Some false)].

Definition sum_Z (l : list Z) : Z := fold_right Z.add 0 l.

(** Mean of a list of milliseconds, in seconds. *)
Definition mean_seconds (l : list Z) : Q :=
  (inject_Z (sum_Z l) / inject_Z (Z.of_nat (List.length l)) / inject_Z 1000)%Q.

(** ** Classifications that can be extracted *)

(** A JSON value that carries a valid classification. *)
Definition valid_classification (v : json) (segment : string) (c : Q) : Prop :=
  get_property v "segment" = Ok (Some (JString segment)) /\
  In segment validSegments /\
  get_property v "confidence" = Ok (Some (JNumber c)) /\
  (0 <= c)%Q /\ (c <= 1)%Q.

(** Such a value can be extracted from the response: the text between the
    first opening and the last closing brace parses to it. *)
Definition extractable (JSON_parse : string -> option json) (response : string)
    (segment : string) (c : Q) : Prop :=
  exists text v,
    jsonMatch response = Some text /\ JSON_parse text = Some v /\
    valid_classification v segment c.

(** ** Days as customer, as specified *)

(** The span the specification describes: from the first to the last
    message, in whole days. *)
Definition first_to_last_days (c : Customer.t) : Z :=
  (Customer.last_message_at c - Customer.first_message_at c) / MS_PER_DAY.

(** The history read at time [now], if the read succeeds. *)
Definition history_at (n : jsnum) (now : Z) (d : Database) : option ConversationHistory :=
  match fst (getCustomerConversationHistory n now (d, [])) with
  | Ok h => Some h
  | Throw _ => None
  end.

(** ** Rows and stubs of the sample runs *)

Definition row_a : Message.t := new_message_row 1 1 (sample_message "A" 0) 0 1.

Definition row_c : Message.t :=
  new_message_row 1 2 (sample_message "C" 2400) (40 * MINUTE) 3.

Definition customer_a : Customer.t :=
  bump_customer 0 (new_customer_row "6281234567890" (sample_message "A" 0) 0 1).

(** A stand-in for [JSON.parse] that always yields one classification. *)
Definition stub_parse (text : string) : option json :=
  Some (JObject [("segment", JString "VIP_CUSTOMER"); ("confidence", JNumber (9 # 10))]).



(** Two messages of the customer of [store_a], delivered at the same time 40
    minutes after the customer's session started. *)
Definition message_p : WahaMessagePayload.t := sample_message "P" 2400.
Definition message_q : WahaMessagePayload.t := sample_message "Q" 2400.

(** The store after both, when the delivery of "Q" is overtaken by that of
    "P". *)
Definition store_race : Database :=
  snd (handleIncomingMessage_overtaken message_q (40 * MINUTE) store_a
         (snd (handleIncomingMessage message_p (40 * MINUTE) store_a))).
(** * Further properties of the code

    The definitions first: the functions of the services that are not
    defined so far, the view of [init.sql], and the vocabulary of the
    statements about them.

    Conventions, beyond those at the head of the file.
    - Where SQL leaves the order of rows open (rows of equal key under
      [ORDER BY], the groups of [GROUP BY]), the rows keep their table order;
      the statements proved do not depend on that choice.
    - A JS object used as a record is the list of its own properties, a
      [Map] the list of its entries in insertion order.
    - [getHours], which depends on the time zone of the process, and the
      clock of a batch are parameters.
    - The most active hours of the digest, which the record
      [CustomerSegmentationData] leaves out, are a function of their own;
      the common topics are not modelled. *)

(** ** More invariants of reachable stores *)

Definition message_in_session (sessionId : Z) (m : Message.t) : bool :=
  Message.session_id m =? sessionId.

(** Identities are unique, references resolve, counters agree with the
    message table, a session is open without an end or closed with one, and
    no customer or session is without a message. *)
Record consistent (t : Z) (d : Database) : Prop := mk_consistent {
  unique_customer_ids : NoDup (map Customer.id (customers d));
  unique_phone_numbers : NoDup (map Customer.phone_number (customers d));
  unique_message_ids : NoDup (map Message.id (messages d));
  unique_waha_ids : NoDup (map Message.waha_message_id (messages d));
  message_id_fresh : forall m, In m (messages d) -> Message.id m < messages_id_seq d;
  message_session_fresh : forall m, In m (messages d) ->
      Message.session_id m < chat_sessions_id_seq d;
  customer_total : forall c, In c (customers d) ->
      Customer.total_messages c =
      1 + Z.of_nat (List.length (filter (message_of_customer (Customer.id c)) (messages d)));
  session_count : forall s, In s (chat_sessions d) ->
      ChatSession.message_count s =
      Z.of_nat (List.length (filter (message_in_session (ChatSession.id s)) (messages d)));
  message_has_session : forall m, In m (messages d) ->
      exists s, In s (chat_sessions d) /\
                ChatSession.id s = Message.session_id m /\
                ChatSession.customer_id s = Message.customer_id m;
  message_has_customer : forall m, In m (messages d) ->
      exists c, In c (customers d) /\
                Customer.id c = Message.customer_id m /\
                Customer.phone_number c = Message.from_number m;
  session_has_customer : forall s, In s (chat_sessions d) ->
      exists c, In c (customers d) /\ Customer.id c = ChatSession.customer_id s;
  session_open : forall s, In s (chat_sessions d) ->
      ChatSession.is_active s = true -> ChatSession.session_end s = None;
  session_closed : forall s, In s (chat_sessions d) ->
      ChatSession.is_active s = false ->
      exists e, ChatSession.session_end s = Some e /\
                ChatSession.session_start s + THIRTY_MINUTES <= e <= t;
  customer_has_message : forall c, In c (customers d) ->
      exists m, In m (messages d) /\ Message.customer_id m = Customer.id c;
  session_has_message : forall s, In s (chat_sessions d) ->
      exists m, In m (messages d) /\ Message.session_id m = ChatSession.id s
}.

(** The four ways an event changes the store. *)
Inductive step_shape (now : Z) (d d' : Database) : Prop :=
| shape_same : same_tables d d' -> seq_le d d' -> step_shape now d d'
| shape_ingested : forall payload cust sess,
    truthy_flag (WahaMessagePayload.fromMe payload) = false ->
    existsb (has_waha_id (WahaMessagePayload.id payload)) (messages d) = false ->
    ingested payload now d d' cust sess ->
    step_shape now d d'
| shape_status : forall st wahaMessageId,
    d' = mkDatabase (customers d) (chat_sessions d)
                    (map (fun m => if has_waha_id wahaMessageId m
                                   then set_status st now m else m) (messages d))
                    (customers_id_seq d) (chat_sessions_id_seq d) (messages_id_seq d) ->
    step_shape now d d'
| shape_segment : forall seg customerId,
    d' = mkDatabase (map (fun c => if Customer.id c =? customerId
                                   then set_segment seg now c else c) (customers d))
                    (chat_sessions d) (messages d)
                    (customers_id_seq d) (chat_sessions_id_seq d) (messages_id_seq d) ->
    step_shape now d d'.

(** ** Values that the columns take

    Of the widths of the [VARCHAR(n)] columns the model checks that of
    [messages.status] only, and it checks no range of [TIMESTAMP] or
    [INTEGER].  A statement below that needs a write to succeed is about
    values that the columns take. *)

(** The text is stored as it is in a [VARCHAR(n)] column: it has at most [n]
    characters, none of them of code 0. *)
Definition fits (n : nat) (s : string) : Prop := varchar n s = Ok s.

Definition fits_if_given (n : nat) (s : option string) : Prop :=
  match s with
  | Some text => fits n text
  | None => True
  end.

(** The range of an [INTEGER] column or parameter and of a [SERIAL]
    sequence. *)
Definition INTEGER_MAX : Z := 2147483647.

Definition in_INTEGER (z : Z) : Prop := - INTEGER_MAX - 1 <= z <= INTEGER_MAX.

(** The seconds since the epoch of an instant of the years 1970 to 9998,
    which [Date] and [TIMESTAMP] both hold, whatever the time zone. *)
Definition in_TIMESTAMP (seconds : Z) : Prop := 0 <= seconds < 253370764800.

(** Every column takes what an ingestion of the payload writes into it. *)
Definition storable (payload : WahaMessagePayload.t) : Prop :=
  fits 20 (extractPhoneNumber (WahaMessagePayload.from payload)) /\
  fits_if_given 255 (or_null (WahaMessagePayload.notifyName payload)) /\
  fits 255 (WahaMessagePayload.id payload) /\
  fits 255 (WahaMessagePayload.from payload) /\
  fits_if_given 20 (match or_null (WahaMessagePayload.to payload) with
                    | Some t => Some (extractPhoneNumber t)
                    | None => None
                    end) /\
  match or_else (WahaMessagePayload.body payload)
                (or_null (WahaMessagePayload.caption payload)) with
  | Some text => text_parameter text = Ok text
  | None => True
  end /\
  fits_if_given 255 (or_null (WahaMessagePayload.replyTo payload)) /\
  in_TIMESTAMP (WahaMessagePayload.timestamp payload).

(** The sequences have a value left in the range of [INTEGER], and so has
    every counter. *)
Definition has_room (d : Database) : Prop :=
  customers_id_seq d <= INTEGER_MAX /\
  chat_sessions_id_seq d <= INTEGER_MAX /\
  messages_id_seq d <= INTEGER_MAX /\
  (forall c, In c (customers d) -> Customer.total_messages c < INTEGER_MAX) /\
  (forall s, In s (chat_sessions d) -> ChatSession.message_count s < INTEGER_MAX).

(** ** More sample runs *)

Definition store_d : Database :=
  apply_event (50 * MINUTE) (EvMessage (sample_message "D" 3000)) store_c.

(** The first session of [store_c], closed by message "C". *)
Definition closed_session_c : ChatSession.t :=
  ChatSession.mk 1 1 0 (Some (40 * MINUTE)) 2 false 0 (40 * MINUTE).

(** ** Sorting and counting, as the queries and the digest do *)

(** [ORDER BY key DESC], and JS [sort((a, b) => key(b) - key(a))]: descending
    and stable.  SQL leaves the order of rows of equal key open; here they
    keep the order they had. *)
Fixpoint insert_desc {A} (key : A -> Z) (x : A) (l : list A) : list A :=
  match l with
  | [] => [x]
  | y :: r => if key y <=? key x then x :: y :: r else y :: insert_desc key x r
  end.

Definition sort_desc {A} (key : A -> Z) (l : list A) : list A :=
  fold_right (insert_desc key) [] l.

(** No later element has a greater key. *)
Fixpoint descending {A} (key : A -> Z) (l : list A) : Prop :=
  match l with
  | [] => True
  | x :: r => (forall y, In y r -> key y <= key x) /\ descending key r
  end.

(** ** Customers due for segmentation ([getCustomersForSegmentation]) *)

Definition SEVEN_DAYS : Z := 7 * 24 * 60 * 60 * 1000.

(** [(segment IS NULL OR segment_updated_at < NOW() - INTERVAL '7 days')
    AND total_messages >= 3]; a comparison with [NULL] is not true. *)
Definition needs_segmentation (now : Z) (c : Customer.t) : bool :=
  match Customer.segment c with
  | None => true
  | Some _ =>
      match Customer.segment_updated_at c with
      | Some updated => updated <? now - SEVEN_DAYS
      | None => false
      end
  end && (3 <=? Customer.total_messages c).

(** A JS number bound to [LIMIT $1], a [bigint]: the driver sends its decimal
    text, which for 1e21 and above has an exponent. *)
Definition bigint_parameter (n : jsnum) : Result Z :=
  match n with
  | Finite q =>
      if Qnum q mod Zpos (Qden q) =? 0 then
        let z := Qnum q / Zpos (Qden q) in
        if (- 2 ^ 63 <=? z) && (z <? 2 ^ 63) then Ok z
        else if Z.abs z <? 10 ^ 21
             then Throw (PgError "value out of range for type bigint")
             else Throw (PgError "invalid input syntax for type bigint")
      else Throw (PgError "invalid input syntax for type bigint")
  | _ => Throw (PgError "invalid input syntax for type bigint")
  end.

(** [SELECT * FROM customers WHERE ... ORDER BY last_message_at DESC LIMIT $1] *)
Definition select_customers_for_segmentation (limit : jsnum) (now : Z)
  : M (list Customer.t) := fun d =>
  match bigint_parameter limit with
  | Throw e => (Throw e, d)
  | Ok n =>
      if n <? 0 then (Throw (PgError "LIMIT must not be negative"), d)
      else (Ok (firstn (Z.to_nat n)
                  (sort_desc Customer.last_message_at
                     (filter (needs_segmentation now) (customers d)))), d)
  end.

(** [WhatsAppService.getCustomersForSegmentation(limit = 50)]; [None] is an
    omitted argument. *)
Definition getCustomersForSegmentation (limit : option jsnum) (now : Z)
  : M (list Customer.t) :=
  catch
    (query (select_customers_for_segmentation
              (match limit with Some n => n | None => Finite 50 end) now))
    (fun error =>
       throw (WhatsAppServiceError "Failed to retrieve customers for segmentation" error)).

(** ** Segment statistics ([getSegmentationStats]) *)

(** One more row in the group of [seg]. *)
Fixpoint count_segment (seg : string) (groups : list (string * Z)) : list (string * Z) :=
  match groups with
  | [] => [(seg, 1)]
  | (s, n) :: r =>
      if (s =? seg)%string then (s, n + 1) :: r else (s, n) :: count_segment seg r
  end.

(** The groups after one more row of the table; [WHERE segment IS NOT NULL]
    drops the rows without a segment. *)
Definition tally (groups : list (string * Z)) (c : Customer.t) : list (string * Z) :=
  match Customer.segment c with
  | Some s => count_segment s groups
  | None => groups
  end.

(** [SELECT segment, COUNT( * ) as count FROM customers
    WHERE segment IS NOT NULL GROUP BY segment ORDER BY count DESC]; groups
    of equal count in the order of their first rows. *)
Definition select_segment_counts : M (list (string * Z)) := fun d =>
  (Ok (sort_desc snd (fold_left tally (customers d) [])), d).

(** A [Record<string, number>] as the list of its own properties.  (The order
    in which JS enumerates them is not modelled.) *)
Definition Record_string_number : Type := list (string * Z).

Fixpoint set_property (key : string) (value : Z) (acc : Record_string_number)
  : Record_string_number :=
  match acc with
  | [] => [(key, value)]
  | (k, v) :: r =>
      if (k =? key)%string then (k, value) :: r else (k, v) :: set_property key value r
  end.

(** [acc[key] = value] with a number: an own property, except for the key
    [__proto__], where the assignment of a number does nothing. *)
Definition assign (key : string) (value : Z) (acc : Record_string_number)
  : Record_string_number :=
  if (key =? "__proto__")%string then acc else set_property key value acc.

Fixpoint own_property (key : string) (acc : Record_string_number) : option Z :=
  match acc with
  | [] => None
  | (k, v) :: r => if (k =? key)%string then Some v else own_property key r
  end.

(** [LLMService.getSegmentationStats] *)
Definition getSegmentationStats : M Record_string_number :=
  catch
    (rows <- query select_segment_counts ;;
     ret (fold_left (fun acc row => assign (fst row) (snd row) acc) rows []))
    (fun error =>
       throw (LLMServiceError "Failed to retrieve segmentation statistics" error)).

(** Whether a customer carries the label [seg]. *)
Definition labelled (seg : string) (c : Customer.t) : bool :=
  match Customer.segment c with
  | Some s => (s =? seg)%string
  | None => false
  end.

(** ** The most active hours of the digest ([formatCustomerDataForAnalysis]) *)

Section ActiveHours.

(** [new Date(timestamp).getHours()]: the hour of the day in the time zone of
    the process. *)
Variable getHours : Z -> nat.

(** [acc[hour] = (acc[hour] || 0) + 1]; the keys are integers, which JS
    enumerates in ascending order. *)
Fixpoint count_hour (hour : nat) (acc : list (nat * Z)) : list (nat * Z) :=
  match acc with
  | [] => [(hour, 1)]
  | (h, n) :: r =>
      if (h =? hour)%nat then (h, n + 1) :: r
      else if (hour <? h)%nat then (hour, 1) :: (h, n) :: r
      else (h, n) :: count_hour hour r
  end.

Definition messagesByHour (messages : list RecentMessage.t) : list (nat * Z) :=
  fold_left (fun acc msg => count_hour (getHours (RecentMessage.timestamp msg)) acc)
            messages [].

(** [Object.entries(messagesByHour).sort(([,a], [,b]) => b - a).slice(0, 3)
    .map(([hour]) => parseInt(hour))] *)
Definition mostActiveHours (messages : list RecentMessage.t) : list nat :=
  map fst (firstn 3 (sort_desc snd (messagesByHour messages))).

(** The number of messages sent in a given hour of the day. *)
Definition messages_in_hour (hour : nat) (messages : list RecentMessage.t) : Z :=
  Z.of_nat (List.length
              (filter (fun msg => (getHours (RecentMessage.timestamp msg) =? hour)%nat)
                      messages)).

End ActiveHours.

(** The messages counted for [hour] in the entries. *)
Fixpoint hour_count (hour : nat) (acc : list (nat * Z)) : Z :=
  match acc with
  | [] => 0
  | (h, n) :: r => (if (h =? hour)%nat then n else 0) + hour_count hour r
  end.

(** The entries come by ascending hour, each hour once. *)
Fixpoint ascending_hours (acc : list (nat * Z)) : Prop :=
  match acc with
  | [] => True
  | (h, _) :: r => (forall k, In k (map fst r) -> (h < k)%nat) /\ ascending_hours r
  end.

(** ** Segmentation in batches ([batchSegmentCustomers]) *)

(** JS [SameValueZero], the equality of [Map] keys. *)
Definition same_value_zero (a b : jsnum) : bool :=
  match a, b with
  | NaN, NaN => true
  | Infinity x, Infinity y => Bool.eqb x y
  | Finite p, Finite q => Qeq_bool p q
  | _, _ => false
  end.

(** A [Map<number, SegmentationResult>] as the list of its entries in
    insertion order. *)
Definition SegmentationMap : Type := list (jsnum * SegmentationResult).

(** [results.set(key, value)]: an entry that exists keeps its place. *)
Fixpoint Map_set (key : jsnum) (value : SegmentationResult) (results : SegmentationMap)
  : SegmentationMap :=
  match results with
  | [] => [(key, value)]
  | (k, v) :: r =>
      if same_value_zero k key then (k, value) :: r else (k, v) :: Map_set key value r
  end.

Fixpoint Map_get (key : jsnum) (results : SegmentationMap) : option SegmentationResult :=
  match results with
  | [] => None
  | (k, v) :: r => if same_value_zero k key then Some v else Map_get key r
  end.

Section Batch.

Variable JSON_parse : string -> option json.
Variable createSegmentationPrompt : CustomerSegmentationData -> string.
Variable callAnthropicAPI : string -> Result string.

(** The time at which the [i]-th customer of the batch is processed. *)
Variable clock : nat -> Z.

(** The [for] loop of [batchSegmentCustomers], from the [i]-th id on: a
    failure is logged and the loop goes on. *)
Fixpoint batch_loop (customerIds : list jsnum) (i : nat) (results : SegmentationMap)
    (w : Database * list Query) : SegmentationMap * (Database * list Query) :=
  match customerIds with
  | [] => (results, w)
  | customerId :: rest =>
      match LLMService_segmentCustomer JSON_parse createSegmentationPrompt
                                       callAnthropicAPI customerId (clock i) w with
      | (Ok result, w') => batch_loop rest (S i) (Map_set customerId result results) w'
      | (Throw _, w') => batch_loop rest (S i) results w'
      end
  end.

(** [LLMService.batchSegmentCustomers] *)
Definition batchSegmentCustomers (customerIds : list jsnum)
  : Database * list Query -> SegmentationMap * (Database * list Query) :=
  batch_loop customerIds 0 [].

End Batch.

(** The ids looked up in the customers table, in the order of the calls. *)
Definition lookups (log : list Query) : list jsnum :=
  flat_map (fun q => match q with
                     | SelectCustomerById n => [n]
                     | _ => []
                     end) log.

(** The customer of [store_b], after two messages. *)
Definition customer_b : Customer.t :=
  Customer.mk 1 "6281234567890" (Some "Budi") 0 (20 * MINUTE) 3 None None 0 (20 * MINUTE).

(** A question of the business and the customer's answer thirty seconds
    later. *)
Definition sample_exchange : list RecentMessage.t :=
  [RecentMessage.mk "ada yang bisa dibantu?" 0 (Some true);
   RecentMessage.mk "mau tanya harga" 30000 (Some false)].

(** The history of the customer of [store_b]. *)
Definition history_b : ConversationHistory :=
  mkConversationHistory 1 "6281234567890" (Some "Budi") 3 0 (20 * MINUTE) 1 (2 # 1) 0
    [RecentMessage.mk "halo" (20 * MINUTE) (Some false);
     RecentMessage.mk "halo" 0 (Some false)].

(** What an entry of the batch's result says about a store: the label is
    one of the seven, the confidence is in range, the key is the id of a
    customer of the store, and every row of that id carries the label. *)
Definition labelled_in (d : Database) (key : jsnum) (result : SegmentationResult) : Prop :=
  In (result_segment result) validSegments /\
  (0 <= confidence result)%Q /\ (confidence result <= 1)%Q /\
  exists z, integer_parameter key = Ok z /\
    (exists c, In c (customers d) /\ Customer.id c = z) /\
    forall c, In c (customers d) -> Customer.id c = z ->
              Customer.segment c = Some (result_segment result).

(** ** Times of the rows *)

(** Messages were created in the past and within the window of their
    session; a customer's first message time and creation time are those of
    its first message row, and its last message time is the creation time of
    its latest message row. *)
Record timeline (t : Z) (d : Database) : Prop := mk_timeline {
  created_before : forall m, In m (messages d) -> Message.created_at m <= t;
  within_window : forall m s, In m (messages d) -> In s (chat_sessions d) ->
      ChatSession.id s = Message.session_id m ->
      ChatSession.session_start s <= Message.created_at m
        < ChatSession.session_start s + THIRTY_MINUTES;
  first_message : forall c, In c (customers d) ->
      exists m, find (message_of_customer (Customer.id c)) (messages d) = Some m /\
                Message.timestamp m = Customer.first_message_at c /\
                Message.created_at m = Customer.created_at c;
  last_message : forall c, In c (customers d) ->
      (exists m, In m (messages d) /\ Message.customer_id m = Customer.id c /\
                 Message.created_at m = Customer.last_message_at c) /\
      (forall m, In m (messages d) -> Message.customer_id m = Customer.id c ->
                 Message.created_at m <= Customer.last_message_at c)
}.

(** The second message of [store_b] and the session that holds it. *)
Definition row_b : Message.t :=
  new_message_row 1 1 (sample_message "B" 1200) (20 * MINUTE) 2.

Definition session_b : ChatSession.t :=
  ChatSession.mk 1 1 0 None 2 true 0 (20 * MINUTE).

(** ** The view [customer_analytics] of [init.sql] *)

Module CustomerAnalytics.
Record t : Type := mk {
  id : Z;
  phone_number : string;
  name : option string;
  segment : option string;
  total_messages : Z;
  first_message_at : Z;
  last_message_at : Z;
  total_sessions : Z;
  active_sessions : Z;
  avg_messages_per_session : option Q;
  days_as_customer : Q
}.
End CustomerAnalytics.

(** [COUNT(DISTINCT x)] *)
Definition count_distinct (l : list Z) : Z :=
  Z.of_nat (List.length (nodup Z.eq_dec l)).

(** The row of one customer: the customer joined to its sessions
    ([LEFT JOIN chat_sessions cs ON c.id = cs.customer_id]) and grouped; the
    group key starts with the primary key, so there is one row per customer.
    [AVG] over no session is [NULL]; the days are the seconds between the
    first and the last message time divided by 86400, not rounded.  The
    average and the days are the exact quotients, of which the engine
    returns a rounding. *)
Definition analytics_row (d : Database) (c : Customer.t) : CustomerAnalytics.t :=
  let joined := filter (session_of_customer (Customer.id c)) (chat_sessions d) in
  CustomerAnalytics.mk
    (Customer.id c) (Customer.phone_number c) (Customer.name c) (Customer.segment c)
    (Customer.total_messages c) (Customer.first_message_at c) (Customer.last_message_at c)
    (count_distinct (map ChatSession.id joined))
    (count_distinct (map ChatSession.id (filter ChatSession.is_active joined)))
    (match joined with
     | [] => None
     | _ => Some (inject_Z (sum_Z (map ChatSession.message_count joined))
                  / inject_Z (Z.of_nat (List.length joined)))%Q
     end)
    (inject_Z (Customer.last_message_at c - Customer.first_message_at c)
     / inject_Z (1000 * 86400))%Q.

Definition customer_analytics (d : Database) : list CustomerAnalytics.t :=
  map (analytics_row d) (customers d).

(** A first message of another number. *)
Definition other_message : WahaMessagePayload.t :=
  WahaMessagePayload.mk "O" 1500 "6289876543210@c.us" (Some false) None
                        (Some "selamat siang") None None None.

(** ** One ingestion, case by case *)

Lemma filter_nil_existsb {A} (f : A -> bool) (l : list A) :
  filter f l = [] -> existsb f l = false.
Proof.
  induction l as [|a l IH]; simpl; auto.
  destruct (f a); simpl; auto. discriminate.
Qed.

Lemma latest_session_none l : latest_session l = None -> l = [].
Proof.
  destruct l as [|s r]; auto. simpl.
  destruct (latest_session r) as [s'|]; [|discriminate].
  destruct (_ <=? _); discriminate.
Qed.

Lemma latest_session_in l s : latest_session l = Some s -> In s l.
Proof.
  revert s. induction l as [|a r IH]; simpl; intros s H; [discriminate|].
  destruct (latest_session r) as [s'|].
  - destruct (_ <=? _); inversion H; subst; auto.
  - inversion H; auto.
Qed.

Lemma findOrCreateCustomer_cases phoneNumber payload now d :
  exists cust l' seq',
    customer_step phoneNumber payload now (customers d) (customers_id_seq d) cust l' seq' /\
    findOrCreateCustomer phoneNumber payload now d =
      (Ok cust, mkDatabase l' (chat_sessions d) (messages d) seq'
                           (chat_sessions_id_seq d) (messages_id_seq d)).
Proof.
  unfold findOrCreateCustomer, bind, select_customers_by_phone, customer_step.
  fold (by_phone phoneNumber).
  destruct (filter (by_phone phoneNumber) (customers d)) as [|c rest] eqn:E.
  - unfold insert_customer. fold (by_phone phoneNumber).
    rewrite (filter_nil_existsb _ _ E).
    eexists _, _, _. split; [right; repeat split; reflexivity|reflexivity].
  - exists c, (customers d), (customers_id_seq d). split.
    + left. exists rest. auto.
    + unfold ret. destruct d; reflexivity.
Qed.

Lemma findOrCreateChatSession_cases customerId now d :
  exists sess l' seq',
    session_step customerId now (chat_sessions d) (chat_sessions_id_seq d) sess l' seq' /\
    findOrCreateChatSession customerId now d =
      (Ok sess, mkDatabase (customers d) l' (messages d) (customers_id_seq d)
                           seq' (messages_id_seq d)).
Proof.
  unfold findOrCreateChatSession, bind, select_fresh_session, session_step.
  destruct (latest_session (filter (fresh_active customerId now) (chat_sessions d)))
    as [s|] eqn:E.
  - exists s, (chat_sessions d), (chat_sessions_id_seq d). split; auto.
    unfold ret. destruct d; reflexivity.
  - apply latest_session_none in E. rewrite E.
    unfold close_active_sessions, insert_session; simpl.
    eexists _, _, _. split; [right; repeat split; reflexivity|reflexivity].
Qed.

Lemma customer_step_seq {phoneNumber payload now l seq cust l' seq'} :
  customer_step phoneNumber payload now l seq cust l' seq' -> seq <= seq'.
Proof. intros [(rest & _ & _ & ->)|(_ & _ & _ & ->)]; lia. Qed.

Lemma session_step_seq {customerId now l seq sess l' seq'} :
  session_step customerId now l seq sess l' seq' -> seq <= seq'.
Proof. intros [(_ & _ & ->)|(_ & _ & _ & ->)]; lia. Qed.

Lemma handleIncomingMessage_cases payload now d :
  let phoneNumber := extractPhoneNumber (WahaMessagePayload.from payload) in
  let r := handleIncomingMessage payload now d in
  ((truthy_flag (WahaMessagePayload.fromMe payload) = true \/ valid_phone phoneNumber = false) /\
   r = (Ok tt, d))
  \/ (truthy_flag (WahaMessagePayload.fromMe payload) = false /\ valid_phone phoneNumber = true /\
      existsb (has_waha_id (WahaMessagePayload.id payload)) (messages d) = true /\
      fst r = Throw duplicate_error /\ same_tables d (snd r) /\ seq_le d (snd r))
  \/ (truthy_flag (WahaMessagePayload.fromMe payload) = false /\ valid_phone phoneNumber = true /\
      existsb (has_waha_id (WahaMessagePayload.id payload)) (messages d) = false /\
      fst r = Ok tt /\ exists cust sess, ingested payload now d (snd r) cust sess).
Proof.
  intros phoneNumber r. subst r. unfold handleIncomingMessage, catch.
  destruct (truthy_flag (WahaMessagePayload.fromMe payload)) eqn:Eme.
  { left. split; auto. }
  unfold transaction, ingest. fold phoneNumber.
  destruct (valid_phone phoneNumber) eqn:Ev; simpl.
  2:{ left. split; auto. }
  right. unfold bind.
  destruct (findOrCreateCustomer_cases phoneNumber payload now d)
    as (cust & l1 & seq1 & Hc & ->).
  match goal with |- context [findOrCreateChatSession ?c ?n ?dd] =>
    destruct (findOrCreateChatSession_cases c n dd) as (sess & l2 & seq2 & Hs & ->)
  end.
  cbn [customers chat_sessions messages customers_id_seq chat_sessions_id_seq
       messages_id_seq] in Hs |- *.
  unfold saveMessage, insert_message. fold (has_waha_id (WahaMessagePayload.id payload)).
  cbn [customers chat_sessions messages customers_id_seq chat_sessions_id_seq
       messages_id_seq].
  destruct (existsb (has_waha_id (WahaMessagePayload.id payload)) (messages d)) eqn:Ed.
  - left. repeat split; auto; simpl;
      eauto using customer_step_seq, session_step_seq; lia.
  - right. repeat split; auto. exists cust, sess, l1, seq1, l2, seq2.
    repeat split; auto.
Qed.

(** ** Rows under the three [UPDATE]s *)

Lemma in_bump_sessions sessionId now l s :
  In s (bump_sessions sessionId now l) ->
  exists s0, In s0 l /\ (s = s0 \/ s = bump_session now s0).
Proof.
  unfold bump_sessions. rewrite in_map_iff. intros (s0 & E & Hin).
  exists s0. split; auto. destruct (_ =? _); auto.
Qed.

Lemma in_close_active customerId now l s :
  In s (close_active customerId now l) ->
  exists s0, In s0 l /\
    ((s = s0 /\ is_active_of customerId s0 = false) \/
     (s = close_session now s0 /\ is_active_of customerId s0 = true)).
Proof.
  unfold close_active. rewrite in_map_iff. intros (s0 & E & Hin).
  exists s0. split; auto. destruct (is_active_of customerId s0); auto.
Qed.

Lemma in_bump_customers customerId now l c :
  In c (bump_customers customerId now l) ->
  exists c0, In c0 l /\ (c = c0 \/ c = bump_customer now c0).
Proof.
  unfold bump_customers. rewrite in_map_iff. intros (c0 & E & Hin).
  exists c0. split; auto. destruct (_ =? _); auto.
Qed.

Lemma map_id_bump_sessions sessionId now l :
  map ChatSession.id (bump_sessions sessionId now l) = map ChatSession.id l.
Proof.
  unfold bump_sessions. rewrite map_map. apply map_ext.
  intros s. destruct (_ =? _); reflexivity.
Qed.

Lemma map_id_close_active customerId now l :
  map ChatSession.id (close_active customerId now l) = map ChatSession.id l.
Proof.
  unfold close_active. rewrite map_map. apply map_ext.
  intros s. destruct (is_active_of _ _); reflexivity.
Qed.

Lemma active_count_bump customerId sessionId now l :
  active_count customerId (bump_sessions sessionId now l) = active_count customerId l.
Proof.
  unfold active_count, bump_sessions.
  induction l as [|s l IH]; simpl; auto.
  assert (E : is_active_of customerId
                (if ChatSession.id s =? sessionId then bump_session now s else s)
              = is_active_of customerId s) by (destruct (_ =? _); reflexivity).
  rewrite E. destruct (is_active_of customerId s); simpl; congruence.
Qed.

Lemma active_count_close_same customerId now l :
  active_count customerId (close_active customerId now l) = 0%nat.
Proof.
  unfold active_count, close_active.
  induction l as [|s l IH]; simpl; auto.
  destruct (is_active_of customerId s) eqn:E.
  - unfold is_active_of at 1. simpl. rewrite andb_false_r. exact IH.
  - rewrite E. exact IH.
Qed.

Lemma active_count_close_other customerId c now l :
  c <> customerId ->
  active_count c (close_active customerId now l) = active_count c l.
Proof.
  intros Hne. unfold active_count, close_active.
  induction l as [|s l IH]; simpl; auto.
  assert (E : is_active_of c (if is_active_of customerId s then close_session now s else s)
              = is_active_of c s).
  { destruct (is_active_of customerId s) eqn:Ea; auto.
    unfold is_active_of in *. simpl.
    apply andb_true_iff in Ea. destruct Ea as [Ea _]. apply Z.eqb_eq in Ea.
    replace (ChatSession.customer_id s =? c) with false
      by (symmetry; apply Z.eqb_neq; lia).
    reflexivity. }
  rewrite E. destruct (is_active_of c s); simpl; congruence.
Qed.

Lemma active_count_app customerId l s :
  active_count customerId (l ++ [s]) =
  (active_count customerId l + (if is_active_of customerId s then 1 else 0))%nat.
Proof.
  unfold active_count. rewrite filter_app, length_app. simpl.
  destruct (is_active_of customerId s); reflexivity.
Qed.

Lemma length_le_1_eq {A} (l : list A) a b :
  (List.length l <= 1)%nat -> In a l -> In b l -> a = b.
Proof.
  destruct l as [|x [|y l]]; simpl; intros H Ha Hb; try lia; try tauto.
  destruct Ha as [<-|[]], Hb as [<-|[]]. reflexivity.
Qed.

(** With at most one active session per customer, two active rows of one
    customer are the same row. *)
Lemma active_unique customerId l s s' :
  (active_count customerId l <= 1)%nat ->
  In s l -> In s' l ->
  is_active_of customerId s = true -> is_active_of customerId s' = true ->
  s = s'.
Proof.
  intros H Hs Hs' Ha Ha'.
  apply (length_le_1_eq (filter (is_active_of customerId) l)); auto;
    apply filter_In; auto.
Qed.

Lemma fresh_active_is_active customerId now s :
  fresh_active customerId now s = true -> is_active_of customerId s = true.
Proof.
  unfold fresh_active, is_active_of. intros H.
  apply andb_true_iff in H. tauto.
Qed.

(** The session table after the session lookup and the counter update still
    has at most one active session per customer. *)
Lemma session_step_one_active customerId now l seq sess l' seq' sessionId c :
  session_step customerId now l seq sess l' seq' ->
  (forall c0, (active_count c0 l <= 1)%nat) ->
  (active_count c (bump_sessions sessionId now l') <= 1)%nat.
Proof.
  intros Hs H. rewrite active_count_bump.
  destruct Hs as [(_ & -> & _)|(_ & -> & -> & _)]; auto.
  rewrite active_count_app.
  destruct (Z.eq_dec c customerId) as [->|Hne].
  - rewrite active_count_close_same. destruct (is_active_of _ _); lia.
  - rewrite active_count_close_other by exact Hne.
    unfold is_active_of, new_session_row; simpl.
    replace (customerId =? c) with false by (symmetry; apply Z.eqb_neq; lia).
    simpl. specialize (H c). lia.
Qed.

(** ** Invariants of reachable stores *)

Lemma wf_empty t : wf t empty_db.
Proof.
  constructor; simpl; try (intros ? []).
  - intros c. unfold active_count. simpl. lia.
  - constructor.
Qed.

Lemma wf_same_tables t t' d d' :
  wf t d -> t <= t' -> same_tables d d' -> seq_le d d' -> wf t' d'.
Proof.
  intros [H1 H2 H3 H4 H5 H6 H7 H8 H9] Ht (Ec & Es & Em) (Lc & Ls & Lm).
  constructor; unfold at_most_one_active; rewrite ?Ec, ?Es, ?Em; auto.
  - intros s Hs. specialize (H2 s Hs). lia.
  - intros s Hs. specialize (H4 s Hs). lia.
  - intros c Hc. specialize (H5 c Hc). lia.
  - intros s Hs. specialize (H6 s Hs). lia.
  - intros m Hm. specialize (H7 m Hm). lia.
Qed.

Lemma customer_step_found {phoneNumber payload now l seq cust l' seq'} :
  customer_step phoneNumber payload now l seq cust l' seq' ->
  In cust l' /\ Customer.phone_number cust = phoneNumber /\
  (In cust l \/ Customer.id cust = seq /\ seq' = seq + 1) /\
  (forall c, In c l -> In c l') /\
  (forall c, In c l' -> In c l \/ c = cust).
Proof.
  intros [(rest & E & -> & ->)|(E & -> & -> & ->)].
  - assert (Hin : In cust (filter (by_phone phoneNumber) l)) by (rewrite E; left; auto).
    apply filter_In in Hin. destruct Hin as [Hin Hp].
    apply String.eqb_eq in Hp. repeat split; auto.
  - repeat split; simpl; auto.
    + apply in_or_app. right. left. reflexivity.
    + intros c Hc. apply in_or_app. auto.
    + intros c Hc. apply in_app_or in Hc. destruct Hc as [|[<-|[]]]; auto.
Qed.

Lemma in_bump_customers_keep customerId now l c :
  In c l ->
  exists c', In c' (bump_customers customerId now l) /\
             Customer.phone_number c' = Customer.phone_number c /\
             Customer.id c' = Customer.id c.
Proof.
  intros Hin. unfold bump_customers.
  exists (if Customer.id c =? customerId then bump_customer now c else c).
  split; [apply in_map_iff; eauto|].
  destruct (_ =? _); auto.
Qed.

Lemma session_step_rows {customerId now l seq sess l' seq' s} :
  session_step customerId now l seq sess l' seq' ->
  In s l' ->
  (exists s0, In s0 l /\ ChatSession.id s = ChatSession.id s0 /\
              ChatSession.customer_id s = ChatSession.customer_id s0 /\
              ChatSession.session_start s = ChatSession.session_start s0)
  \/ (s = new_session_row customerId now seq /\ seq' = seq + 1).
Proof.
  intros [(_ & -> & _)|(_ & -> & -> & ->)] Hin.
  - left. exists s. auto.
  - apply in_app_or in Hin. destruct Hin as [Hin|[<-|[]]]; auto.
    left. apply in_close_active in Hin.
    destruct Hin as (s0 & Hin & [[-> _]|[-> _]]); exists s0; auto.
Qed.

Lemma session_step_nodup customerId now l seq sess l' seq' :
  session_step customerId now l seq sess l' seq' ->
  (forall s, In s l -> ChatSession.id s < seq) ->
  NoDup (map ChatSession.id l) -> NoDup (map ChatSession.id l').
Proof.
  intros [(_ & -> & _)|(_ & -> & -> & _)] Hlt Hnd; auto.
  rewrite map_app, map_id_close_active. simpl.
  apply NoDup_app; auto.
  - constructor; [intros []|constructor].
  - intros x Hx [<-|[]]. apply in_map_iff in Hx. destruct Hx as (s & E & Hs).
    specialize (Hlt s Hs). lia.
Qed.

Lemma wf_ingested t payload now d d' cust sess :
  wf t d -> t <= now -> truthy_flag (WahaMessagePayload.fromMe payload) = false ->
  ingested payload now d d' cust sess -> wf now d'.
Proof.
  intros [H1 H2 H3 H4 H5 H6 H7 H8 H9] Ht Hme (l1 & seq1 & l2 & seq2 & Hc & Hs & ->).
  pose proof (customer_step_found Hc) as (Hcin & Hph & Hcid & Hsub & Hsup).
  pose proof (customer_step_seq Hc) as Hcseq.
  pose proof (session_step_seq Hs) as Hsseq.
  assert (Hcust : Customer.id cust < seq1).
  { destruct Hcid as [Hin|[-> ->]]; [specialize (H5 _ Hin)|]; lia. }
  constructor; simpl.
  - intros c. eapply session_step_one_active; eauto.
  - intros s Hin. apply in_bump_sessions in Hin.
    destruct Hin as (s0 & Hin & Hs0).
    assert (ChatSession.id s = ChatSession.id s0) as -> by (destruct Hs0; subst; auto).
    destruct (session_step_rows Hs Hin) as [(s1 & Hin1 & -> & _)|[-> ->]].
    + specialize (H2 _ Hin1). lia.
    + simpl. lia.
  - rewrite map_id_bump_sessions. eapply session_step_nodup; eauto.
  - intros s Hin. apply in_bump_sessions in Hin.
    destruct Hin as (s0 & Hin & Hs0).
    assert (ChatSession.session_start s = ChatSession.session_start s0) as ->
        by (destruct Hs0; subst; auto).
    destruct (session_step_rows Hs Hin) as [(s1 & Hin1 & _ & _ & ->)|[-> _]].
    + specialize (H4 _ Hin1). lia.
    + simpl. lia.
  - intros c Hin. apply in_bump_customers in Hin.
    destruct Hin as (c0 & Hin & Hc0).
    assert (Customer.id c = Customer.id c0) as -> by (destruct Hc0; subst; auto).
    destruct (Hsup _ Hin) as [Hin0| ->]; auto.
    specialize (H5 _ Hin0). lia.
  - intros s Hin. apply in_bump_sessions in Hin.
    destruct Hin as (s0 & Hin & Hs0).
    assert (ChatSession.customer_id s = ChatSession.customer_id s0) as ->
        by (destruct Hs0; subst; auto).
    destruct (session_step_rows Hs Hin) as [(s1 & Hin1 & _ & -> & _)|[-> _]].
    + specialize (H6 _ Hin1). lia.
    + simpl. lia.
  - intros m Hin. apply in_app_or in Hin. destruct Hin as [Hin|[<-|[]]].
    + specialize (H7 _ Hin). lia.
    + simpl. lia.
  - intros m Hin. apply in_app_or in Hin. destruct Hin as [Hin|[<-|[]]].
    + destruct (H8 _ Hin) as (c & Hcin0 & Hcph).
      destruct (in_bump_customers_keep (Customer.id cust) now l1 c (Hsub _ Hcin0))
        as (c' & Hin' & Hph' & _).
      exists c'. split; auto. congruence.
    + destruct (in_bump_customers_keep (Customer.id cust) now l1 cust Hcin)
        as (c' & Hin' & Hph' & _).
      exists c'. split; auto. simpl. congruence.
  - intros m Hin. apply in_app_or in Hin. destruct Hin as [Hin|[<-|[]]]; auto.
Qed.

Lemma no_row_counted {A} (p : A -> bool) (l : list A) :
  (List.length (filter p l) =? 0)%nat = negb (existsb p l).
Proof.
  induction l as [|a l IH]; simpl; auto.
  destruct (p a); simpl; auto.
Qed.

(** A status update: rejected with the store untouched, or applied to the
    rows of the id. *)
Lemma handleMessageStatus_cases payload now d :
  (exists e,
      status_parameters (WahaMessageStatusPayload.status payload)
                        (WahaMessageStatusPayload.id payload) = Throw e /\
      handleMessageStatus payload now d = (Throw (status_error e), d))
  \/ (exists stored,
      status_parameters (WahaMessageStatusPayload.status payload)
                        (WahaMessageStatusPayload.id payload) = Ok stored /\
      handleMessageStatus payload now d =
      (Ok (if existsb (has_waha_id (WahaMessageStatusPayload.id payload)) (messages d)
           then LogDebug "Message status updated"
           else LogWarn "Message not found for status update"),
       mkDatabase (customers d) (chat_sessions d)
                  (map (fun m => if has_waha_id (WahaMessageStatusPayload.id payload) m
                                 then set_status stored now m else m)
                       (messages d))
                  (customers_id_seq d) (chat_sessions_id_seq d) (messages_id_seq d))).
Proof.
  unfold handleMessageStatus, catch, bind, query, update_message_status, ret, throw,
    status_error.
  destruct (status_parameters _ _) as [stored|e].
  - right. exists stored. split; [reflexivity|].
    rewrite no_row_counted. destruct (existsb _ _); reflexivity.
  - left. exists e. split; reflexivity.
Qed.

(** The store after a status update. *)
Lemma handleMessageStatus_store payload now d :
  snd (handleMessageStatus payload now d) = d
  \/ exists stored,
      snd (handleMessageStatus payload now d) =
      mkDatabase (customers d) (chat_sessions d)
                 (map (fun m => if has_waha_id (WahaMessageStatusPayload.id payload) m
                                then set_status stored now m else m)
                      (messages d))
                 (customers_id_seq d) (chat_sessions_id_seq d) (messages_id_seq d).
Proof.
  destruct (handleMessageStatus_cases payload now d) as [(e & _ & ->)|(stored & _ & ->)].
  - left. reflexivity.
  - right. exists stored. reflexivity.
Qed.

Lemma wf_apply_event t t' e d :
  wf t d -> t <= t' -> wf t' (apply_event t' e d).
Proof.
  intros Hwf Ht. destruct e as [payload|payload|customerId seg]; simpl.
  - destruct (handleIncomingMessage_cases payload t' d)
      as [[_ ->]|[(_ & _ & _ & _ & Hsame & Hseq)|(Hme & _ & _ & _ & cust & sess & Hing)]].
    + simpl. eapply wf_same_tables; eauto; repeat split; auto; lia.
    + eapply wf_same_tables; eauto.
    + eapply wf_ingested; eauto.
  - destruct (handleMessageStatus_store payload t' d) as [->|(stored & ->)].
    { eapply wf_same_tables; eauto; repeat split; auto; lia. }
    destruct Hwf as [H1 H2 H3 H4 H5 H6 H7 H8 H9].
    constructor; simpl; auto.
    + intros s Hs. specialize (H4 s Hs). lia.
    + intros m Hm. apply in_map_iff in Hm. destruct Hm as (m0 & <- & Hm).
      specialize (H7 m0 Hm). destruct (has_waha_id _ m0); auto.
    + intros m Hm. apply in_map_iff in Hm. destruct Hm as (m0 & <- & Hm).
      destruct (H8 m0 Hm) as (c & Hc & Hp). exists c. split; auto.
      destruct (has_waha_id _ m0); auto.
    + intros m Hm. apply in_map_iff in Hm. destruct Hm as (m0 & <- & Hm).
      specialize (H9 m0 Hm). destruct (has_waha_id _ m0); auto.
  - destruct Hwf as [H1 H2 H3 H4 H5 H6 H7 H8 H9].
    constructor; simpl; auto.
    + intros s Hs. specialize (H4 s Hs). lia.
    + intros c Hc. apply in_map_iff in Hc. destruct Hc as (c0 & <- & Hc).
      specialize (H5 c0 Hc). destruct (_ =? _); auto.
    + intros m Hm. destruct (H8 m Hm) as (c & Hc & Hp).
      exists (if Customer.id c =? customerId then set_segment seg t' c else c).
      split; [apply in_map_iff; eauto|].
      destruct (_ =? _); auto.
Qed.

Lemma evolves_wf {t d t' d'} :
  evolves t d t' d' -> wf t d -> wf t' d' /\ t <= t'.
Proof.
  induction 1 as [|t1 d1 t2 e _ IH Ht]; intros Hwf.
  - split; auto. lia.
  - destruct (IH Hwf) as [Hwf1 Hle]. split; [|lia].
    apply wf_apply_event with (t := t1); auto.
Qed.

Lemma reachable_wf {t d} : reachable t d -> wf t d.
Proof.
  intros (t0 & H). eapply evolves_wf; eauto. apply wf_empty.
Qed.

(** ** Counting rows *)

Lemma filter_none {A} (p : A -> bool) (l : list A) :
  (forall x, In x l -> p x = false) -> filter p l = [].
Proof.
  induction l as [|a l IH]; simpl; intros H; auto.
  rewrite (H a) by auto. apply IH. intros x Hx. apply H. auto.
Qed.

Lemma filter_map_stable {A} (p : A -> bool) (f : A -> A) (l : list A) :
  (forall x, p (f x) = p x) -> filter p (map f l) = map f (filter p l).
Proof.
  intros H. induction l as [|a l IH]; simpl; auto.
  rewrite H. destruct (p a); simpl; congruence.
Qed.

Lemma filter_by_phone_bump phoneNumber customerId now l :
  filter (by_phone phoneNumber) (bump_customers customerId now l) =
  bump_customers customerId now (filter (by_phone phoneNumber) l).
Proof.
  unfold bump_customers. apply filter_map_stable.
  intros c. destruct (_ =? _); reflexivity.
Qed.

Lemma filter_customer_bump_sessions customerId sessionId now l :
  filter (session_of_customer customerId) (bump_sessions sessionId now l) =
  bump_sessions sessionId now (filter (session_of_customer customerId) l).
Proof.
  unfold bump_sessions. apply filter_map_stable.
  intros s. destruct (_ =? _); reflexivity.
Qed.

Lemma filter_customer_close_active customerId c now l :
  filter (session_of_customer customerId) (close_active c now l) =
  close_active c now (filter (session_of_customer customerId) l).
Proof.
  unfold close_active. apply filter_map_stable.
  intros s. destruct (is_active_of _ _); reflexivity.
Qed.

(** ** C9: one active session per customer *)

Lemma handleIncomingMessage_one_active payload now d :
  at_most_one_active d ->
  at_most_one_active (snd (handleIncomingMessage payload now d)).
Proof.
  intros H.
  destruct (handleIncomingMessage_cases payload now d)
    as [[_ ->]|[(_ & _ & _ & _ & (_ & Es & _) & _)|(_ & _ & _ & _ & cust & sess & Hing)]];
    auto.
  - unfold at_most_one_active. rewrite Es. exact H.
  - destruct Hing as (l1 & seq1 & l2 & seq2 & _ & Hs & ->).
    intros c. simpl. eapply session_step_one_active; eauto.
Qed.

(** *** Two deliveries of one customer at once *)

Lemma no_fresh_later customerId now1 now2 l :
  now1 <= now2 ->
  filter (fresh_active customerId now1) l = [] ->
  filter (fresh_active customerId now2) l = [].
Proof.
  intros Ht Hnone. apply filter_none. intros s Hin.
  assert (Hs : fresh_active customerId now1 s = false).
  { destruct (fresh_active customerId now1 s) eqn:E; auto.
    assert (H : In s (filter (fresh_active customerId now1) l)) by (apply filter_In; auto).
    rewrite Hnone in H. destruct H. }
  unfold fresh_active in *.
  destruct ((ChatSession.customer_id s =? customerId) && ChatSession.is_active s); auto.
  simpl in *. apply Z.ltb_ge in Hs. apply Z.ltb_ge. lia.
Qed.

(** The closing [UPDATE] of the overtaken delivery closes nothing when no
    row that it saw active is active any more. *)
Lemma close_seen_nothing seen customerId now d :
  (forall s, In s (chat_sessions d) -> is_active_of customerId s = true ->
             seen_active seen customerId s = false) ->
  close_seen seen customerId now d = (Ok tt, d).
Proof.
  intros H. unfold close_seen. f_equal.
  rewrite (map_ext_in _ (fun s => s)).
  - rewrite map_id. destruct d; reflexivity.
  - intros s Hin. destruct (is_active_of customerId s) eqn:Ea.
    + rewrite (H s Hin Ea). reflexivity.
    + rewrite andb_false_r. reflexivity.
Qed.

(** Two deliveries of a known customer who has no fresh session, the second
    overtaken by the first: both succeed, and the customer is left with two
    active sessions. *)
Lemma overtaken_two_active t d p1 p2 now1 now2 customer rest :
  reachable t d -> t <= now1 -> now1 <= now2 ->
  truthy_flag (WahaMessagePayload.fromMe p1) = false ->
  truthy_flag (WahaMessagePayload.fromMe p2) = false ->
  extractPhoneNumber (WahaMessagePayload.from p2) =
  extractPhoneNumber (WahaMessagePayload.from p1) ->
  valid_phone (extractPhoneNumber (WahaMessagePayload.from p1)) = true ->
  filter (by_phone (extractPhoneNumber (WahaMessagePayload.from p1))) (customers d)
  = customer :: rest ->
  filter (fresh_active (Customer.id customer) now1) (chat_sessions d) = [] ->
  existsb (has_waha_id (WahaMessagePayload.id p1)) (messages d) = false ->
  existsb (has_waha_id (WahaMessagePayload.id p2)) (messages d) = false ->
  WahaMessagePayload.id p1 <> WahaMessagePayload.id p2 ->
  fst (handleIncomingMessage p1 now1 d) = Ok tt /\
  fst (handleIncomingMessage_overtaken p2 now2 d
         (snd (handleIncomingMessage p1 now1 d))) = Ok tt /\
  active_count (Customer.id customer)
    (chat_sessions (snd (handleIncomingMessage_overtaken p2 now2 d
                           (snd (handleIncomingMessage p1 now1 d))))) = 2%nat.
Proof.
  intros Hreach Ht Hle Hme1 Hme2 Hphone Hvalid Hfound Hnone Hnew1 Hnew2 Hids.
  pose proof (reachable_wf Hreach) as Hwf.
  destruct (handleIncomingMessage_cases p1 now1 d)
    as [[Hskip _]|[(_ & _ & Hdup & _)|(_ & _ & _ & Hr1 & cust & sess & Hing)]].
  { destruct Hskip; congruence. }
  { congruence. }
  split; [exact Hr1|].
  destruct Hing as (l1 & seq1 & l2 & seq2 & Hc & Hs & ->).
  destruct Hc as [(rest' & E & -> & ->)|(E & _)]; [|congruence].
  rewrite Hfound in E. inversion E; subst cust rest'. clear E.
  destruct Hs as [(Hl & _)|(_ & -> & -> & ->)].
  { rewrite Hnone in Hl. discriminate. }
  cbn [ChatSession.id new_session_row].
  set (c := Customer.id customer).
  set (d1 := mkDatabase _ _ _ _ _ _).
  assert (Hclose : close_seen (chat_sessions d) c now2 d1 = (Ok tt, d1)).
  { apply close_seen_nothing. intros s Hin Ha. subst d1. cbn [chat_sessions] in Hin.
    apply in_bump_sessions in Hin. destruct Hin as (s0 & Hin & Hs0).
    assert (Hsame : ChatSession.id s = ChatSession.id s0 /\
                    is_active_of c s = is_active_of c s0)
      by (destruct Hs0; subst s; split; reflexivity).
    destruct Hsame as (Hid & Hact). rewrite Hact in Ha.
    apply in_app_or in Hin. destruct Hin as [Hin|[<-|[]]].
    - apply in_close_active in Hin.
      destruct Hin as (s00 & _ & [(-> & Hno)|(-> & _)]).
      + fold c in Hno. congruence.
      + unfold is_active_of in Ha. simpl in Ha. rewrite andb_false_r in Ha. discriminate.
    - unfold seen_active.
      destruct (existsb _ (chat_sessions d)) eqn:Ex; auto.
      apply existsb_exists in Ex. destruct Ex as (s' & Hin' & Hs').
      apply andb_true_iff in Hs'. destruct Hs' as (Hs' & _). apply Z.eqb_eq in Hs'.
      pose proof (wf_session_id _ _ Hwf _ Hin') as Hlt.
      rewrite Hid in Hs'. simpl in Hs'. lia. }
  assert (Hrun : handleIncomingMessage_overtaken p2 now2 d d1 =
                 (Ok tt,
                  mkDatabase
                    (bump_customers c now2 (customers d1))
                    (bump_sessions (chat_sessions_id_seq d1) now2
                       (chat_sessions d1 ++
                        [new_session_row c now2 (chat_sessions_id_seq d1)]))
                    (messages d1 ++
                     [new_message_row c (chat_sessions_id_seq d1) p2 now2
                                      (messages_id_seq d1)])
                    (customers_id_seq d1) (chat_sessions_id_seq d1 + 1)
                    (messages_id_seq d1 + 1))).
  { unfold handleIncomingMessage_overtaken, catch. rewrite Hme2.
    unfold transaction, overtaken. rewrite Hphone, Hvalid.
    cbn [negb]. unfold select_customers_by_phone, select_fresh_session. cbn [fst].
    fold (by_phone (extractPhoneNumber (WahaMessagePayload.from p1))).
    rewrite Hfound. unfold bind at 1. unfold ret at 1. cbv beta iota. fold c.
    rewrite (no_fresh_later c now1 now2 _ Hle Hnone). cbn [latest_session].
    unfold bind at 1. unfold bind at 1. rewrite Hclose.
    unfold insert_session.
    unfold bind at 1. unfold saveMessage, insert_message.
    fold (has_waha_id (WahaMessagePayload.id p2)).
    assert (Hfree : existsb (has_waha_id (WahaMessagePayload.id p2)) (messages d1) = false).
    { subst d1. cbn [messages]. rewrite existsb_app, Hnew2. simpl.
      rewrite orb_false_r. unfold has_waha_id. simpl. apply String.eqb_neq. exact Hids. }
    cbn [customers chat_sessions messages customers_id_seq chat_sessions_id_seq
         messages_id_seq ChatSession.id].
    rewrite Hfree. reflexivity. }
  rewrite Hrun. split; [reflexivity|]. cbn [snd chat_sessions].
  rewrite active_count_bump, active_count_app.
  subst d1. cbn [chat_sessions chat_sessions_id_seq].
  rewrite active_count_bump, active_count_app, active_count_close_same.
  unfold is_active_of, new_session_row. simpl. rewrite Z.eqb_refl. reflexivity.
Qed.

(** C9 (as the code behaves).  When deliveries are processed one after the
    other, each customer has at most one chat session with
    [is_active = true] in every store reached from the empty one, and
    [handleIncomingMessage] keeps that property from any store that has it
    (the active sessions of the customer are closed before the new one is
    inserted, in the same transaction).  It does not hold at every instant:
    the transaction takes no lock, so of two deliveries of one customer in
    flight at once, at a time when the customer has no fresh session, the
    second can look for a session before the first commits; then both
    succeed, each inserts an active session, and the customer is left with
    two. *)
Theorem one_active_session_per_customer :
  (forall t d, reachable t d -> at_most_one_active d) /\
  (forall payload now d,
      at_most_one_active d ->
      at_most_one_active (snd (handleIncomingMessage payload now d))) /\
  (forall t d p1 p2 now1 now2 customer rest,
      reachable t d -> t <= now1 -> now1 <= now2 ->
      truthy_flag (WahaMessagePayload.fromMe p1) = false ->
      truthy_flag (WahaMessagePayload.fromMe p2) = false ->
      extractPhoneNumber (WahaMessagePayload.from p2) =
      extractPhoneNumber (WahaMessagePayload.from p1) ->
      valid_phone (extractPhoneNumber (WahaMessagePayload.from p1)) = true ->
      filter (by_phone (extractPhoneNumber (WahaMessagePayload.from p1))) (customers d)
      = customer :: rest ->
      filter (fresh_active (Customer.id customer) now1) (chat_sessions d) = [] ->
      existsb (has_waha_id (WahaMessagePayload.id p1)) (messages d) = false ->
      existsb (has_waha_id (WahaMessagePayload.id p2)) (messages d) = false ->
      WahaMessagePayload.id p1 <> WahaMessagePayload.id p2 ->
      fst (handleIncomingMessage p1 now1 d) = Ok tt /\
      fst (handleIncomingMessage_overtaken p2 now2 d
             (snd (handleIncomingMessage p1 now1 d))) = Ok tt /\
      active_count (Customer.id customer)
        (chat_sessions (snd (handleIncomingMessage_overtaken p2 now2 d
                               (snd (handleIncomingMessage p1 now1 d))))) = 2%nat).
Proof.
  split; [|split].
  - intros t d H. apply reachable_wf in H. apply (wf_one_active _ _ H).
  - apply handleIncomingMessage_one_active.
  - apply overtaken_two_active.
Qed.

(** ** C2: a duplicate delivery *)

(** A transaction commits what its callback did, or, when any step of the
    callback throws, leaves every table as it was at [BEGIN]. *)
Lemma transaction_all_or_nothing {A} (callback : M A) d :
  match fst (transaction callback d) with
  | Ok _ => transaction callback d = callback d
  | Throw _ => same_tables d (snd (transaction callback d))
  end.
Proof.
  unfold transaction. destruct (callback d) as [[a|e] d']; simpl.
  - reflexivity.
  - repeat split.
Qed.

(** C2.  When a message row with the event's external id is already stored,
    [handleIncomingMessage] leaves every table as it was: each customer's
    [total_messages] and each session's [message_count] keep their value.
    For an event that passes the two guards, the insert hits the unique
    constraint and the service throws the wrapped transaction error. *)
Theorem duplicate_delivery_rolls_back payload now d :
  existsb (has_waha_id (WahaMessagePayload.id payload)) (messages d) = true ->
  let r := handleIncomingMessage payload now d in
  same_tables d (snd r) /\
  (forall customerId,
      option_map Customer.total_messages (customer_by_id (snd r) customerId) =
      option_map Customer.total_messages (customer_by_id d customerId)) /\
  (forall sessionId,
      option_map ChatSession.message_count (session_of (snd r) sessionId) =
      option_map ChatSession.message_count (session_of d sessionId)) /\
  (truthy_flag (WahaMessagePayload.fromMe payload) = false ->
   valid_phone (extractPhoneNumber (WahaMessagePayload.from payload)) = true ->
   fst r = Throw duplicate_error).
Proof.
  intros Hdup r.
  assert (Hsame : same_tables d (snd r) /\
                  (truthy_flag (WahaMessagePayload.fromMe payload) = false ->
                   valid_phone (extractPhoneNumber (WahaMessagePayload.from payload)) = true ->
                   fst r = Throw duplicate_error)).
  { subst r.
    destruct (handleIncomingMessage_cases payload now d)
      as [[Hskip ->]|[(_ & _ & _ & Hr & Hsame & _)|(_ & _ & Hnew & _)]].
    - split; [repeat split|]. simpl. intros Hme Hv. destruct Hskip; congruence.
    - split; auto.
    - congruence. }
  destruct Hsame as [(Ec & Es & Em) Hthrow].
  repeat split; auto.
  - intros customerId. unfold customer_by_id. rewrite Ec. reflexivity.
  - intros sessionId. unfold session_of. rewrite Es. reflexivity.
Qed.

(** ** C1: the first message of an unseen number *)

Lemma session_step_new_customer customerId now l seq sess l' seq' :
  session_step customerId now l seq sess l' seq' ->
  (forall s, In s l -> ChatSession.customer_id s < customerId) ->
  List.length (filter (session_of_customer customerId) l') = 1%nat.
Proof.
  intros Hs Hlt.
  assert (Hnone : filter (session_of_customer customerId) l = []).
  { apply filter_none. intros s Hin. specialize (Hlt s Hin).
    unfold session_of_customer. apply Z.eqb_neq. lia. }
  destruct Hs as [(Hl & _ & _)|(_ & -> & -> & _)].
  - apply latest_session_in in Hl. apply filter_In in Hl. destruct Hl as [Hin Hf].
    specialize (Hlt sess Hin). unfold fresh_active in Hf.
    apply andb_true_iff in Hf. destruct Hf as [Hf _].
    apply andb_true_iff in Hf. destruct Hf as [Hf _].
    apply Z.eqb_eq in Hf. lia.
  - rewrite filter_app, filter_customer_close_active, Hnone. simpl.
    unfold session_of_customer. simpl. rewrite Z.eqb_refl. reflexivity.
Qed.

(** C1 (as the code behaves).  For an inbound message from a phone number
    that no customer has yet, processed on a reachable store that does not
    hold the message id, [handleIncomingMessage] succeeds and leaves exactly
    one customer with that number, one chat session and one message of that
    customer; the customer's [total_messages] is 2: the row is inserted with
    count 1 and [updateCustomerStats] adds 1 for the same message. *)
Theorem first_message_counts_twice payload now t d :
  reachable t d ->
  truthy_flag (WahaMessagePayload.fromMe payload) = false ->
  valid_phone (extractPhoneNumber (WahaMessagePayload.from payload)) = true ->
  filter (by_phone (extractPhoneNumber (WahaMessagePayload.from payload)))
         (customers d) = [] ->
  existsb (has_waha_id (WahaMessagePayload.id payload)) (messages d) = false ->
  let phoneNumber := extractPhoneNumber (WahaMessagePayload.from payload) in
  let d' := snd (handleIncomingMessage payload now d) in
  fst (handleIncomingMessage payload now d) = Ok tt /\
  exists c,
    filter (by_phone phoneNumber) (customers d') = [c] /\
    List.length (filter (session_of_customer (Customer.id c)) (chat_sessions d')) = 1%nat /\
    List.length (filter (message_of_customer (Customer.id c)) (messages d')) = 1%nat /\
    List.length (filter (message_from phoneNumber) (messages d')) = 1%nat /\
    Customer.total_messages c = 2.
Proof.
  intros Hreach Hme Hv Hnew Hfresh phoneNumber d'. subst d'.
  apply reachable_wf in Hreach. destruct Hreach as [H1 H2 H3 H4 H5 H6 H7 H8 H9].
  destruct (handleIncomingMessage_cases payload now d)
    as [[Hskip _]|[(_ & _ & Hdup & _)|(_ & _ & _ & Hr & cust & sess & Hing)]].
  - destruct Hskip; congruence.
  - congruence.
  - split; auto.
    destruct Hing as (l1 & seq1 & l2 & seq2 & Hc & Hs & ->).
    fold phoneNumber in Hc, Hnew.
    destruct Hc as [(rest & E & _)|(_ & -> & -> & ->)]; [congruence|].
    cbn [Customer.id new_customer_row] in *.
    exists (bump_customer now (new_customer_row phoneNumber payload now (customers_id_seq d))).
    cbn [customers chat_sessions messages].
    repeat split.
    + rewrite filter_by_phone_bump, filter_app, Hnew. simpl.
      unfold by_phone at 1. simpl. rewrite String.eqb_refl. simpl.
      rewrite Z.eqb_refl. reflexivity.
    + simpl. rewrite filter_customer_bump_sessions.
      unfold bump_sessions. rewrite length_map.
      eapply session_step_new_customer; eauto.
    + simpl. rewrite filter_app, (filter_none (message_of_customer _)).
      * simpl. unfold message_of_customer. simpl. rewrite Z.eqb_refl. reflexivity.
      * intros m Hin. specialize (H7 m Hin). unfold message_of_customer.
        apply Z.eqb_neq. lia.
    + rewrite filter_app, (filter_none (message_from _)).
      * simpl. unfold message_from. simpl. rewrite String.eqb_refl. reflexivity.
      * intros m Hin. destruct (H8 m Hin) as (c & Hcin & Hph).
        unfold message_from. apply String.eqb_neq. intros Heq.
        assert (Hf : In c (filter (by_phone phoneNumber) (customers d))).
        { apply filter_In. split; auto. unfold by_phone.
          apply String.eqb_eq. congruence. }
        rewrite Hnew in Hf. destruct Hf.
Qed.

(** ** C3: stitching two messages of one number *)

Lemma find_app_last {A} (p : A -> bool) (l : list A) (x : A) :
  find p (l ++ [x]) =
  match find p l with
  | Some y => Some y
  | None => if p x then Some x else None
  end.
Proof.
  induction l as [|a l IH]; simpl; auto.
  destruct (p a); auto.
Qed.

Lemma find_map_stable {A} (p : A -> bool) (f : A -> A) (l : list A) :
  (forall x, p (f x) = p x) -> find p (map f l) = option_map f (find p l).
Proof.
  intros H. induction l as [|a l IH]; simpl; auto.
  rewrite H. destruct (p a); auto.
Qed.

Lemma filter_head_find {A} {p : A -> bool} {l : list A} {a rest} :
  filter p l = a :: rest -> find p l = Some a.
Proof.
  induction l as [|x l IH]; simpl; [discriminate|].
  destruct (p x); auto. intros E. inversion E. reflexivity.
Qed.

Lemma filter_nil_find {A} {p : A -> bool} {l : list A} :
  filter p l = [] -> find p l = None.
Proof.
  induction l as [|x l IH]; simpl; auto.
  destruct (p x); auto. discriminate.
Qed.

Lemma nodup_session_id_inj l a b :
  NoDup (map ChatSession.id l) -> In a l -> In b l ->
  ChatSession.id a = ChatSession.id b -> a = b.
Proof.
  induction l as [|x l IH]; simpl; intros Hnd Ha Hb E; [tauto|].
  inversion Hnd as [|? ? Hx Hnd']; subst.
  destruct Ha as [->|Ha], Hb as [->|Hb]; auto.
  - exfalso. apply Hx. rewrite E. apply in_map. exact Hb.
  - exfalso. apply Hx. rewrite <- E. apply in_map. exact Ha.
Qed.

Lemma session_of_in d s :
  NoDup (map ChatSession.id (chat_sessions d)) -> In s (chat_sessions d) ->
  session_of d (ChatSession.id s) = Some s.
Proof.
  intros Hnd Hin. unfold session_of.
  destruct (find (fun x => ChatSession.id x =? ChatSession.id s) (chat_sessions d))
    as [x|] eqn:E.
  - apply find_some in E. destruct E as [Hx Hid]. apply Z.eqb_eq in Hid.
    f_equal. eapply nodup_session_id_inj; eauto.
  - exfalso. apply (find_none _ _ E) in Hin. rewrite Z.eqb_refl in Hin. discriminate.
Qed.

Lemma customer_id_of_map (f : Customer.t -> Customer.t) l phoneNumber :
  (forall c, Customer.phone_number (f c) = Customer.phone_number c) ->
  (forall c, Customer.id (f c) = Customer.id c) ->
  option_map Customer.id (find (by_phone phoneNumber) (map f l)) =
  option_map Customer.id (find (by_phone phoneNumber) l).
Proof.
  intros Hp Hi. rewrite find_map_stable.
  - destruct (find _ l); simpl; auto. rewrite Hi. reflexivity.
  - intros c. unfold by_phone. rewrite Hp. reflexivity.
Qed.

Lemma customer_id_of_bump customerId now l phoneNumber :
  option_map Customer.id (find (by_phone phoneNumber) (bump_customers customerId now l)) =
  option_map Customer.id (find (by_phone phoneNumber) l).
Proof.
  unfold bump_customers. apply customer_id_of_map; intros c; destruct (_ =? _); auto.
Qed.

Lemma ingested_customer_id {payload now d d' cust sess} :
  ingested payload now d d' cust sess ->
  customer_id_of d' (extractPhoneNumber (WahaMessagePayload.from payload))
  = Some (Customer.id cust).
Proof.
  intros (l1 & seq1 & l2 & seq2 & Hc & _ & ->).
  unfold customer_id_of. simpl. rewrite customer_id_of_bump.
  destruct Hc as [(rest & E & -> & _)|(E & Hrow & -> & _)].
  - rewrite (filter_head_find E). reflexivity.
  - rewrite find_app_last, (filter_nil_find E).
    unfold by_phone at 1. rewrite Hrow at 1. simpl. rewrite String.eqb_refl.
    reflexivity.
Qed.

Lemma ingested_customer_found {payload now d d' cust sess c} :
  ingested payload now d d' cust sess ->
  customer_id_of d (extractPhoneNumber (WahaMessagePayload.from payload)) = Some c ->
  Customer.id cust = c.
Proof.
  intros (l1 & seq1 & l2 & seq2 & Hc & _ & _) Hk. unfold customer_id_of in Hk.
  destruct Hc as [(rest & E & _)|(E & _)].
  - rewrite (filter_head_find E) in Hk. simpl in Hk. congruence.
  - rewrite (filter_nil_find E) in Hk. discriminate.
Qed.

Lemma customer_id_of_apply_event now e d phoneNumber c :
  customer_id_of d phoneNumber = Some c ->
  customer_id_of (apply_event now e d) phoneNumber = Some c.
Proof.
  intros Hk. destruct e as [payload|payload|customerId seg]; simpl; auto.
  2:{ destruct (handleMessageStatus_store payload now d) as [->|(stored & ->)]; exact Hk. }
  - destruct (handleIncomingMessage_cases payload now d)
      as [[_ ->]|[(_ & _ & _ & _ & (Ec & _) & _)|(_ & _ & _ & _ & cust & sess & Hing)]];
      auto.
    + unfold customer_id_of. rewrite Ec. exact Hk.
    + destruct Hing as (l1 & seq1 & l2 & seq2 & Hc & _ & ->).
      unfold customer_id_of in *. simpl. rewrite customer_id_of_bump.
      destruct Hc as [(rest & _ & -> & _)|(_ & _ & -> & _)]; auto.
      rewrite find_app_last. destruct (find _ (customers d)); [auto|discriminate].
  - unfold customer_id_of in *. simpl. rewrite customer_id_of_map; auto;
      intros c0; destruct (_ =? _); auto.
Qed.

Lemma message_of_ingested {payload now d d' cust sess} :
  ingested payload now d d' cust sess ->
  message_of d (WahaMessagePayload.id payload) = None ->
  message_of d' (WahaMessagePayload.id payload) =
  Some (new_message_row (Customer.id cust) (ChatSession.id sess) payload now
                        (messages_id_seq d)).
Proof.
  intros (l1 & seq1 & l2 & seq2 & _ & _ & ->) Hnone.
  unfold message_of in *. simpl. rewrite find_app_last, Hnone.
  unfold has_waha_id at 1. simpl. rewrite String.eqb_refl. reflexivity.
Qed.

(** A message row that appears with an ingestion was stored by it. *)
Lemma stored_by_ingestion {payload now d m} :
  message_of d (WahaMessagePayload.id payload) = None ->
  message_of (apply_event now (EvMessage payload) d) (WahaMessagePayload.id payload)
  = Some m ->
  exists cust sess,
    ingested payload now d (apply_event now (EvMessage payload) d) cust sess /\
    truthy_flag (WahaMessagePayload.fromMe payload) = false /\
    Message.session_id m = ChatSession.id sess /\
    Message.customer_id m = Customer.id cust.
Proof.
  intros Hnone Hsome. simpl in *.
  destruct (handleIncomingMessage_cases payload now d)
    as [[_ E]|[(_ & _ & _ & _ & (_ & _ & Em) & _)|(Hme & _ & _ & _ & cust & sess & Hing)]].
  - rewrite E in Hsome. simpl in Hsome. congruence.
  - unfold message_of in *. rewrite Em in Hsome. congruence.
  - exists cust, sess. rewrite (message_of_ingested Hing Hnone) in Hsome.
    inversion Hsome; subst. simpl. auto.
Qed.

Lemma filter_nil_in {A} {p : A -> bool} {l : list A} {x} :
  filter p l = [] -> In x l -> p x = false.
Proof.
  intros E Hin. destruct (p x) eqn:Ep; auto.
  assert (H : In x (filter p l)) by (apply filter_In; auto).
  rewrite E in H. destruct H.
Qed.

Lemma not_fresh_expired customerId now s :
  fresh_active customerId now s = false -> is_active_of customerId s = true ->
  ChatSession.session_start s + THIRTY_MINUTES <= now.
Proof.
  unfold fresh_active, is_active_of. intros Hf Ha.
  apply andb_true_iff in Ha. destruct Ha as [Hc Ha].
  rewrite Hc, Ha in Hf. simpl in Hf. apply Z.ltb_ge in Hf. lia.
Qed.

(** How one event changes a session row: identity, owner and start stay;
    the row stays open or closed as it was, or it is closed at the
    processing time, which is then at least 30 minutes after its start. *)
Lemma session_row_apply_event now e d s :
  In s (chat_sessions d) ->
  exists s', In s' (chat_sessions (apply_event now e d)) /\
    ChatSession.id s' = ChatSession.id s /\
    ChatSession.customer_id s' = ChatSession.customer_id s /\
    ChatSession.session_start s' = ChatSession.session_start s /\
    ((ChatSession.is_active s' = ChatSession.is_active s /\
      ChatSession.session_end s' = ChatSession.session_end s) \/
     (ChatSession.is_active s = true /\ ChatSession.is_active s' = false /\
      ChatSession.session_end s' = Some now /\
      ChatSession.session_start s + THIRTY_MINUTES <= now)).
Proof.
  intros Hin.
  assert (Hsame : chat_sessions (apply_event now e d) = chat_sessions d ->
                  exists s', In s' (chat_sessions (apply_event now e d)) /\
    ChatSession.id s' = ChatSession.id s /\
    ChatSession.customer_id s' = ChatSession.customer_id s /\
    ChatSession.session_start s' = ChatSession.session_start s /\
    ((ChatSession.is_active s' = ChatSession.is_active s /\
      ChatSession.session_end s' = ChatSession.session_end s) \/
     (ChatSession.is_active s = true /\ ChatSession.is_active s' = false /\
      ChatSession.session_end s' = Some now /\
      ChatSession.session_start s + THIRTY_MINUTES <= now))).
  { intros E. exists s. rewrite E.
    split; [exact Hin|]. do 3 (split; [reflexivity|]). left. split; reflexivity. }
  destruct e as [payload|payload|customerId seg];
    [|apply Hsame; simpl;
      try (destruct (handleMessageStatus_store payload now d) as [->|(stored & ->)]);
      reflexivity ..].
  simpl in *.
  destruct (handleIncomingMessage_cases payload now d)
    as [[_ E]|[(_ & _ & _ & _ & (_ & Es & _) & _)|(_ & _ & _ & _ & cust & sess & Hing)]].
  - apply Hsame. rewrite E. reflexivity.
  - apply Hsame. exact Es.
  - clear Hsame. destruct Hing as (l1 & seq1 & l2 & seq2 & _ & Hs & ->). simpl.
    destruct Hs as [(_ & -> & _)|(Hnone & _ & -> & _)].
    + exists (if ChatSession.id s =? ChatSession.id sess then bump_session now s else s).
      split; [unfold bump_sessions; apply in_map_iff; eauto|].
      destruct (_ =? _); simpl; auto 10.
    + set (s1 := if is_active_of (Customer.id cust) s then close_session now s else s).
      exists (if ChatSession.id s1 =? ChatSession.id sess then bump_session now s1 else s1).
      split.
      { unfold bump_sessions. apply in_map_iff. exists s1. split; auto.
        apply in_or_app. left. unfold close_active. apply in_map_iff.
        exists s. split; [reflexivity|exact Hin]. }
      assert (H1 : ChatSession.id s1 = ChatSession.id s /\
                   ChatSession.customer_id s1 = ChatSession.customer_id s /\
                   ChatSession.session_start s1 = ChatSession.session_start s /\
                   ((ChatSession.is_active s1 = ChatSession.is_active s /\
                     ChatSession.session_end s1 = ChatSession.session_end s) \/
                    (ChatSession.is_active s = true /\ ChatSession.is_active s1 = false /\
                     ChatSession.session_end s1 = Some now /\
                     ChatSession.session_start s + THIRTY_MINUTES <= now))).
      { subst s1. destruct (is_active_of (Customer.id cust) s) eqn:Ea; auto 10.
        simpl. repeat split; auto. right. repeat split; auto.
        - unfold is_active_of in Ea. apply andb_true_iff in Ea. tauto.
        - eapply not_fresh_expired; eauto. apply (filter_nil_in Hnone Hin). }
      destruct (_ =? _); simpl; exact H1.
Qed.

Lemma tracked_apply_event k c st t t' e d :
  tracked k c st t d -> t <= t' -> tracked k c st t' (apply_event t' e d).
Proof.
  intros (s & Hin & Hk & Hc & Hst & Hstate) Ht.
  destruct (session_row_apply_event t' e d s Hin)
    as (s' & Hin' & Hk' & Hc' & Hst' & Hstate').
  exists s'. repeat split; try congruence.
  destruct Hstate' as [[Ea Ee]|(_ & Ea & Ee & Hexp)].
  - rewrite Ea, Ee. destruct Hstate as [|(Ha & e0 & He0 & Hb)]; auto.
    right. split; auto. exists e0. split; auto. lia.
  - right. split; auto. exists t'. split; auto. lia.
Qed.

Lemma tracked_evolves {k c st t d t' d'} :
  evolves t d t' d' -> tracked k c st t d -> tracked k c st t' d'.
Proof.
  induction 1 as [|t1 d1 t2 e _ IH Ht]; intros Htr; auto.
  apply tracked_apply_event with (t := t1); auto.
Qed.

Lemma customer_id_of_evolves {t d t' d' phoneNumber c} :
  evolves t d t' d' -> customer_id_of d phoneNumber = Some c ->
  customer_id_of d' phoneNumber = Some c.
Proof.
  induction 1 as [|t1 d1 t2 e _ IH Ht]; intros Hk; auto.
  apply customer_id_of_apply_event; auto.
Qed.

(** The session an ingestion stores its message in: a row of the new table,
    active, owned by the customer, started within the last 30 minutes. *)
Lemma ingested_session {payload now t d d' cust sess} :
  wf t d -> t <= now -> ingested payload now d d' cust sess ->
  In (bump_session now sess) (chat_sessions d') /\
  ChatSession.is_active sess = true /\
  ChatSession.customer_id sess = Customer.id cust /\
  now - THIRTY_MINUTES < ChatSession.session_start sess <= now /\
  (In sess (chat_sessions d) \/ ChatSession.session_start sess = now).
Proof.
  intros Hwf Ht (l1 & seq1 & l2 & seq2 & _ & Hs & ->). simpl.
  assert (Hin : In sess l2 /\ ChatSession.is_active sess = true /\
                ChatSession.customer_id sess = Customer.id cust /\
                now - THIRTY_MINUTES < ChatSession.session_start sess <= now /\
                (In sess (chat_sessions d) \/ ChatSession.session_start sess = now)).
  { destruct Hs as [(Hl & -> & _)|(_ & -> & -> & _)].
    - apply latest_session_in in Hl. apply filter_In in Hl. destruct Hl as [Hin Hf].
      pose proof (wf_session_start _ _ Hwf _ Hin) as Hstart.
      unfold fresh_active in Hf.
      apply andb_true_iff in Hf. destruct Hf as [Hf Hlt].
      apply andb_true_iff in Hf. destruct Hf as [Hc Ha].
      apply Z.eqb_eq in Hc. apply Z.ltb_lt in Hlt.
      repeat split; auto; lia.
    - simpl. repeat split; auto; try (unfold THIRTY_MINUTES; lia).
      apply in_or_app. right. left. reflexivity. }
  destruct Hin as (Hin & Ha & Hc & Hst & Hold). repeat split; auto; try lia.
  unfold bump_sessions. apply in_map_iff. exists sess.
  rewrite Z.eqb_refl. auto.
Qed.

Lemma stitch_same_session t c now2 d2 sess l2 seq2 s :
  wf t d2 ->
  session_step c now2 (chat_sessions d2) (chat_sessions_id_seq d2) sess l2 seq2 ->
  In s (chat_sessions d2) -> ChatSession.customer_id s = c ->
  ChatSession.is_active s = true ->
  now2 - THIRTY_MINUTES < ChatSession.session_start s ->
  ChatSession.id sess = ChatSession.id s.
Proof.
  intros Hwf Hs Hin Hc Ha Hfresh.
  assert (Hf : fresh_active c now2 s = true).
  { unfold fresh_active. rewrite Ha, Hc, Z.eqb_refl. simpl. apply Z.ltb_lt. lia. }
  destruct Hs as [(Hl & _)|(Hnone & _)].
  - apply latest_session_in in Hl. apply filter_In in Hl. destruct Hl as [Hin2 Hf2].
    f_equal. eapply active_unique; eauto using fresh_active_is_active.
    apply (wf_one_active _ _ Hwf).
  - rewrite (filter_nil_in Hnone Hin) in Hf. discriminate.
Qed.

Lemma stitch_new_session t t3 c now1 now2 d2 d3 sess l2 seq2 s sid :
  wf t d2 -> wf t3 d3 -> t <= now2 ->
  session_step c now2 (chat_sessions d2) (chat_sessions_id_seq d2) sess l2 seq2 ->
  chat_sessions d3 = bump_sessions (ChatSession.id sess) now2 l2 ->
  In s (chat_sessions d2) -> ChatSession.customer_id s = c ->
  now1 - THIRTY_MINUTES < ChatSession.session_start s ->
  ChatSession.session_start s + THIRTY_MINUTES <= now2 ->
  (ChatSession.is_active s = true \/
   (ChatSession.is_active s = false /\
    exists e, ChatSession.session_end s = Some e /\
              ChatSession.session_start s + THIRTY_MINUTES <= e <= t)) ->
  sid = ChatSession.id sess ->
  sid <> ChatSession.id s /\ closed_after d2 d3 (ChatSession.id s) now1 now2.
Proof.
  intros Hwf Hwf3 Ht Hs Ed3 Hin Hc Hlo Hexp Hstate ->.
  assert (Hf : fresh_active c now2 s = false).
  { unfold fresh_active. replace (now2 - THIRTY_MINUTES <? ChatSession.session_start s)
      with false by (symmetry; apply Z.ltb_ge; lia).
    apply andb_false_r. }
  assert (Hof2 : session_of d2 (ChatSession.id s) = Some s)
    by (apply session_of_in; auto; apply (wf_session_nodup _ _ Hwf)).
  pose proof (wf_session_nodup _ _ Hwf3) as Hnd3.
  destruct Hs as [(Hl & -> & _)|(Hnone & -> & -> & _)].
  - apply latest_session_in in Hl. apply filter_In in Hl. destruct Hl as [Hin2 Hf2].
    assert (Hne : ChatSession.id sess <> ChatSession.id s).
    { intros E. assert (sess = s)
        by (apply (nodup_session_id_inj (chat_sessions d2)); auto;
            apply (wf_session_nodup _ _ Hwf)).
      congruence. }
    split; auto.
    destruct Hstate as [Ha|(Ha & e & He & Hb)].
    { exfalso. apply Hne. f_equal.
      apply (active_unique c (chat_sessions d2)); auto.
      - apply (wf_one_active _ _ Hwf).
      - apply fresh_active_is_active with (now := now2); auto.
      - unfold is_active_of. rewrite Hc, Z.eqb_refl, Ha. reflexivity. }
    assert (Hin3 : In s (chat_sessions d3)).
    { rewrite Ed3. unfold bump_sessions. apply in_map_iff. exists s. split; auto.
      replace (ChatSession.id s =? ChatSession.id sess) with false; auto.
      symmetry. apply Z.eqb_neq. auto. }
    exists s, e. repeat split; auto; try lia.
    + apply session_of_in; auto.
    + intros s2 E2 Ha2. congruence.
  - pose proof (wf_session_id _ _ Hwf _ Hin) as Hlt.
    cbn [ChatSession.id new_session_row] in *.
    split; [lia|].
    set (s1 := if is_active_of c s then close_session now2 s else s).
    assert (Hin3 : In s1 (chat_sessions d3)).
    { rewrite Ed3. unfold bump_sessions. apply in_map_iff. exists s1. split.
      - replace (ChatSession.id s1 =? chat_sessions_id_seq d2) with false; auto.
        symmetry. apply Z.eqb_neq. subst s1. destruct (is_active_of c s); simpl; lia.
      - apply in_or_app. left. unfold close_active. apply in_map_iff.
        exists s. split; [reflexivity|exact Hin]. }
    assert (Hid : ChatSession.id s1 = ChatSession.id s)
      by (subst s1; destruct (is_active_of c s); reflexivity).
    assert (Hof3 : session_of d3 (ChatSession.id s) = Some s1)
      by (rewrite <- Hid; apply session_of_in; auto).
    assert (Hact : is_active_of c s = ChatSession.is_active s)
      by (unfold is_active_of; rewrite Hc, Z.eqb_refl; reflexivity).
    destruct Hstate as [Ha|(Ha & e & He & Hb)].
    + exists s1, now2. subst s1. rewrite Hact, Ha in *. simpl.
      repeat split; auto; lia.
    + exists s1, e. subst s1. rewrite Hact, Ha in *.
      repeat split; auto; try lia.
      intros s2 E2 Ha2. congruence.
Qed.

(** C3 (amended).  Deliveries are processed one after the other.  Two
    inbound messages of one phone number, the first processed at [now1] on a
    reachable store, the second at [now2] after any further events.  The
    first message is stored in an active session [s1]
    that started within the 30 minutes before [now1], at [now1] when the
    message opened it.  If the second message is processed less than 30
    minutes after the start of [s1], both message rows carry the same
    session id.  If it is processed 30 minutes or more after the start of
    [s1], in particular whenever the two messages are more than 30 minutes
    apart, the rows carry different session ids and [s1] ends inactive with
    a [session_end] that is a processing time: later than [now1], at most
    [now2], and equal to [now2] when the second message is the one that
    closes it (otherwise an earlier message of the customer has closed
    it). *)
Theorem session_stitching t0 d0 p1 now1 t2 d2 p2 now2 m1 m2 :
  reachable t0 d0 -> t0 <= now1 ->
  evolves now1 (apply_event now1 (EvMessage p1) d0) t2 d2 -> t2 <= now2 ->
  extractPhoneNumber (WahaMessagePayload.from p1) =
  extractPhoneNumber (WahaMessagePayload.from p2) ->
  message_of d0 (WahaMessagePayload.id p1) = None ->
  message_of (apply_event now1 (EvMessage p1) d0) (WahaMessagePayload.id p1) = Some m1 ->
  message_of d2 (WahaMessagePayload.id p2) = None ->
  message_of (apply_event now2 (EvMessage p2) d2) (WahaMessagePayload.id p2) = Some m2 ->
  exists s1,
    session_of (apply_event now1 (EvMessage p1) d0) (Message.session_id m1) = Some s1 /\
    ChatSession.is_active s1 = true /\
    now1 - THIRTY_MINUTES < ChatSession.session_start s1 <= now1 /\
    (session_of d0 (Message.session_id m1) = None ->
     ChatSession.session_start s1 = now1) /\
    (now2 - THIRTY_MINUTES < ChatSession.session_start s1 ->
     Message.session_id m2 = Message.session_id m1) /\
    (ChatSession.session_start s1 + THIRTY_MINUTES <= now2 ->
     Message.session_id m2 <> Message.session_id m1 /\
     closed_after d2 (apply_event now2 (EvMessage p2) d2) (Message.session_id m1) now1 now2) /\
    (now1 + THIRTY_MINUTES < now2 ->
     Message.session_id m2 <> Message.session_id m1 /\
     closed_after d2 (apply_event now2 (EvMessage p2) d2) (Message.session_id m1) now1 now2).
Proof.
  intros Hreach Ht0 Hev Ht2 Hphone Hnew1 Hm1 Hnew2 Hm2.
  pose proof (reachable_wf Hreach) as Hwf0.
  assert (Hwf1 : wf now1 (apply_event now1 (EvMessage p1) d0))
    by (apply wf_apply_event with (t := t0); auto).
  destruct (evolves_wf Hev Hwf1) as [Hwf2 Hle12].
  assert (Hwf3 : wf now2 (apply_event now2 (EvMessage p2) d2))
    by (apply wf_apply_event with (t := t2); auto).
  destruct (stored_by_ingestion Hnew1 Hm1) as (cust1 & sess1 & Hing1 & _ & Hsid1 & _).
  destruct (stored_by_ingestion Hnew2 Hm2) as (cust2 & sess2 & Hing2 & _ & Hsid2 & _).
  destruct (ingested_session Hwf0 Ht0 Hing1) as (Hin1 & Ha1 & Hc1 & Hst1 & Hold1).
  pose proof (ingested_customer_id Hing1) as Hk1.
  pose proof (customer_id_of_evolves Hev Hk1) as Hk2. rewrite Hphone in Hk2.
  pose proof (ingested_customer_found Hing2 Hk2) as Hcust.
  assert (Htr1 : tracked (ChatSession.id sess1) (Customer.id cust1)
                         (ChatSession.session_start sess1) now1
                         (apply_event now1 (EvMessage p1) d0)).
  { exists (bump_session now1 sess1). simpl. repeat split; auto. }
  pose proof (tracked_evolves Hev Htr1) as (s & Hin & Hk & Hc & Hst & Hstate).
  remember (apply_event now2 (EvMessage p2) d2) as d3 eqn:Ed3.
  destruct Hing2 as (l1 & seq1 & l2 & seq2 & _ & Hs2 & Ed3').
  rewrite Hcust in Hs2.
  assert (Es3 : chat_sessions d3 = bump_sessions (ChatSession.id sess2) now2 l2)
    by (rewrite Ed3'; reflexivity).
  exists (bump_session now1 sess1).
  assert (Hclosed : ChatSession.session_start sess1 + THIRTY_MINUTES <= now2 ->
            Message.session_id m2 <> Message.session_id m1 /\
            closed_after d2 d3 (Message.session_id m1) now1 now2).
  { intros Hexp. rewrite Hsid1, <- Hk.
    eapply stitch_new_session with (t := t2) (c := Customer.id cust1); eauto;
      try lia; rewrite Hst; auto. }
  split; [|split; [|split; [|split; [|split; [|split]]]]]; simpl; auto.
  - rewrite Hsid1.
    apply (session_of_in (apply_event now1 (EvMessage p1) d0) (bump_session now1 sess1));
      auto. apply (wf_session_nodup _ _ Hwf1).
  - intros Hnone. destruct Hold1 as [Hold1|Hold1]; auto.
    rewrite Hsid1, (session_of_in d0 sess1) in Hnone; auto; [discriminate|].
    apply (wf_session_nodup _ _ Hwf0).
  - intros Hfresh. rewrite Hsid1, Hsid2, <- Hk.
    apply (stitch_same_session t2 (Customer.id cust1) now2 d2 sess2 l2 seq2 s);
      auto; try lia.
    destruct Hstate as [Ha|(_ & e & _ & Hb)]; auto. lia.
  - intros Hapart. apply Hclosed. lia.
Qed.

(** ** Sample runs and the failure of C3 as stated *)

Lemma reachable_empty t : reachable t empty_db.
Proof. exists t. constructor. Qed.

Lemma reachable_step t t' e d :
  reachable t d -> t <= t' -> reachable t' (apply_event t' e d).
Proof. intros (t0 & H) Ht. exists t0. econstructor; eauto. Qed.

Lemma reachable_store_a : reachable 0 store_a.
Proof. apply reachable_step with (t := 0); [apply reachable_empty|lia]. Qed.

Lemma reachable_store_b : reachable (20 * MINUTE) store_b.
Proof.
  apply reachable_step with (t := 0); [apply reachable_store_a|unfold MINUTE; lia].
Qed.

(** C3, as stated, fails: messages "B" and "C" of one number are processed 20
    minutes apart, yet "C" arrives 40 minutes after the start of the session
    that holds "B" (opened by "A"), so it is stored in a new session.  It
    fails also for two deliveries in flight at once: "P" and "Q", processed
    at the same minute with the delivery of "Q" overtaken by that of "P",
    are stored in two sessions. *)
Lemma stitching_counterexample :
  reachable 0 store_a /\
  extractPhoneNumber (WahaMessagePayload.from (sample_message "B" 1200)) =
  extractPhoneNumber (WahaMessagePayload.from (sample_message "C" 2400)) /\
  40 * MINUTE - 20 * MINUTE < THIRTY_MINUTES /\
  message_of store_a "B" = None /\
  message_of store_b "C" = None /\
  option_map Message.session_id (message_of store_b "B") = Some 1 /\
  option_map Message.session_id (message_of store_c "C") = Some 2 /\
  option_map Message.session_id (message_of store_race "P") = Some 2 /\
  option_map Message.session_id (message_of store_race "Q") = Some 3.
Proof.
  split; [apply reachable_store_a|]. vm_compute. repeat split; discriminate.
Qed.

(** ** C8: status updates *)


Lemma existsb_false_filter {A} (p : A -> bool) (l : list A) :
  existsb p l = false -> filter p l = [].
Proof.
  induction l as [|a l IH]; simpl; auto.
  intros H. apply orb_false_iff in H. destruct H as [Ha Hl].
  rewrite Ha. auto.
Qed.





(** ** C5: average response latency *)

Lemma response_loop_spec rest : forall previous total count,
  response_loop previous rest total count =
  (total + sum_Z (map elapsed (filter customer_after_business
                                      (consecutive_pairs (previous :: rest)))),
   count + Z.of_nat (List.length (filter customer_after_business
                                         (consecutive_pairs (previous :: rest))))).
Proof.
  induction rest as [|current rest IH]; intros previous total count.
  - unfold sum_Z. simpl. f_equal; lia.
  - cbn [response_loop]. rewrite !IH.
    change (consecutive_pairs (previous :: current :: rest))
      with ((previous, current) :: consecutive_pairs (current :: rest)).
    set (F := filter customer_after_business (consecutive_pairs (current :: rest))).
    cbn [filter]. fold F.
    assert (Ec : customer_after_business (previous, current) =
                 negb (truthy_flag (RecentMessage.isFromMe current))
                 && truthy_flag (RecentMessage.isFromMe previous))
      by reflexivity.
    assert (Ee : elapsed (previous, current) =
                 RecentMessage.timestamp current - RecentMessage.timestamp previous)
      by reflexivity.
    rewrite Ec.
    destruct (negb (truthy_flag (RecentMessage.isFromMe current))
              && truthy_flag (RecentMessage.isFromMe previous)).
    + cbn [map List.length]. rewrite Nat2Z.inj_succ.
      change (sum_Z (elapsed (previous, current) :: map elapsed F))
        with (elapsed (previous, current) + sum_Z (map elapsed F)).
      rewrite Ee. f_equal; lia.
    + reflexivity.
Qed.

Lemma calculateAverageResponseTime_spec messages :
  calculateAverageResponseTime messages =
  match response_delays messages with
  | [] => 0%Q
  | delays => mean_seconds delays
  end.
Proof.
  unfold calculateAverageResponseTime, response_delays, delays.
  destruct (List.length messages <? 2)%nat eqn:Elen.
  - apply Nat.ltb_lt in Elen.
    destruct messages as [|a [|b l]]; simpl in *; try reflexivity; lia.
  - apply Nat.ltb_ge in Elen.
    destruct (sort_by_time messages) as [|first rest] eqn:Es.
    + reflexivity.
    + rewrite response_loop_spec, !Z.add_0_l.
      remember (filter customer_after_business (consecutive_pairs (first :: rest)))
        as pairs eqn:Ep.
      destruct pairs as [|p ps].
      * reflexivity.
      * replace (0 <? Z.of_nat (List.length (p :: ps))) with true
          by (symmetry; apply Z.ltb_lt; simpl List.length; lia).
        cbn [map]. unfold mean_seconds. cbn [List.length]. rewrite length_map.
        reflexivity.
Qed.

(** *** The sort puts the messages in timestamp order *)

Lemma insert_by_time_in m l x : In x (insert_by_time m l) -> x = m \/ In x l.
Proof.
  induction l as [|y r IH]; simpl.
  - intros [<-|[]]. auto.
  - destruct (_ <=? _); simpl.
    + intros [<-|[<-|H]]; auto.
    + intros [<-|H]; auto. destruct (IH H); auto.
Qed.

Lemma sort_by_time_in l x : In x (sort_by_time l) -> In x l.
Proof.
  induction l as [|y r IH]; simpl; auto.
  intros H. apply insert_by_time_in in H. destruct H as [->|H]; auto.
Qed.

Lemma insert_by_time_perm m l : Permutation (m :: l) (insert_by_time m l).
Proof.
  induction l as [|x r IH]; simpl; auto.
  destruct (_ <=? _); auto.
  apply perm_trans with (x :: m :: r); [apply perm_swap|]. auto.
Qed.

Lemma sort_by_time_perm l : Permutation l (sort_by_time l).
Proof.
  induction l as [|x r IH]; simpl; auto.
  apply perm_trans with (x :: sort_by_time r); auto.
  apply insert_by_time_perm.
Qed.

Lemma insert_by_time_order m l :
  in_timestamp_order l -> in_timestamp_order (insert_by_time m l).
Proof.
  induction l as [|x r IH]; simpl; intros Ho.
  - split; auto. intros y [].
  - destruct Ho as (Hx & Hr).
    destruct (RecentMessage.timestamp m <=? RecentMessage.timestamp x) eqn:E.
    + apply Z.leb_le in E. simpl. split; [|split; auto].
      intros y [<-|Hy]; auto. specialize (Hx y Hy). lia.
    + apply Z.leb_gt in E. simpl. split; auto.
      intros y Hy. apply insert_by_time_in in Hy. destruct Hy as [->|Hy]; auto. lia.
Qed.

Lemma sort_by_time_order l : in_timestamp_order (sort_by_time l).
Proof.
  induction l as [|x r IH]; simpl; auto using insert_by_time_order.
Qed.

Lemma at_time_insert t m l : at_time t (insert_by_time m l) = at_time t (m :: l).
Proof.
  unfold at_time. induction l as [|x r IH]; auto.
  cbn [insert_by_time].
  destruct (RecentMessage.timestamp m <=? RecentMessage.timestamp x) eqn:E; auto.
  apply Z.leb_gt in E. cbn [filter] in *. rewrite IH.
  destruct (Z.eqb_spec (RecentMessage.timestamp x) t) as [Ex|Ex];
    destruct (Z.eqb_spec (RecentMessage.timestamp m) t) as [Em|Em]; auto.
  lia.
Qed.

Lemma sort_by_time_stable t l : at_time t (sort_by_time l) = at_time t l.
Proof.
  induction l as [|x r IH]; auto.
  cbn [sort_by_time fold_right]. fold (sort_by_time r).
  rewrite at_time_insert. unfold at_time in *. cbn [filter]. rewrite IH. reflexivity.
Qed.

Lemma at_time_in t l m : In m (at_time t l) <-> In m l /\ RecentMessage.timestamp m = t.
Proof.
  unfold at_time. rewrite filter_In, Z.eqb_eq. reflexivity.
Qed.

(** Timestamp order, with the order kept among equal timestamps, leaves one
    arrangement only. *)
Lemma timestamp_order_unique l1 : forall l2,
  in_timestamp_order l1 -> in_timestamp_order l2 ->
  (forall t, at_time t l1 = at_time t l2) -> l1 = l2.
Proof.
  induction l1 as [|x r1 IH]; intros l2 H1 H2 Hsame.
  - destruct l2 as [|y r2]; auto.
    specialize (Hsame (RecentMessage.timestamp y)). unfold at_time in Hsame.
    cbn [filter] in Hsame. rewrite Z.eqb_refl in Hsame. discriminate.
  - destruct l2 as [|y r2].
    + specialize (Hsame (RecentMessage.timestamp x)). unfold at_time in Hsame.
      cbn [filter] in Hsame. rewrite Z.eqb_refl in Hsame. discriminate.
    + destruct H1 as (Hx & Hr1). destruct H2 as (Hy & Hr2).
      assert (Hyx : RecentMessage.timestamp x <= RecentMessage.timestamp y).
      { assert (Hin : In y (x :: r1)).
        { apply (at_time_in (RecentMessage.timestamp y)). rewrite Hsame.
          apply at_time_in. split; [left|]; reflexivity. }
        destruct Hin as [->|Hin]; [lia|auto]. }
      assert (Hxy : RecentMessage.timestamp y <= RecentMessage.timestamp x).
      { assert (Hin : In x (y :: r2)).
        { apply (at_time_in (RecentMessage.timestamp x)). rewrite <- Hsame.
          apply at_time_in. split; [left|]; reflexivity. }
        destruct Hin as [->|Hin]; [lia|auto]. }
      assert (E : RecentMessage.timestamp x = RecentMessage.timestamp y) by lia.
      pose proof (Hsame (RecentMessage.timestamp x)) as Hhead.
      unfold at_time in Hhead. cbn [filter] in Hhead.
      rewrite <- E, Z.eqb_refl in Hhead. injection Hhead as Ehead Etail. subst y.
      f_equal. apply IH; auto.
      intros t. specialize (Hsame t). unfold at_time in *. cbn [filter] in Hsame.
      destruct (RecentMessage.timestamp x =? t) eqn:Et.
      * injection Hsame as Hsame. exact Hsame.
      * exact Hsame.
Qed.

Lemma timestamp_order_sort messages ordered :
  timestamp_order messages ordered -> ordered = sort_by_time messages.
Proof.
  intros (Ho & Hsame). apply timestamp_order_unique; auto.
  - apply sort_by_time_order.
  - intros t. rewrite Hsame, sort_by_time_stable. reflexivity.
Qed.

Lemma filter_perm {A} (p : A -> bool) (l l' : list A) :
  Permutation l l' -> Permutation (filter p l) (filter p l').
Proof.
  induction 1 as [|x l l' _ IH|x y l|l l' l'' _ IH1 _ IH2]; simpl; auto.
  - destruct (p x); auto.
  - destruct (p x), (p y); auto. apply perm_swap.
  - apply perm_trans with (filter p l'); auto.
Qed.

Lemma two_answers_order t0 t1 b1 b2 b3 b4 messages :
  t0 + 30000 < t1 ->
  Permutation messages (two_answers t0 t1 b1 b2 b3 b4) ->
  timestamp_order messages (two_answers t0 t1 b1 b2 b3 b4).
Proof.
  intros Ht Hp. split.
  - simpl. repeat split; auto;
      intros y Hy; simpl in Hy;
      repeat (destruct Hy as [<-|Hy]; [simpl; lia|]); destruct Hy.
  - intros t. pose proof (filter_perm (fun m => RecentMessage.timestamp m =? t) _ _ Hp) as Hf.
    fold (at_time t messages) in Hf. fold (at_time t (two_answers t0 t1 b1 b2 b3 b4)) in Hf.
    assert (Hshort : (List.length (at_time t (two_answers t0 t1 b1 b2 b3 b4)) <= 1)%nat).
    { unfold at_time, two_answers. cbn [filter RecentMessage.timestamp].
      destruct (Z.eqb_spec t0 t), (Z.eqb_spec (t0 + 30000) t), (Z.eqb_spec t1 t),
        (Z.eqb_spec (t1 + 90000) t); simpl; lia. }
    apply Permutation_sym in Hf.
    destruct (at_time t (two_answers t0 t1 b1 b2 b3 b4)) as [|a [|b r]]; simpl in Hshort.
    + apply Permutation_nil in Hf. auto.
    + apply Permutation_length_1_inv in Hf. auto.
    + lia.
Qed.

(** C5.  [calculateAverageResponseTime] sorts the messages into timestamp
    order, messages of equal timestamp keeping their order, and nothing is
    lost or added.  Its result is the mean, in seconds, of the elapsed times
    over the consecutive pairs of the messages in that order in which a
    customer message follows a business message; it is 0 when there is no
    such pair, in particular for fewer than two messages.  On the four
    messages business at [t0], customer 30 s later, business at [t1],
    customer 90 s later it is 60, when they are given in this order with
    [t1] not before the first answer, and in whatever order they are given
    when [t1] is after the first answer. *)
Theorem average_response_latency :
  (forall messages,
      timestamp_order messages (sort_by_time messages) /\
      Permutation messages (sort_by_time messages)) /\
  (forall messages ordered,
      timestamp_order messages ordered ->
      (delays ordered <> [] ->
       calculateAverageResponseTime messages = mean_seconds (delays ordered)) /\
      (delays ordered = [] -> calculateAverageResponseTime messages = 0%Q)) /\
  (forall messages,
      (List.length messages < 2)%nat -> calculateAverageResponseTime messages = 0%Q) /\
  (forall t0 t1 b1 b2 b3 b4,
      t0 + 30000 <= t1 ->
      (calculateAverageResponseTime (two_answers t0 t1 b1 b2 b3 b4) == 60)%Q) /\
  (forall t0 t1 b1 b2 b3 b4 messages,
      t0 + 30000 < t1 ->
      Permutation messages (two_answers t0 t1 b1 b2 b3 b4) ->
      (calculateAverageResponseTime messages == 60)%Q).
Proof.
  assert (Hforward : forall t0 t1 b1 b2 b3 b4,
      t0 + 30000 <= t1 ->
      (calculateAverageResponseTime (two_answers t0 t1 b1 b2 b3 b4) == 60)%Q).
  { intros t0 t1 b1 b2 b3 b4 H.
    assert (L1 : (t1 <=? t1 + 90000) = true) by (apply Z.leb_le; lia).
    assert (L2 : (t0 + 30000 <=? t1) = true) by (apply Z.leb_le; lia).
    assert (L3 : (t0 <=? t0 + 30000) = true) by (apply Z.leb_le; lia).
    unfold calculateAverageResponseTime, sort_by_time, two_answers.
    cbn [List.length Nat.ltb Nat.leb fold_right insert_by_time RecentMessage.timestamp].
    rewrite L1. cbn [insert_by_time RecentMessage.timestamp].
    rewrite L2. cbn [insert_by_time RecentMessage.timestamp].
    rewrite L3.
    cbn [response_loop RecentMessage.isFromMe RecentMessage.timestamp truthy_flag negb andb].
    replace (0 + (t0 + 30000 - t0) + (t1 + 90000 - t1)) with 120000 by lia.
    reflexivity. }
  assert (Hmean : forall messages ordered,
      timestamp_order messages ordered ->
      calculateAverageResponseTime messages =
      match delays ordered with [] => 0%Q | ds => mean_seconds ds end).
  { intros messages ordered Ho. rewrite (timestamp_order_sort _ _ Ho).
    apply calculateAverageResponseTime_spec. }
  split; [|split; [|split; [|split]]].
  - intros messages. split; [split|].
    + apply sort_by_time_order.
    + intros t. apply sort_by_time_stable.
    + apply sort_by_time_perm.
  - intros messages ordered Ho. rewrite (Hmean _ _ Ho). split.
    + intros H. destruct (delays ordered); congruence.
    + intros ->. reflexivity.
  - intros messages H. unfold calculateAverageResponseTime.
    replace (List.length messages <? 2)%nat with true; auto.
    symmetry. apply Nat.ltb_lt. exact H.
  - exact Hforward.
  - intros t0 t1 b1 b2 b3 b4 messages Ht Hp.
    pose proof (two_answers_order t0 t1 b1 b2 b3 b4 messages Ht Hp) as Ho.
    rewrite (Hmean _ _ Ho).
    assert (Hself : timestamp_order (two_answers t0 t1 b1 b2 b3 b4)
                                    (two_answers t0 t1 b1 b2 b3 b4))
      by (apply two_answers_order; auto).
    rewrite <- (Hmean _ _ Hself). apply Hforward. lia.
Qed.

(** ** C4: the classifier's answer *)

Lemma includes_In l s : includes l s = true <-> In s l.
Proof.
  unfold includes. rewrite existsb_exists. split.
  - intros (x & Hx & E). apply String.eqb_eq in E. congruence.
  - intros H. exists s. split; auto. apply String.eqb_refl.
Qed.

Lemma parse_try_ok JSON_parse response result :
  parseSegmentationResponse_try JSON_parse response = Ok result ->
  extractable JSON_parse response (result_segment result) (confidence result).
Proof.
  unfold parseSegmentationResponse_try, extractable, valid_classification.
  destruct (jsonMatch response) as [text|] eqn:Em; [|discriminate].
  destruct (JSON_parse text) as [parsed|] eqn:Ep; [|discriminate].
  destruct (get_property parsed "segment") as [[[| | |segment| |]|]|] eqn:Es;
    try discriminate.
  destruct (includes validSegments segment) eqn:Ei; [|discriminate]. simpl.
  destruct (get_property parsed "confidence") as [[[| |c| | |]|]|] eqn:Ec;
    try discriminate.
  destruct (Qle_bool 0 c) eqn:E0; [|discriminate].
  destruct (Qle_bool c 1) eqn:E1; [|discriminate]. simpl.
  destruct (get_property parsed "reasoning") as [r|]; [|discriminate].
  destruct (get_property parsed "characteristics") as [chars|]; [|discriminate].
  intros H. inversion H; subst; clear H. cbn [result_segment confidence].
  exists text, parsed.
  split; [reflexivity|]. split; [exact Ep|]. split; [exact Es|].
  split; [exact (proj1 (includes_In validSegments segment) Ei)|]. split; [exact Ec|].
  split; apply Qle_bool_iff; assumption.
Qed.

Lemma parse_try_complete {JSON_parse response segment c} :
  extractable JSON_parse response segment c ->
  exists result,
    parseSegmentationResponse_try JSON_parse response = Ok result /\
    result_segment result = segment /\ confidence result = c.
Proof.
  intros (text & v & Hm & Hp & Hs & Hin & Hc & H0 & H1).
  unfold parseSegmentationResponse_try. rewrite Hm, Hp, Hs, Hc.
  apply includes_In in Hin. rewrite Hin.
  apply Qle_bool_iff in H0, H1. rewrite H0, H1. simpl.
  destruct v; simpl in Hs; try discriminate; simpl; eexists; repeat split.
Qed.

(** C4.  [parseSegmentationResponse] always returns a result.  When no
    JSON value with a segment among the seven labels and a numeric
    confidence in [0, 1] can be extracted from the response, the result is
    the fixed fallback; this is so for the text [not valid json].  Whatever
    the response, the segment returned is one of the seven labels and the
    confidence lies in [0, 1]; and a classification that can be extracted is
    the one returned. *)
Theorem parse_falls_back JSON_parse :
  (forall response,
      (forall segment c, ~ extractable JSON_parse response segment c) ->
      parseSegmentationResponse JSON_parse response = fallback_result) /\
  parseSegmentationResponse JSON_parse "not valid json" = fallback_result /\
  (forall response,
      In (result_segment (parseSegmentationResponse JSON_parse response)) validSegments /\
      (0 <= confidence (parseSegmentationResponse JSON_parse response))%Q /\
      (confidence (parseSegmentationResponse JSON_parse response) <= 1)%Q) /\
  (forall response segment c,
      extractable JSON_parse response segment c ->
      result_segment (parseSegmentationResponse JSON_parse response) = segment /\
      confidence (parseSegmentationResponse JSON_parse response) = c).
Proof.
  split; [|split; [|split]].
  - intros response Hno. unfold parseSegmentationResponse.
    destruct (parseSegmentationResponse_try JSON_parse response) as [result|e] eqn:E; auto.
    apply parse_try_ok in E. destruct (Hno _ _ E).
  - reflexivity.
  - intros response. unfold parseSegmentationResponse.
    destruct (parseSegmentationResponse_try JSON_parse response) as [result|e] eqn:E.
    + apply parse_try_ok in E.
      destruct E as (text & v & _ & _ & _ & Hin & _ & H0 & H1). auto.
    + simpl. repeat split; [tauto|discriminate|discriminate].
  - intros response segment c H.
    destruct (parse_try_complete H) as (result & E & Hs & Hc).
    unfold parseSegmentationResponse. rewrite E. auto.
Qed.

(** ** C6: days as customer *)

Lemma integer_parameter_inject z : integer_parameter (Finite (inject_Z z)) = Ok z.
Proof.
  unfold integer_parameter, inject_Z. simpl.
  rewrite Z.mod_1_r, Z.div_1_r. reflexivity.
Qed.

(** What a successful [getCustomerConversationHistory] read: three queries,
    the first row with the given id. *)
Lemma getCustomerConversationHistory_ok n now d log h w :
  getCustomerConversationHistory n now (d, log) = (Ok h, w) ->
  exists z customer rest,
    integer_parameter n = Ok z /\
    filter (fun c => Customer.id c =? z) (customers d) = customer :: rest /\
    w = (d, log ++ [SelectCustomerById n] ++ [SelectRecentMessages n]
                ++ [SelectSessionStats n]) /\
    firstMessageAt h = Customer.first_message_at customer /\
    lastMessageAt h = Customer.last_message_at customer /\
    daysAsCustomer h = (now - Customer.first_message_at customer) / MS_PER_DAY /\
    recentMessages h =
      map recent_row
          (firstn 100
             (fold_right insert_newest_first []
                (filter (fun m => (Message.customer_id m =? z) && has_body m)
                        (messages d)))).
Proof.
  unfold getCustomerConversationHistory, io_catch, io_bind, databaseService_query,
    with_integer.
  destruct (integer_parameter n) as [z|e] eqn:En; simpl.
  2:{ discriminate. }
  destruct (filter (fun c => Customer.id c =? z) (customers d)) as [|customer rest] eqn:Ef;
    simpl.
  { discriminate. }
  intros H. inversion H; subst; clear H. simpl.
  exists z, customer, rest. rewrite <- !app_assoc. simpl. repeat split; auto.
Qed.

Lemma find_some_filter {A} (p : A -> bool) (l : list A) a :
  find p l = Some a -> exists rest, filter p l = a :: rest.
Proof.
  induction l as [|x l IH]; simpl; [discriminate|].
  destruct (p x).
  - intros E. inversion E; subst. eauto.
  - exact IH.
Qed.

Lemma getCustomerConversationHistory_found customerId now d log customer :
  customer_by_id d customerId = Some customer ->
  exists h w,
    getCustomerConversationHistory (Finite (inject_Z customerId)) now (d, log) = (Ok h, w) /\
    firstMessageAt h = Customer.first_message_at customer /\
    lastMessageAt h = Customer.last_message_at customer /\
    daysAsCustomer h = (now - Customer.first_message_at customer) / MS_PER_DAY.
Proof.
  intros Hc. apply find_some_filter in Hc. destruct Hc as (rest & Hf).
  unfold getCustomerConversationHistory, io_catch, io_bind, databaseService_query,
    with_integer.
  rewrite integer_parameter_inject. simpl. rewrite Hf. simpl.
  eexists _, _. repeat split.
Qed.

(** C6, as stated, fails: two days after the only message of customer 1, the
    digest says 2 days, while first and last message are 0 days apart. *)
Lemma days_as_customer_counterexample :
  option_map first_to_last_days (customer_by_id store_a 1) = Some 0 /\
  option_map daysAsCustomer (history_at (Finite 1) (2 * MS_PER_DAY) store_a) = Some 2.
Proof. vm_compute. split; reflexivity. Qed.

(** C6 (amended).  For a customer of the store, the digest's days-as-customer
    is the whole number of days (rounded down) between the customer's first
    message timestamp and the time at which the digest is computed. *)
Theorem days_as_customer_since_first_message customerId now d log customer :
  customer_by_id d customerId = Some customer ->
  exists h w,
    getCustomerConversationHistory (Finite (inject_Z customerId)) now (d, log) = (Ok h, w) /\
    daysAsCustomer h = (now - Customer.first_message_at customer) / MS_PER_DAY /\
    daysAsCustomer h * MS_PER_DAY <= now - Customer.first_message_at customer
      < (daysAsCustomer h + 1) * MS_PER_DAY.
Proof.
  intros Hc.
  destruct (getCustomerConversationHistory_found customerId now d log customer Hc)
    as (h & w & E & _ & _ & Hd).
  exists h, w. rewrite Hd.
  assert (Hpos : 0 < MS_PER_DAY) by reflexivity.
  pose proof (Z.mul_div_le (now - Customer.first_message_at customer) MS_PER_DAY Hpos).
  pose proof (Z.mul_succ_div_gt (now - Customer.first_message_at customer) MS_PER_DAY Hpos).
  repeat split; auto; lia.
Qed.

(** ** C7: the segmentation endpoint *)

Section EndpointFacts.

Variable JSON_parse : string -> option json.
Variable createSegmentationPrompt : CustomerSegmentationData -> string.
Variable callAnthropicAPI : string -> Result string.

(** The first thing [getCustomerConversationHistory] does is to query the
    customers table, whatever the number it is given. *)
Lemma history_queries_storage n now d log :
  exists more,
    snd (snd (getCustomerConversationHistory n now (d, log))) =
    log ++ SelectCustomerById n :: more.
Proof.
  unfold getCustomerConversationHistory, io_catch, io_bind, databaseService_query,
    with_integer.
  destruct (integer_parameter n) as [z|e]; simpl.
  - destruct (filter (fun c => Customer.id c =? z) (customers d)); simpl.
    + exists []. reflexivity.
    + eexists. rewrite <- !app_assoc. simpl. reflexivity.
  - exists []. reflexivity.
Qed.

Lemma history_rejects_non_integer n now d log e :
  integer_parameter n = Throw e ->
  getCustomerConversationHistory n now (d, log) =
  (Throw (WhatsAppServiceError "Failed to retrieve conversation history"
            (DatabaseServiceError "Query execution failed" e)),
   (d, log ++ [SelectCustomerById n])).
Proof.
  intros H.
  unfold getCustomerConversationHistory, io_catch, io_bind, databaseService_query,
    with_integer.
  rewrite H. reflexivity.
Qed.

Lemma segment_queries_storage n now d log :
  exists more,
    snd (snd (LLMService_segmentCustomer JSON_parse createSegmentationPrompt
                callAnthropicAPI n now (d, log))) =
    log ++ SelectCustomerById n :: more.
Proof.
  unfold LLMService_segmentCustomer, io_catch, io_bind.
  destruct (history_queries_storage n now d log) as (more & Hlog).
  destruct (getCustomerConversationHistory n now (d, log)) as [[h|e] [d1 log1]] eqn:Eh;
    simpl in Hlog; subst log1.
  2:{ exists more. reflexivity. }
  destruct (callAnthropicAPI _) as [response|e].
  2:{ exists more. reflexivity. }
  unfold updateCustomerSegment, io_catch, databaseService_query, io_throw, io_ret.
  destruct (with_integer n _ d1) as [[u|e] d2]; simpl;
    eexists; rewrite <- app_assoc; simpl; reflexivity.
Qed.

Lemma segment_never_zod n now w :
  forall e w', LLMService_segmentCustomer JSON_parse createSegmentationPrompt
                 callAnthropicAPI n now w = (Throw e, w') ->
               instanceof_ZodError e = false.
Proof.
  intros e w'. unfold LLMService_segmentCustomer, io_catch, io_throw.
  destruct (io_bind _ _ w) as [[r|e0] w0]; intros H; inversion H; reflexivity.
Qed.

(** C7 (as the code behaves).  For the path parameter [abc] the handler
    responds 500, after sending the customer lookup to the storage engine
    with the parameter [NaN]; no row is read or written.  More generally no
    string parameter is ever answered with 400, every request with a string
    parameter reaches the storage engine, and one whose number is not an
    integer is answered with 500.  Only a missing parameter gets 400. *)
Theorem segment_endpoint_non_numeric_id :
  (forall now d log,
      segmentCustomer JSON_parse createSegmentationPrompt callAnthropicAPI
                      (Some "abc") now (d, log)
      = ((500, None), (d, log ++ [SelectCustomerById NaN]))) /\
  (forall s now d log,
      fst (fst (segmentCustomer JSON_parse createSegmentationPrompt callAnthropicAPI
                                (Some s) now (d, log))) <> 400 /\
      exists more,
        snd (snd (segmentCustomer JSON_parse createSegmentationPrompt callAnthropicAPI
                                  (Some s) now (d, log)))
        = log ++ SelectCustomerById (Number s) :: more) /\
  (forall s now d log e,
      integer_parameter (Number s) = Throw e ->
      segmentCustomer JSON_parse createSegmentationPrompt callAnthropicAPI
                      (Some s) now (d, log)
      = ((500, None), (d, log ++ [SelectCustomerById (Number s)]))) /\
  (forall now w,
      segmentCustomer JSON_parse createSegmentationPrompt callAnthropicAPI None now w
      = ((400, None), w)).
Proof.
  assert (Hbad : forall s now d log e,
      integer_parameter (Number s) = Throw e ->
      segmentCustomer JSON_parse createSegmentationPrompt callAnthropicAPI
                      (Some s) now (d, log)
      = ((500, None), (d, log ++ [SelectCustomerById (Number s)]))).
  { intros s now d log e H.
    unfold segmentCustomer, customerIdSchema_parse,
      LLMService_segmentCustomer, io_catch, io_bind.
    rewrite (history_rejects_non_integer _ now d log _ H). reflexivity. }
  split; [|split; [|split]].
  4:{ intros now w. reflexivity. }
  3:{ exact Hbad. }
  - intros now d log.
    apply (Hbad "abc" now d log (PgError "invalid input syntax for type integer")).
    reflexivity.
  - intros s now d log. unfold segmentCustomer, customerIdSchema_parse.
    destruct (segment_queries_storage (Number s) now d log) as (more & Hlog).
    pose proof (segment_never_zod (Number s) now (d, log)) as Hz.
    destruct (LLMService_segmentCustomer _ _ _ _ _ _) as [[r|e] w'].
    + simpl in *. split; [discriminate|eauto].
    + rewrite (Hz e w' eq_refl). simpl in *. split; [discriminate|eauto].
Qed.

End EndpointFacts.

(** ** C10: no business-originated message is stored *)



Lemma firstn_in {A} n (l : list A) x : In x (firstn n l) -> In x l.
Proof.
  revert l. induction n as [|n IH]; intros [|y l]; simpl; try tauto.
  intros [<-|H]; auto.
Qed.

Lemma consecutive_pairs_in l pair :
  In pair (consecutive_pairs l) -> In (fst pair) l /\ In (snd pair) l.
Proof.
  induction l as [|a [|b r] IH]; simpl; try tauto.
  intros [<-|H]; simpl; auto.
  destruct (IH H). simpl in *. auto.
Qed.






(** ** The theorems at concrete inputs *)

(** The store after the first message, and the sessions after the third. *)
Example store_a_rows :
  customers store_a = [customer_a] /\
  chat_sessions store_a = [bump_session 0 (new_session_row 1 0 1)] /\
  messages store_a = [row_a].
Proof. vm_compute. repeat split. Qed.

Example store_c_sessions :
  map (fun s => (ChatSession.id s, ChatSession.is_active s, ChatSession.session_end s,
                 ChatSession.message_count s))
      (chat_sessions store_c)
  = [(1, false, Some (40 * MINUTE), 2); (2, true, None, 1)].
Proof. vm_compute. reflexivity. Qed.

(** A redelivery after the session has expired: the callback closes the
    session and opens another before the insert fails, and the rollback
    restores the session table; the sequence keeps the id it handed out. *)
Example rollback_undoes_partial_writes :
  fst (ingest (sample_message "A" 0) (40 * MINUTE) store_a)
  = Throw (PgError "messages_waha_message_id_key") /\
  List.length (chat_sessions (snd (ingest (sample_message "A" 0) (40 * MINUTE) store_a)))
  = 2%nat /\
  chat_sessions (snd (transaction (ingest (sample_message "A" 0) (40 * MINUTE)) store_a))
  = chat_sessions store_a /\
  chat_sessions_id_seq
    (snd (transaction (ingest (sample_message "A" 0) (40 * MINUTE)) store_a)) = 3.
Proof. vm_compute. repeat split. Qed.

Lemma first_message_counts_twice_witness :
  reachable 0 empty_db /\
  fst (handleIncomingMessage (sample_message "A" 0) 0 empty_db) = Ok tt /\
  exists c,
    filter (by_phone "6281234567890") (customers store_a) = [c] /\
    List.length (filter (session_of_customer (Customer.id c)) (chat_sessions store_a))
    = 1%nat /\
    List.length (filter (message_of_customer (Customer.id c)) (messages store_a)) = 1%nat /\
    List.length (filter (message_from "6281234567890") (messages store_a)) = 1%nat /\
    Customer.total_messages c = 2.
Proof.
  split; [apply reachable_empty|].
  apply (first_message_counts_twice (sample_message "A" 0) 0 0 empty_db
           (reachable_empty 0)); reflexivity.
Defined.

Lemma duplicate_delivery_rolls_back_witness :
  existsb (has_waha_id "A") (messages store_a) = true /\
  same_tables store_a
    (snd (handleIncomingMessage (sample_message "A" 0) (20 * MINUTE) store_a)) /\
  fst (handleIncomingMessage (sample_message "A" 0) (20 * MINUTE) store_a)
  = Throw duplicate_error.
Proof.
  split; [reflexivity|].
  destruct (duplicate_delivery_rolls_back (sample_message "A" 0) (20 * MINUTE) store_a
              eq_refl) as (Hsame & _ & _ & Hthrow).
  split; [exact Hsame|]. apply Hthrow; reflexivity.
Defined.

Lemma session_stitching_witness :
  (reachable 0 empty_db /\
   evolves 0 store_a (20 * MINUTE) store_b /\
   message_of empty_db "A" = None /\ message_of store_a "A" = Some row_a /\
   message_of store_b "C" = None /\ message_of store_c "C" = Some row_c /\
   0 + THIRTY_MINUTES < 40 * MINUTE) /\
  exists s1,
    session_of store_a (Message.session_id row_a) = Some s1 /\
    ChatSession.is_active s1 = true /\
    0 - THIRTY_MINUTES < ChatSession.session_start s1 <= 0 /\
    (session_of empty_db (Message.session_id row_a) = None ->
     ChatSession.session_start s1 = 0) /\
    (40 * MINUTE - THIRTY_MINUTES < ChatSession.session_start s1 ->
     Message.session_id row_c = Message.session_id row_a) /\
    (ChatSession.session_start s1 + THIRTY_MINUTES <= 40 * MINUTE ->
     Message.session_id row_c <> Message.session_id row_a /\
     closed_after store_b store_c (Message.session_id row_a) 0 (40 * MINUTE)) /\
    (0 + THIRTY_MINUTES < 40 * MINUTE ->
     Message.session_id row_c <> Message.session_id row_a /\
     closed_after store_b store_c (Message.session_id row_a) 0 (40 * MINUTE)).
Proof.
  assert (Hev : evolves 0 store_a (20 * MINUTE) store_b).
  { change store_b
      with (apply_event (20 * MINUTE) (EvMessage (sample_message "B" 1200)) store_a).
    apply evolves_step with (t1 := 0); [constructor|discriminate]. }
  split.
  - split; [apply reachable_empty|]. split; [exact Hev|]. repeat split.
  - apply (session_stitching 0 empty_db (sample_message "A" 0) 0 (20 * MINUTE) store_b
             (sample_message "C" 2400) (40 * MINUTE) row_a row_c).
    + apply reachable_empty.
    + apply Z.le_refl.
    + exact Hev.
    + discriminate.
    + reflexivity.
    + reflexivity.
    + reflexivity.
    + reflexivity.
    + reflexivity.
Defined.

Lemma stub_extractable : extractable stub_parse "ok {} ok" "VIP_CUSTOMER" (9 # 10).
Proof.
  exists "{}", (JObject [("segment", JString "VIP_CUSTOMER");
                         ("confidence", JNumber (9 # 10))]).
  split; [reflexivity|]. split; [reflexivity|].
  split; [reflexivity|]. split; [left; reflexivity|].
  split; [reflexivity|]. split; discriminate.
Defined.

Lemma parse_falls_back_witness :
  extractable stub_parse "ok {} ok" "VIP_CUSTOMER" (9 # 10) /\
  result_segment (parseSegmentationResponse stub_parse "ok {} ok") = "VIP_CUSTOMER" /\
  confidence (parseSegmentationResponse stub_parse "ok {} ok") = 9 # 10.
Proof.
  split; [exact stub_extractable|].
  apply (proj2 (proj2 (proj2 (parse_falls_back stub_parse)))). exact stub_extractable.
Defined.

Lemma average_response_latency_witness :
  (0 + 30000 < 60000 /\
   Permutation
     [RecentMessage.mk "ok" (60000 + 90000) (Some false);
      RecentMessage.mk "harga" 60000 (Some true);
      RecentMessage.mk "ya" (0 + 30000) (Some false);
      RecentMessage.mk "halo" 0 (Some true)]
     (two_answers 0 60000 "halo" "ya" "harga" "ok")) /\
  (calculateAverageResponseTime
     [RecentMessage.mk "ok" (60000 + 90000) (Some false);
      RecentMessage.mk "harga" 60000 (Some true);
      RecentMessage.mk "ya" (0 + 30000) (Some false);
      RecentMessage.mk "halo" 0 (Some true)]
   == 60)%Q.
Proof.
  assert (H : 0 + 30000 < 60000) by reflexivity.
  assert (Hp : Permutation
     [RecentMessage.mk "ok" (60000 + 90000) (Some false);
      RecentMessage.mk "harga" 60000 (Some true);
      RecentMessage.mk "ya" (0 + 30000) (Some false);
      RecentMessage.mk "halo" 0 (Some true)]
     (two_answers 0 60000 "halo" "ya" "harga" "ok")).
  { apply Permutation_sym.
    apply (Permutation_rev (two_answers 0 60000 "halo" "ya" "harga" "ok")). }
  split; [split; [exact H|exact Hp]|].
  apply (proj2 (proj2 (proj2 (proj2 average_response_latency)))
           0 60000 "halo" "ya" "harga" "ok" _ H Hp).
Defined.

Lemma days_as_customer_since_first_message_witness :
  customer_by_id store_a 1 = Some customer_a /\
  exists h w,
    getCustomerConversationHistory (Finite (inject_Z 1)) (2 * MS_PER_DAY) (store_a, [])
    = (Ok h, w) /\
    daysAsCustomer h = (2 * MS_PER_DAY - Customer.first_message_at customer_a) / MS_PER_DAY /\
    daysAsCustomer h * MS_PER_DAY <= 2 * MS_PER_DAY - Customer.first_message_at customer_a
      < (daysAsCustomer h + 1) * MS_PER_DAY.
Proof.
  split; [reflexivity|].
  apply (days_as_customer_since_first_message 1 (2 * MS_PER_DAY) store_a [] customer_a).
  reflexivity.
Defined.

Lemma segment_endpoint_non_numeric_id_witness :
  integer_parameter (Number "1.5") = Throw (PgError "invalid input syntax for type integer") /\
  segmentCustomer stub_parse (fun _ => "") (fun _ => Ok "") (Some "1.5") 0 (empty_db, [])
  = ((500, None), (empty_db, [] ++ [SelectCustomerById (Number "1.5")])).
Proof.
  split; [reflexivity|].
  apply (proj1 (proj2 (proj2 (segment_endpoint_non_numeric_id
                                stub_parse (fun _ => "") (fun _ => Ok ""))))
           "1.5" 0 empty_db [] (PgError "invalid input syntax for type integer")).
  reflexivity.
Defined.


Lemma one_active_session_per_customer_witness :
  (reachable 0 store_a /\ 0 <= 40 * MINUTE /\ 40 * MINUTE <= 40 * MINUTE /\
   truthy_flag (WahaMessagePayload.fromMe message_p) = false /\
   truthy_flag (WahaMessagePayload.fromMe message_q) = false /\
   extractPhoneNumber (WahaMessagePayload.from message_q) =
   extractPhoneNumber (WahaMessagePayload.from message_p) /\
   valid_phone (extractPhoneNumber (WahaMessagePayload.from message_p)) = true /\
   filter (by_phone (extractPhoneNumber (WahaMessagePayload.from message_p)))
          (customers store_a) = [customer_a] /\
   filter (fresh_active (Customer.id customer_a) (40 * MINUTE)) (chat_sessions store_a) = [] /\
   existsb (has_waha_id (WahaMessagePayload.id message_p)) (messages store_a) = false /\
   existsb (has_waha_id (WahaMessagePayload.id message_q)) (messages store_a) = false /\
   WahaMessagePayload.id message_p <> WahaMessagePayload.id message_q) /\
  fst (handleIncomingMessage message_p (40 * MINUTE) store_a) = Ok tt /\
  fst (handleIncomingMessage_overtaken message_q (40 * MINUTE) store_a
         (snd (handleIncomingMessage message_p (40 * MINUTE) store_a))) = Ok tt /\
  active_count (Customer.id customer_a) (chat_sessions store_race) = 2%nat.
Proof.
  assert (H1 : 0 <= 40 * MINUTE) by discriminate.
  assert (H2 : 40 * MINUTE <= 40 * MINUTE) by discriminate.
  assert (H3 : WahaMessagePayload.id message_p <> WahaMessagePayload.id message_q)
    by discriminate.
  split.
  - split; [exact reachable_store_a|]. split; [exact H1|]. split; [exact H2|].
    repeat split; try reflexivity. exact H3.
  - exact (proj2 (proj2 one_active_session_per_customer) 0 store_a message_p message_q
             (40 * MINUTE) (40 * MINUTE) customer_a [] reachable_store_a H1 H2
             eq_refl eq_refl eq_refl eq_refl eq_refl eq_refl eq_refl eq_refl H3).
Defined.


(** * Further properties: proofs *)

Lemma apply_event_shape now e d : step_shape now d (apply_event now e d).
Proof.
  destruct e as [payload|payload|customerId seg]; simpl.
  - destruct (handleIncomingMessage_cases payload now d)
      as [[_ ->]|[(_ & _ & _ & _ & Hsame & Hseq)|(Hme & _ & Hnew & _ & cust & sess & Hing)]].
    + apply shape_same; repeat split; simpl; lia.
    + apply shape_same; auto.
    + eapply shape_ingested; eauto.
  - destruct (handleMessageStatus_store payload now d) as [->|(stored & ->)].
    + apply shape_same; repeat split; lia.
    + eapply shape_status. reflexivity.
  - eapply shape_segment. reflexivity.
Qed.

(** ** Where the rows of the new tables come from *)

Lemma session_row_origin customerId now l seq sess l2 seq2 sessionId s' :
  session_step customerId now l seq sess l2 seq2 ->
  In s' (bump_sessions sessionId now l2) ->
  (exists s, In s l /\
     ChatSession.id s' = ChatSession.id s /\
     ChatSession.customer_id s' = ChatSession.customer_id s /\
     ChatSession.session_start s' = ChatSession.session_start s /\
     ChatSession.message_count s' =
       ChatSession.message_count s + (if ChatSession.id s =? sessionId then 1 else 0) /\
     ((ChatSession.is_active s' = ChatSession.is_active s /\
       ChatSession.session_end s' = ChatSession.session_end s) \/
      (ChatSession.is_active s = true /\ ChatSession.is_active s' = false /\
       ChatSession.session_end s' = Some now /\
       ChatSession.session_start s + THIRTY_MINUTES <= now)))
  \/ (ChatSession.id s' = seq /\ ChatSession.customer_id s' = customerId /\
      ChatSession.session_start s' = now /\ ChatSession.is_active s' = true /\
      ChatSession.session_end s' = None /\
      ChatSession.message_count s' = (if seq =? sessionId then 1 else 0) /\
      seq2 = seq + 1 /\ sess = new_session_row customerId now seq).
Proof.
  intros Hs Hin. unfold bump_sessions in Hin. apply in_map_iff in Hin.
  destruct Hin as (s1 & <- & Hin).
  assert (Hbump : forall s0 : ChatSession.t,
    let r := if ChatSession.id s0 =? sessionId then bump_session now s0 else s0 in
    ChatSession.id r = ChatSession.id s0 /\
    ChatSession.customer_id r = ChatSession.customer_id s0 /\
    ChatSession.session_start r = ChatSession.session_start s0 /\
    ChatSession.message_count r =
      ChatSession.message_count s0 + (if ChatSession.id s0 =? sessionId then 1 else 0) /\
    ChatSession.is_active r = ChatSession.is_active s0 /\
    ChatSession.session_end r = ChatSession.session_end s0).
  { intros s0. simpl. destruct (_ =? _); simpl; repeat split; lia. }
  destruct (Hbump s1) as (B1 & B2 & B3 & B4 & B5 & B6).
  destruct Hs as [(_ & -> & _)|(Hnone & -> & -> & ->)].
  - left. exists s1. repeat split; auto.
  - apply in_app_or in Hin. destruct Hin as [Hin|[<-|[]]].
    + left. unfold close_active in Hin. apply in_map_iff in Hin.
      destruct Hin as (s0 & <- & Hin0). exists s0. split; auto.
      destruct (is_active_of customerId s0) eqn:Ea.
      * simpl in *. rewrite B1, B2, B3, B4, B5, B6. repeat split; auto.
        right. repeat split; auto.
        -- unfold is_active_of in Ea. apply andb_true_iff in Ea. tauto.
        -- eapply not_fresh_expired; eauto. apply (filter_nil_in Hnone Hin0).
      * rewrite B1, B2, B3, B4, B5, B6. repeat split; auto.
    + right. simpl in *. rewrite B1, B2, B3, B4, B5, B6. repeat split; auto.
Qed.

Lemma session_row_kept customerId now l seq sess l2 seq2 sessionId s :
  session_step customerId now l seq sess l2 seq2 -> In s l ->
  exists s', In s' (bump_sessions sessionId now l2) /\
             ChatSession.id s' = ChatSession.id s /\
             ChatSession.customer_id s' = ChatSession.customer_id s.
Proof.
  intros Hs Hin.
  assert (Hl2 : exists s1, In s1 l2 /\ ChatSession.id s1 = ChatSession.id s /\
                           ChatSession.customer_id s1 = ChatSession.customer_id s).
  { destruct Hs as [(_ & -> & _)|(_ & _ & -> & _)]; [eauto|].
    exists (if is_active_of customerId s then close_session now s else s). split.
    - apply in_or_app. left. unfold close_active. apply in_map_iff. eauto.
    - destruct (is_active_of customerId s); auto. }
  destruct Hl2 as (s1 & Hin1 & E1 & E2).
  exists (if ChatSession.id s1 =? sessionId then bump_session now s1 else s1). split.
  - unfold bump_sessions. apply in_map_iff. eauto.
  - destruct (_ =? _); simpl; split; congruence.
Qed.

Lemma customer_row_origin phoneNumber payload now l seq cust l1 seq1 customerId c' :
  customer_step phoneNumber payload now l seq cust l1 seq1 ->
  In c' (bump_customers customerId now l1) ->
  exists c, (In c l \/ (c = new_customer_row phoneNumber payload now seq /\ c = cust /\
                        filter (by_phone phoneNumber) l = [] /\ seq1 = seq + 1)) /\
    Customer.id c' = Customer.id c /\
    Customer.phone_number c' = Customer.phone_number c /\
    Customer.name c' = Customer.name c /\
    Customer.first_message_at c' = Customer.first_message_at c /\
    Customer.segment c' = Customer.segment c /\
    Customer.segment_updated_at c' = Customer.segment_updated_at c /\
    Customer.created_at c' = Customer.created_at c /\
    Customer.total_messages c' =
      Customer.total_messages c + (if Customer.id c =? customerId then 1 else 0) /\
    ((Customer.id c =? customerId) = true -> Customer.last_message_at c' = now) /\
    ((Customer.id c =? customerId) = false -> c' = c).
Proof.
  intros Hc Hin. unfold bump_customers in Hin. apply in_map_iff in Hin.
  destruct Hin as (c & <- & Hin). exists c. split.
  - destruct Hc as [(rest & _ & -> & _)|(E & Hrow & -> & ->)]; auto.
    apply in_app_or in Hin. destruct Hin as [Hin|[<-|[]]]; auto.
  - destruct (Customer.id c =? customerId); simpl; repeat split; auto; try lia;
      discriminate.
Qed.

Lemma map_id_bump_customers customerId now l :
  map Customer.id (bump_customers customerId now l) = map Customer.id l.
Proof.
  unfold bump_customers. rewrite map_map. apply map_ext.
  intros c. destruct (_ =? _); reflexivity.
Qed.

Lemma map_phone_bump_customers customerId now l :
  map Customer.phone_number (bump_customers customerId now l) =
  map Customer.phone_number l.
Proof.
  unfold bump_customers. rewrite map_map. apply map_ext.
  intros c. destruct (_ =? _); reflexivity.
Qed.

Lemma NoDup_snoc {A} (l : list A) (x : A) :
  NoDup l -> ~ In x l -> NoDup (l ++ [x]).
Proof.
  intros Hnd Hx. apply NoDup_app; auto.
  - constructor; [intros []|constructor].
  - intros y Hy [<-|[]]. auto.
Qed.

Lemma count_snoc {A} (p : A -> bool) (l : list A) (x : A) :
  Z.of_nat (List.length (filter p (l ++ [x]))) =
  Z.of_nat (List.length (filter p l)) + (if p x then 1 else 0).
Proof.
  rewrite filter_app, length_app. simpl. destruct (p x); simpl; lia.
Qed.

Lemma count_map_stable {A} (p : A -> bool) (f : A -> A) (l : list A) :
  (forall x, p (f x) = p x) ->
  List.length (filter p (map f l)) = List.length (filter p l).
Proof.
  intros H. rewrite filter_map_stable by exact H. apply length_map.
Qed.

(** ** The invariants are kept *)

Lemma consistent_empty t : consistent t empty_db.
Proof.
  constructor; simpl; try constructor; intros ? [].
Qed.

Lemma consistent_ingested t payload now d d' cust sess :
  wf t d -> consistent t d -> t <= now ->
  existsb (has_waha_id (WahaMessagePayload.id payload)) (messages d) = false ->
  ingested payload now d d' cust sess -> consistent now d'.
Proof.
  intros Hwf [U1 U2 U3 U4 F1 F2 T1 T2 R1 R2 R3 L1 L2 M1 M2] Ht Hnew Hing.
  pose proof (ingested_session Hwf Ht Hing) as (Hsin & Hsa & Hsc & Hsst & Hsold).
  destruct Hing as (l1 & seq1 & l2 & seq2 & Hc & Hs & ->).
  pose proof (customer_step_found Hc) as (Hcin & Hph & Hcid & Hsub & Hsup).
  pose proof (session_step_seq Hs) as Hsseq.
  pose proof (customer_step_seq Hc) as Hcseq.
  set (msg := new_message_row (Customer.id cust) (ChatSession.id sess) payload now
                              (messages_id_seq d)).
  assert (Hsid : ChatSession.id sess < seq2).
  { destruct Hs as [(Hl & _ & ->)|(_ & -> & _ & ->)].
    - apply latest_session_in in Hl. apply filter_In in Hl.
      apply (wf_session_id _ _ Hwf). tauto.
    - simpl. lia. }
  constructor; cbn [customers chat_sessions messages customers_id_seq
                    chat_sessions_id_seq messages_id_seq].
  - rewrite map_id_bump_customers.
    destruct Hc as [(rest & _ & -> & _)|(_ & -> & -> & _)]; auto.
    rewrite map_app. apply NoDup_snoc; auto. simpl.
    intros Hin. apply in_map_iff in Hin. destruct Hin as (c & E & Hin).
    pose proof (wf_customer_id _ _ Hwf _ Hin). lia.
  - rewrite map_phone_bump_customers.
    destruct Hc as [(rest & _ & -> & _)|(Hnone & -> & -> & _)]; auto.
    rewrite map_app. apply NoDup_snoc; auto. simpl.
    intros Hin. apply in_map_iff in Hin. destruct Hin as (c & E & Hin).
    pose proof (filter_nil_in Hnone Hin) as Hf. unfold by_phone in Hf.
    apply String.eqb_neq in Hf. auto.
  - rewrite map_app. apply NoDup_snoc; auto. simpl.
    intros Hin. apply in_map_iff in Hin. destruct Hin as (m & E & Hin).
    pose proof (F1 _ Hin). lia.
  - rewrite map_app. apply NoDup_snoc; auto. simpl.
    intros Hin. apply in_map_iff in Hin. destruct Hin as (m & E & Hin).
    apply existsb_false_filter in Hnew.
    apply (filter_nil_in Hnew) in Hin. unfold has_waha_id in Hin.
    apply String.eqb_neq in Hin. auto.
  - intros m Hin. apply in_app_or in Hin. destruct Hin as [Hin|[<-|[]]].
    + pose proof (F1 _ Hin). lia.
    + simpl. lia.
  - intros m Hin. apply in_app_or in Hin. destruct Hin as [Hin|[<-|[]]].
    + pose proof (F2 _ Hin). lia.
    + simpl. lia.
  - intros c' Hin.
    destruct (customer_row_origin _ _ _ _ _ _ _ _ (Customer.id cust) c' Hc Hin)
      as (c & Horigin & Eid & _ & _ & _ & _ & _ & _ & Etot & _).
    rewrite Etot, Eid, count_snoc.
    assert (Em : message_of_customer (Customer.id c) msg = (Customer.id c =? Customer.id cust)).
    { unfold message_of_customer, msg. simpl. apply Z.eqb_sym. }
    rewrite Em.
    destruct Horigin as [Hold|(Hrow & Ecust & _ & _)].
    + rewrite (T1 _ Hold). lia.
    + rewrite Hrow. simpl.
      rewrite (filter_none (message_of_customer (customers_id_seq d))); [simpl; lia|].
      intros m Hm. pose proof (wf_message_fk _ _ Hwf _ Hm).
      unfold message_of_customer. apply Z.eqb_neq. lia.
  - intros s' Hin.
    destruct (session_row_origin _ _ _ _ _ _ _ (ChatSession.id sess) s' Hs Hin)
      as [(s & Hold & Eid & _ & _ & Ecnt & _)|(Eid & _ & _ & _ & _ & Ecnt & _)].
    + rewrite Ecnt, Eid, count_snoc, (T2 _ Hold).
      assert (Em : message_in_session (ChatSession.id s) msg =
                   (ChatSession.id s =? ChatSession.id sess)).
      { unfold message_in_session, msg. simpl. apply Z.eqb_sym. }
      rewrite Em. reflexivity.
    + rewrite Ecnt, Eid, count_snoc.
      rewrite (filter_none (message_in_session (chat_sessions_id_seq d))).
      * unfold message_in_session, msg. simpl.
        rewrite (Z.eqb_sym (ChatSession.id sess)). reflexivity.
      * intros m Hm. pose proof (F2 _ Hm).
        unfold message_in_session. apply Z.eqb_neq. lia.
  - intros m Hin. apply in_app_or in Hin. destruct Hin as [Hin|[<-|[]]].
    + destruct (R1 _ Hin) as (s & Hsin0 & E1 & E2).
      destruct (session_row_kept _ _ _ _ _ _ _ (ChatSession.id sess) s Hs Hsin0)
        as (s' & Hin' & E1' & E2').
      exists s'. repeat split; congruence.
    + exists (bump_session now sess). simpl. repeat split; auto.
  - intros m Hin. apply in_app_or in Hin. destruct Hin as [Hin|[<-|[]]].
    + destruct (R2 _ Hin) as (c & Hcin0 & E1 & E2).
      destruct (in_bump_customers_keep (Customer.id cust) now l1 c (Hsub _ Hcin0))
        as (c' & Hin' & Hph' & Hid').
      exists c'. repeat split; congruence.
    + destruct (in_bump_customers_keep (Customer.id cust) now l1 cust Hcin)
        as (c' & Hin' & Hph' & Hid').
      exists c'. simpl. repeat split; congruence.
  - intros s' Hin.
    assert (Hcust : exists c, In c l1 /\ Customer.id c = ChatSession.customer_id s').
    { destruct (session_row_origin _ _ _ _ _ _ _ (ChatSession.id sess) s' Hs Hin)
        as [(s & Hold & _ & Ecust & _)|(_ & Ecust & _)].
      - destruct (R3 _ Hold) as (c & Hcin0 & E). exists c. split; auto. congruence.
      - exists cust. split; auto. }
    destruct Hcust as (c & Hcin0 & E).
    destruct (in_bump_customers_keep (Customer.id cust) now l1 c Hcin0)
      as (c' & Hin' & _ & Hid').
    exists c'. split; auto. congruence.
  - intros s' Hin Ha.
    destruct (session_row_origin _ _ _ _ _ _ _ (ChatSession.id sess) s' Hs Hin)
      as [(s & Hold & _ & _ & _ & _ & [[Ea Ee]|(_ & Ea & _)])|(_ & _ & _ & _ & Ee & _)];
      auto; try congruence.
    rewrite Ee. apply L1; auto. congruence.
  - intros s' Hin Ha.
    destruct (session_row_origin _ _ _ _ _ _ _ (ChatSession.id sess) s' Hs Hin)
      as [(s & Hold & _ & _ & Est & _ & [[Ea Ee]|(_ & _ & Ee & Hexp)])|(_ & _ & _ & Ea & _)];
      try congruence.
    + rewrite Ea in Ha. destruct (L2 _ Hold Ha) as (e & He & Hb).
      exists e. rewrite Ee, Est. split; auto. lia.
    + exists now. rewrite Ee, Est. split; auto. lia.
  - intros c' Hin.
    destruct (customer_row_origin _ _ _ _ _ _ _ _ (Customer.id cust) c' Hc Hin)
      as (c & [Hold|(_ & -> & _)] & Eid & _).
    + destruct (M1 _ Hold) as (m & Hm & Em). exists m. split; [|congruence].
      apply in_or_app. auto.
    + exists msg. split; [apply in_or_app; simpl; auto|]. rewrite Eid. reflexivity.
  - intros s' Hin.
    destruct (session_row_origin _ _ _ _ _ _ _ (ChatSession.id sess) s' Hs Hin)
      as [(s & Hold & Eid & _)|(Eid & _ & _ & _ & _ & _ & _ & Esess)].
    + destruct (M2 _ Hold) as (m & Hm & Em). exists m. split; [|congruence].
      apply in_or_app. auto.
    + exists msg. split; [apply in_or_app; simpl; auto|]. rewrite Eid. unfold msg. simpl.
      rewrite Esess. reflexivity.
Qed.

Lemma consistent_later t t' d : consistent t d -> t <= t' -> consistent t' d.
Proof.
  intros [U1 U2 U3 U4 F1 F2 T1 T2 R1 R2 R3 L1 L2 M1 M2] Ht. constructor; auto.
  intros s Hin Ha. destruct (L2 _ Hin Ha) as (e & He & Hb).
  exists e. split; auto. lia.
Qed.

Lemma consistent_same t d d' :
  consistent t d -> same_tables d d' -> seq_le d d' -> consistent t d'.
Proof.
  intros [U1 U2 U3 U4 F1 F2 T1 T2 R1 R2 R3 L1 L2 M1 M2] (E1 & E2 & E3) (S1 & S2 & S3).
  constructor; rewrite ?E1, ?E2, ?E3; auto.
  - intros m Hin. pose proof (F1 _ Hin). lia.
  - intros m Hin. pose proof (F2 _ Hin). lia.
Qed.

Lemma consistent_status t d st now wahaMessageId :
  consistent t d ->
  consistent t (mkDatabase (customers d) (chat_sessions d)
                  (map (fun m => if has_waha_id wahaMessageId m
                                 then set_status st now m else m) (messages d))
                  (customers_id_seq d) (chat_sessions_id_seq d) (messages_id_seq d)).
Proof.
  intros [U1 U2 U3 U4 F1 F2 T1 T2 R1 R2 R3 L1 L2 M1 M2].
  set (f := fun m => if has_waha_id wahaMessageId m then set_status st now m else m).
  assert (Hid : forall m, Message.id (f m) = Message.id m)
    by (intros m; unfold f; destruct (has_waha_id _ m); reflexivity).
  assert (Hw : forall m, Message.waha_message_id (f m) = Message.waha_message_id m)
    by (intros m; unfold f; destruct (has_waha_id _ m); reflexivity).
  assert (Hs : forall m, Message.session_id (f m) = Message.session_id m)
    by (intros m; unfold f; destruct (has_waha_id _ m); reflexivity).
  assert (Hc : forall m, Message.customer_id (f m) = Message.customer_id m)
    by (intros m; unfold f; destruct (has_waha_id _ m); reflexivity).
  assert (Hf : forall m, Message.from_number (f m) = Message.from_number m)
    by (intros m; unfold f; destruct (has_waha_id _ m); reflexivity).
  constructor; cbn [customers chat_sessions messages customers_id_seq
                    chat_sessions_id_seq messages_id_seq]; auto.
  - rewrite map_map, (map_ext _ _ Hid). exact U3.
  - rewrite map_map, (map_ext _ _ Hw). exact U4.
  - intros m Hin. apply in_map_iff in Hin. destruct Hin as (m0 & <- & Hin).
    rewrite Hid. auto.
  - intros m Hin. apply in_map_iff in Hin. destruct Hin as (m0 & <- & Hin).
    rewrite Hs. auto.
  - intros c Hin. rewrite count_map_stable; auto.
    intros m. unfold message_of_customer. rewrite Hc. reflexivity.
  - intros s Hin. rewrite count_map_stable; auto.
    intros m. unfold message_in_session. rewrite Hs. reflexivity.
  - intros m Hin. apply in_map_iff in Hin. destruct Hin as (m0 & <- & Hin).
    rewrite Hs, Hc. auto.
  - intros m Hin. apply in_map_iff in Hin. destruct Hin as (m0 & <- & Hin).
    rewrite Hf, Hc. auto.
  - intros c Hin. destruct (M1 _ Hin) as (m & Hm & Em).
    exists (f m). rewrite Hc. split; auto. apply in_map. exact Hm.
  - intros s Hin. destruct (M2 _ Hin) as (m & Hm & Em).
    exists (f m). rewrite Hs. split; auto. apply in_map. exact Hm.
Qed.

Lemma consistent_segment t d seg now customerId :
  consistent t d ->
  consistent t (mkDatabase (map (fun c => if Customer.id c =? customerId
                                          then set_segment seg now c else c) (customers d))
                  (chat_sessions d) (messages d)
                  (customers_id_seq d) (chat_sessions_id_seq d) (messages_id_seq d)).
Proof.
  intros [U1 U2 U3 U4 F1 F2 T1 T2 R1 R2 R3 L1 L2 M1 M2].
  set (f := fun c => if Customer.id c =? customerId then set_segment seg now c else c).
  assert (Hid : forall c, Customer.id (f c) = Customer.id c)
    by (intros c; unfold f; destruct (_ =? _); reflexivity).
  assert (Hp : forall c, Customer.phone_number (f c) = Customer.phone_number c)
    by (intros c; unfold f; destruct (_ =? _); reflexivity).
  assert (Ht : forall c, Customer.total_messages (f c) = Customer.total_messages c)
    by (intros c; unfold f; destruct (_ =? _); reflexivity).
  constructor; cbn [customers chat_sessions messages customers_id_seq
                    chat_sessions_id_seq messages_id_seq]; auto.
  - rewrite map_map, (map_ext _ _ Hid). exact U1.
  - rewrite map_map, (map_ext _ _ Hp). exact U2.
  - intros c Hin. apply in_map_iff in Hin. destruct Hin as (c0 & <- & Hin).
    rewrite Ht, Hid. auto.
  - intros m Hin. destruct (R2 _ Hin) as (c & Hcin & Ec1 & Ec2).
    exists (f c). rewrite Hid, Hp. split; auto. apply in_map. exact Hcin.
  - intros s Hin. destruct (R3 _ Hin) as (c & Hcin & Ec).
    exists (f c). rewrite Hid. split; auto. apply in_map. exact Hcin.
  - intros c Hin. apply in_map_iff in Hin. destruct Hin as (c0 & <- & Hin).
    rewrite Hid. auto.
Qed.

Lemma consistent_apply_event t t' e d :
  wf t d -> consistent t d -> t <= t' -> consistent t' (apply_event t' e d).
Proof.
  intros Hwf Hc Ht.
  destruct (apply_event_shape t' e d) as [Hs Hq|payload cust sess _ Hnew Hing|st w ->|seg c ->].
  - apply consistent_same with d; auto. apply consistent_later with t; auto.
  - apply (consistent_ingested t payload t' d _ cust sess); auto.
  - apply consistent_status. apply consistent_later with t; auto.
  - apply consistent_segment. apply consistent_later with t; auto.
Qed.

Lemma evolves_consistent {t d t' d'} :
  evolves t d t' d' -> wf t d -> consistent t d -> consistent t' d'.
Proof.
  induction 1 as [|t1 d1 t2 e Hev IH Hle]; intros Hwf Hc; auto.
  apply consistent_apply_event with t1; auto.
  apply (evolves_wf Hev Hwf).
Qed.

Lemma reachable_consistent {t d} : reachable t d -> consistent t d.
Proof.
  intros (t0 & Hev).
  exact (evolves_consistent Hev (wf_empty t0) (consistent_empty t0)).
Qed.

(** ** What an event keeps *)

Lemma customer_kept_step now d d' c :
  step_shape now d d' -> In c (customers d) ->
  exists c', In c' (customers d') /\
    Customer.id c' = Customer.id c /\
    Customer.phone_number c' = Customer.phone_number c /\
    Customer.name c' = Customer.name c /\
    Customer.first_message_at c' = Customer.first_message_at c /\
    Customer.created_at c' = Customer.created_at c /\
    Customer.total_messages c <= Customer.total_messages c'.
Proof.
  intros [(E1 & _) _|payload cust sess _ _ Hing|st w ->|seg k ->] Hin.
  - exists c. rewrite E1. repeat split; auto; lia.
  - destruct Hing as (l1 & seq1 & l2 & seq2 & Hc & _ & ->).
    pose proof (customer_step_found Hc) as (_ & _ & _ & Hsub & _).
    exists (if Customer.id c =? Customer.id cust then bump_customer now c else c).
    split.
    + simpl. unfold bump_customers. apply in_map_iff. exists c. split; auto.
    + destruct (_ =? _); simpl; repeat split; auto; lia.
  - exists c. repeat split; auto; lia.
  - exists (if Customer.id c =? k then set_segment seg now c else c). split.
    + simpl. apply in_map_iff. exists c. split; auto.
    + destruct (_ =? _); simpl; repeat split; auto; lia.
Qed.

Lemma same_message_content_refl m : same_message_content m m.
Proof. repeat split. Qed.

Lemma same_message_content_trans m1 m2 m3 :
  same_message_content m1 m2 -> same_message_content m2 m3 ->
  same_message_content m1 m3.
Proof.
  unfold same_message_content. intros H1 H2.
  repeat match goal with H : _ /\ _ |- _ => destruct H end.
  repeat split; congruence.
Qed.

Lemma Forall2_same_content_refl l : Forall2 same_message_content l l.
Proof. induction l; constructor; auto using same_message_content_refl. Qed.

Lemma Forall2_same_content_map (f : Message.t -> Message.t) l :
  (forall m, same_message_content m (f m)) ->
  Forall2 same_message_content l (map f l).
Proof. intros Hf. induction l; simpl; constructor; auto. Qed.

Lemma messages_kept_step now d d' :
  step_shape now d d' ->
  exists old new, messages d' = old ++ new /\
                  Forall2 same_message_content (messages d) old.
Proof.
  intros [(_ & _ & E3) _|payload cust sess _ _ Hing|st w ->|seg k ->].
  - exists (messages d), []. rewrite E3, app_nil_r.
    split; auto using Forall2_same_content_refl.
  - destruct Hing as (l1 & seq1 & l2 & seq2 & _ & _ & ->). simpl.
    eexists _, _. split; [reflexivity|]. apply Forall2_same_content_refl.
  - simpl. eexists _, []. rewrite app_nil_r. split; [reflexivity|].
    apply Forall2_same_content_map. intros m.
    destruct (has_waha_id w m); repeat split.
  - simpl. exists (messages d), []. rewrite app_nil_r.
    split; auto using Forall2_same_content_refl.
Qed.

Lemma Forall2_same_content_trans l1 l2 l3 :
  Forall2 same_message_content l1 l2 -> Forall2 same_message_content l2 l3 ->
  Forall2 same_message_content l1 l3.
Proof.
  intros H. revert l3. induction H; intros l3 H3; inversion H3; subst; constructor.
  - eapply same_message_content_trans; eauto.
  - auto.
Qed.

Lemma closed_session_kept_step t now d d' s :
  wf t d -> step_shape now d d' ->
  In s (chat_sessions d) -> ChatSession.is_active s = false ->
  In s (chat_sessions d').
Proof.
  intros Hwf [(_ & E2 & _) _|payload cust sess _ _ Hing|st w ->|seg k ->] Hin Hc; auto.
  - rewrite E2. exact Hin.
  - destruct Hing as (l1 & seq1 & l2 & seq2 & _ & Hs & ->). simpl.
    unfold bump_sessions. apply in_map_iff. exists s.
    assert (Hne : (ChatSession.id s =? ChatSession.id sess) = false).
    { apply Z.eqb_neq. intros E.
      destruct Hs as [(Hl & _)|(_ & -> & _)].
      - apply latest_session_in in Hl. apply filter_In in Hl. destruct Hl as (Hl & Hf).
        pose proof (nodup_session_id_inj _ _ _ (wf_session_nodup _ _ Hwf) Hin Hl E) as ->.
        unfold fresh_active in Hf. rewrite Hc in Hf.
        rewrite andb_false_r in Hf. discriminate.
      - simpl in E. pose proof (wf_session_id _ _ Hwf _ Hin). lia. }
    rewrite Hne. split; auto.
    destruct Hs as [(_ & -> & _)|(_ & _ & -> & _)]; auto.
    apply in_or_app. left. unfold close_active. apply in_map_iff. exists s.
    unfold is_active_of. rewrite Hc, andb_false_r. auto.
Qed.

(** ** Stores built by the service *)

Lemma reachable_store_c : reachable (40 * MINUTE) store_c.
Proof.
  apply reachable_step with (t := 20 * MINUTE); [apply reachable_store_b|unfold MINUTE; lia].
Qed.

(** X3. In a store built by the service from the empty one, no two customers
    share an id or a phone number, no two sessions share an id, and no two
    messages share an id or an external message id. *)
Theorem identities_are_unique t d :
  reachable t d ->
  NoDup (map Customer.id (customers d)) /\
  NoDup (map Customer.phone_number (customers d)) /\
  NoDup (map ChatSession.id (chat_sessions d)) /\
  NoDup (map Message.id (messages d)) /\
  NoDup (map Message.waha_message_id (messages d)).
Proof.
  intros Hr. pose proof (reachable_consistent Hr) as Hc.
  pose proof (reachable_wf Hr) as Hwf.
  repeat split; try apply Hc. apply Hwf.
Qed.

Lemma identities_are_unique_witness :
  reachable (20 * MINUTE) store_b /\
  NoDup (map Customer.id (customers store_b)) /\
  NoDup (map Customer.phone_number (customers store_b)) /\
  NoDup (map ChatSession.id (chat_sessions store_b)) /\
  NoDup (map Message.id (messages store_b)) /\
  NoDup (map Message.waha_message_id (messages store_b)).
Proof.
  split; [exact reachable_store_b|].
  exact (identities_are_unique _ _ reachable_store_b).
Defined.

(** X4. In a store built by the service, every message row points to a
    session row and a customer row that exist, the session belongs to that
    customer, the customer's phone number is the message's sender number, and
    every session row points to a customer row that exists. *)
Theorem references_resolve t d :
  reachable t d ->
  (forall m, In m (messages d) ->
     exists s c, In s (chat_sessions d) /\ In c (customers d) /\
       ChatSession.id s = Message.session_id m /\
       Customer.id c = Message.customer_id m /\
       ChatSession.customer_id s = Customer.id c /\
       Customer.phone_number c = Message.from_number m) /\
  (forall s, In s (chat_sessions d) ->
     exists c, In c (customers d) /\ Customer.id c = ChatSession.customer_id s).
Proof.
  intros Hr. pose proof (reachable_consistent Hr) as Hc. split.
  - intros m Hin.
    destruct (message_has_session _ _ Hc m Hin) as (s & Hs & E1 & E2).
    destruct (message_has_customer _ _ Hc m Hin) as (c & Hcin & E3 & E4).
    exists s, c. repeat split; auto. congruence.
  - apply Hc.
Qed.

Lemma references_resolve_witness :
  reachable (20 * MINUTE) store_b /\
  (forall m, In m (messages store_b) ->
     exists s c, In s (chat_sessions store_b) /\ In c (customers store_b) /\
       ChatSession.id s = Message.session_id m /\
       Customer.id c = Message.customer_id m /\
       ChatSession.customer_id s = Customer.id c /\
       Customer.phone_number c = Message.from_number m) /\
  (forall s, In s (chat_sessions store_b) ->
     exists c, In c (customers store_b) /\ Customer.id c = ChatSession.customer_id s).
Proof.
  split; [exact reachable_store_b|].
  exact (references_resolve _ _ reachable_store_b).
Defined.

(** X5. In a store built by the service, a session's [message_count] is the
    number of message rows of that session, and a customer's
    [total_messages] is one more than the number of message rows of that
    customer. *)
Theorem counters_match_messages t d :
  reachable t d ->
  (forall s, In s (chat_sessions d) ->
     ChatSession.message_count s =
     Z.of_nat (List.length (filter (message_in_session (ChatSession.id s)) (messages d)))) /\
  (forall c, In c (customers d) ->
     Customer.total_messages c =
     1 + Z.of_nat (List.length (filter (message_of_customer (Customer.id c)) (messages d)))).
Proof.
  intros Hr. pose proof (reachable_consistent Hr) as Hc. split; apply Hc.
Qed.

Lemma counters_match_messages_witness :
  reachable (20 * MINUTE) store_b /\
  (forall s, In s (chat_sessions store_b) ->
     ChatSession.message_count s =
     Z.of_nat (List.length (filter (message_in_session (ChatSession.id s))
                                   (messages store_b)))) /\
  (forall c, In c (customers store_b) ->
     Customer.total_messages c =
     1 + Z.of_nat (List.length (filter (message_of_customer (Customer.id c))
                                       (messages store_b)))).
Proof.
  split; [exact reachable_store_b|].
  exact (counters_match_messages _ _ reachable_store_b).
Defined.

(** X6. In a store built by the service up to time [t], an active session
    has no end time, and an inactive session has an end time that is at least
    thirty minutes after its start and not after [t]. *)
Theorem session_lifecycle t d :
  reachable t d ->
  forall s, In s (chat_sessions d) ->
    if ChatSession.is_active s
    then ChatSession.session_end s = None
    else exists e, ChatSession.session_end s = Some e /\
                   ChatSession.session_start s + THIRTY_MINUTES <= e <= t.
Proof.
  intros Hr s Hin. pose proof (reachable_consistent Hr) as Hc.
  destruct (ChatSession.is_active s) eqn:Ea.
  - apply (session_open _ _ Hc); auto.
  - apply (session_closed _ _ Hc); auto.
Qed.

Lemma session_lifecycle_witness :
  reachable (40 * MINUTE) store_c /\
  forall s, In s (chat_sessions store_c) ->
    if ChatSession.is_active s
    then ChatSession.session_end s = None
    else exists e, ChatSession.session_end s = Some e /\
                   ChatSession.session_start s + THIRTY_MINUTES <= e <= 40 * MINUTE.
Proof.
  split; [exact reachable_store_c|].
  exact (session_lifecycle (40 * MINUTE) store_c reachable_store_c).
Defined.

(** X7. In a store built by the service, every customer row and every
    session row has at least one message row: a customer or a session is
    only ever stored together with its first message. *)
Theorem no_empty_customer_or_session t d :
  reachable t d ->
  (forall c, In c (customers d) ->
     exists m, In m (messages d) /\ Message.customer_id m = Customer.id c) /\
  (forall s, In s (chat_sessions d) ->
     exists m, In m (messages d) /\ Message.session_id m = ChatSession.id s).
Proof.
  intros Hr. pose proof (reachable_consistent Hr) as Hc. split; apply Hc.
Qed.

Lemma no_empty_customer_or_session_witness :
  reachable (20 * MINUTE) store_b /\
  (forall c, In c (customers store_b) ->
     exists m, In m (messages store_b) /\ Message.customer_id m = Customer.id c) /\
  (forall s, In s (chat_sessions store_b) ->
     exists m, In m (messages store_b) /\ Message.session_id m = ChatSession.id s).
Proof.
  split; [exact reachable_store_b|].
  exact (no_empty_customer_or_session _ _ reachable_store_b).
Defined.

(** ** Across events *)

(** X8. Whatever events are processed, a customer row is never deleted, its
    id, phone number, name, first message time and creation time never
    change, and its [total_messages] never decreases. *)
Theorem customer_identity_is_permanent t d t' d' c :
  evolves t d t' d' -> In c (customers d) ->
  exists c', In c' (customers d') /\
    Customer.id c' = Customer.id c /\
    Customer.phone_number c' = Customer.phone_number c /\
    Customer.name c' = Customer.name c /\
    Customer.first_message_at c' = Customer.first_message_at c /\
    Customer.created_at c' = Customer.created_at c /\
    Customer.total_messages c <= Customer.total_messages c'.
Proof.
  intros Hev Hin. induction Hev as [|t1 d1 t2 e Hev IH Hle].
  - exists c. repeat split; auto; lia.
  - destruct IH as (c1 & Hin1 & A1 & A2 & A3 & A4 & A5 & A6).
    destruct (customer_kept_step t2 d1 _ c1 (apply_event_shape t2 e d1) Hin1)
      as (c2 & Hin2 & B1 & B2 & B3 & B4 & B5 & B6).
    exists c2. repeat split; auto; try congruence; lia.
Qed.

Lemma customer_identity_is_permanent_witness :
  evolves 0 store_a (20 * MINUTE) store_b /\ In customer_a (customers store_a) /\
  exists c', In c' (customers store_b) /\
    Customer.id c' = Customer.id customer_a /\
    Customer.phone_number c' = Customer.phone_number customer_a /\
    Customer.name c' = Customer.name customer_a /\
    Customer.first_message_at c' = Customer.first_message_at customer_a /\
    Customer.created_at c' = Customer.created_at customer_a /\
    Customer.total_messages customer_a <= Customer.total_messages c'.
Proof.
  assert (Hev : evolves 0 store_a (20 * MINUTE) store_b).
  { apply (evolves_step 0 store_a 0 store_a (20 * MINUTE)
                        (EvMessage (sample_message "B" 1200)) (evolves_refl 0 store_a)).
    unfold MINUTE. lia. }
  assert (Hin : In customer_a (customers store_a)) by (left; reflexivity).
  split; [exact Hev|]. split; [exact Hin|].
  exact (customer_identity_is_permanent 0 store_a (20 * MINUTE) store_b customer_a Hev Hin).
Defined.

(** X9. The message table is append-only: whatever events are processed,
    the rows present before are still there, in the same order and before
    the new rows, and nothing of them has changed except possibly [status]
    and [updated_at]. *)
Theorem messages_are_append_only t d t' d' :
  evolves t d t' d' ->
  exists old new, messages d' = old ++ new /\
                  Forall2 same_message_content (messages d) old.
Proof.
  intros Hev. induction Hev as [|t1 d1 t2 e Hev IH Hle].
  - exists (messages d), []. rewrite app_nil_r.
    split; auto using Forall2_same_content_refl.
  - destruct IH as (old1 & new1 & E1 & F1).
    destruct (messages_kept_step t2 d1 _ (apply_event_shape t2 e d1))
      as (old2 & new2 & E2 & F2).
    rewrite E1 in F2. apply Forall2_app_inv_l in F2.
    destruct F2 as (o1 & o2 & G1 & G2 & ->).
    exists o1, (o2 ++ new2). rewrite E2, app_assoc. split; auto.
    eapply Forall2_same_content_trans; eauto.
Qed.

Lemma messages_are_append_only_witness :
  evolves 0 store_a (20 * MINUTE) store_b /\
  exists old new, messages store_b = old ++ new /\
                  Forall2 same_message_content (messages store_a) old.
Proof.
  assert (Hev : evolves 0 store_a (20 * MINUTE) store_b).
  { apply (evolves_step 0 store_a 0 store_a (20 * MINUTE)
                        (EvMessage (sample_message "B" 1200)) (evolves_refl 0 store_a)).
    unfold MINUTE. lia. }
  split; [exact Hev|].
  exact (messages_are_append_only 0 store_a (20 * MINUTE) store_b Hev).
Defined.

(** X10. A closed session is frozen: once a session of a store built by the
    service is inactive, no later event changes its row; in particular it is
    never reopened and never receives another message. *)
Theorem closed_session_is_frozen t d t' d' s :
  reachable t d -> evolves t d t' d' ->
  In s (chat_sessions d) -> ChatSession.is_active s = false ->
  In s (chat_sessions d').
Proof.
  intros Hr Hev Hin Hc. induction Hev as [|t1 d1 t2 e Hev IH Hle]; auto.
  apply (closed_session_kept_step t1 t2 d1 _ s); auto.
  - apply (evolves_wf Hev (reachable_wf Hr)).
  - apply apply_event_shape.
Qed.

Lemma closed_session_is_frozen_witness :
  reachable (40 * MINUTE) store_c /\
  evolves (40 * MINUTE) store_c (50 * MINUTE) store_d /\
  In closed_session_c (chat_sessions store_c) /\
  ChatSession.is_active closed_session_c = false /\
  In closed_session_c (chat_sessions store_d).
Proof.
  assert (Hev : evolves (40 * MINUTE) store_c (50 * MINUTE) store_d).
  { apply (evolves_step (40 * MINUTE) store_c (40 * MINUTE) store_c (50 * MINUTE)
                        (EvMessage (sample_message "D" 3000))
                        (evolves_refl (40 * MINUTE) store_c)).
    unfold MINUTE. lia. }
  assert (Hin : In closed_session_c (chat_sessions store_c)) by (left; reflexivity).
  split; [exact reachable_store_c|]. split; [exact Hev|]. split; [exact Hin|].
  split; [reflexivity|].
  exact (closed_session_is_frozen (40 * MINUTE) store_c (50 * MINUTE) store_d
                                  closed_session_c reachable_store_c Hev Hin eq_refl).
Defined.

(** ** Phone numbers *)

Lemma length_append (s t : string) :
  String.length (s ++ t) = (String.length s + String.length t)%nat.
Proof. induction s as [|c s IH]; simpl; auto. Qed.

Lemma substring_all (s : string) : substring 0 (String.length s) s = s.
Proof. induction s as [|c s IH]; simpl; auto. rewrite IH. reflexivity. Qed.

Lemma substring_append_head (s t : string) :
  substring 0 (String.length s) (s ++ t) = s.
Proof.
  induction s as [|c s IH]; simpl.
  - destruct t; reflexivity.
  - rewrite IH. reflexivity.
Qed.

Lemma substring_append_tail (s t : string) (n : nat) :
  substring (String.length s) n (s ++ t) = substring 0 n t.
Proof. induction s as [|c s IH]; simpl; auto. Qed.

Lemma substring_split (n : nat) (s : string) :
  (n <= String.length s)%nat ->
  (substring 0 n s ++ substring n (String.length s - n) s)%string = s.
Proof.
  revert s. induction n as [|n IH]; intros s Hn.
  - rewrite Nat.sub_0_r, substring_all. destruct s; reflexivity.
  - destruct s as [|c s]; simpl in *; [lia|].
    rewrite IH by lia. reflexivity.
Qed.

Lemma extractPhoneNumber_suffix (s suffix : string) :
  suffix = "@c.us" \/ suffix = "@g.us" ->
  extractPhoneNumber (s ++ suffix) = s.
Proof.
  intros Hs. unfold extractPhoneNumber.
  assert (Hl : String.length suffix = 5%nat) by (destruct Hs; subst; reflexivity).
  rewrite length_append, Hl.
  replace (String.length s + 5 - 5)%nat with (String.length s) by lia.
  rewrite substring_append_tail, <- Hl, substring_all, substring_append_head.
  replace (String.length suffix <=? String.length s + String.length suffix)%nat with true
    by (symmetry; apply Nat.leb_le; lia).
  destruct Hs; subst; reflexivity.
Qed.

(** X1. [extractPhoneNumber] removes one final "@c.us" or "@g.us" and nothing
    else: a string that ends with neither is returned as it is. *)
Theorem extractPhoneNumber_strips_suffix :
  (forall s, extractPhoneNumber (s ++ "@c.us") = s) /\
  (forall s, extractPhoneNumber (s ++ "@g.us") = s) /\
  (forall waId,
     (forall s, waId <> (s ++ "@c.us")%string) ->
     (forall s, waId <> (s ++ "@g.us")%string) ->
     extractPhoneNumber waId = waId).
Proof.
  split; [|split].
  - intros s. apply extractPhoneNumber_suffix. auto.
  - intros s. apply extractPhoneNumber_suffix. auto.
  - intros waId Hc Hg. unfold extractPhoneNumber.
    destruct (5 <=? String.length waId)%nat eqn:Hn; simpl; auto.
    apply Nat.leb_le in Hn.
    pose proof (substring_split (String.length waId - 5) waId) as Hsplit.
    replace (String.length waId - (String.length waId - 5))%nat with 5%nat in Hsplit by lia.
    destruct (String.eqb_spec (substring (String.length waId - 5) 5 waId) "@c.us") as [E|_].
    + exfalso. apply (Hc (substring 0 (String.length waId - 5) waId)).
      rewrite <- E. symmetry. apply Hsplit. lia.
    + destruct (String.eqb_spec (substring (String.length waId - 5) 5 waId) "@g.us") as [E|_];
        simpl; auto.
      exfalso. apply (Hg (substring 0 (String.length waId - 5) waId)).
      rewrite <- E. symmetry. apply Hsplit. lia.
Qed.

(** ** The outcome of [handleIncomingMessage] *)

(** X2. On a store built by the service that has room left in its
    sequences and counters, and for a payload whose values the columns take,
    what [handleIncomingMessage] answers is decided by three facts: a message
    is stored when its [fromMe] is not true and its sender number has at
    least ten characters; the call fails exactly when such a message carries
    an external id that is already stored, always with the same wrapped
    unique-constraint error; a message that is not stored leaves the store,
    sequences included, as it was; a stored one adds exactly one message
    row. *)
Theorem handleIncomingMessage_outcome t payload now d :
  reachable t d -> has_room d -> storable payload ->
  let stored := negb (truthy_flag (WahaMessagePayload.fromMe payload)) &&
                valid_phone (extractPhoneNumber (WahaMessagePayload.from payload)) in
  let duplicate := existsb (has_waha_id (WahaMessagePayload.id payload)) (messages d) in
  let r := handleIncomingMessage payload now d in
  fst r = (if stored && duplicate then Throw duplicate_error else Ok tt) /\
  (if stored
   then if duplicate
        then same_tables d (snd r)
        else exists m, messages (snd r) = messages d ++ [m] /\
                       Message.waha_message_id m = WahaMessagePayload.id payload
   else snd r = d).
Proof.
  intros _ _ _. cbv zeta.
  destruct (handleIncomingMessage_cases payload now d)
    as [[Hskip ->]|[(Hme & Hv & Hdup & Hr & Hsame & _)|(Hme & Hv & Hnew & Hr & cust & sess & Hing)]].
  - assert (E : negb (truthy_flag (WahaMessagePayload.fromMe payload)) &&
                valid_phone (extractPhoneNumber (WahaMessagePayload.from payload)) = false).
    { destruct Hskip as [->| ->]; [reflexivity|apply andb_false_r]. }
    rewrite E. simpl. auto.
  - rewrite Hme, Hv, Hdup. simpl. auto.
  - rewrite Hme, Hv, Hnew. simpl. split; auto.
    destruct Hing as (l1 & seq1 & l2 & seq2 & _ & _ & ->). simpl.
    eexists. split; reflexivity.
Qed.

Lemma has_room_store_a : has_room store_a.
Proof.
  unfold has_room, INTEGER_MAX. simpl.
  split; [lia|]. split; [lia|]. split; [lia|]. split.
  - intros c [<-|[]]. simpl. lia.
  - intros s [<-|[]]. simpl. lia.
Defined.

Lemma storable_sample wahaMessageId :
  fits 255 wahaMessageId -> storable (sample_message wahaMessageId 1200).
Proof.
  intros H. unfold storable, in_TIMESTAMP. simpl.
  repeat split; try reflexivity; try exact H; lia.
Defined.

Lemma handleIncomingMessage_outcome_witness :
  (reachable 0 store_a /\ has_room store_a /\ storable (sample_message "B" 1200)) /\
  fst (handleIncomingMessage (sample_message "B" 1200) (20 * MINUTE) store_a) = Ok tt /\
  exists m, messages store_b = messages store_a ++ [m] /\ Message.waha_message_id m = "B".
Proof.
  assert (H : storable (sample_message "B" 1200)) by (apply storable_sample; reflexivity).
  split; [split; [exact reachable_store_a|split; [exact has_room_store_a|exact H]]|].
  exact (handleIncomingMessage_outcome 0 (sample_message "B" 1200) (20 * MINUTE) store_a
           reachable_store_a has_room_store_a H).
Defined.

(** ** Sorting in descending order *)

Lemma insert_desc_perm {A} (key : A -> Z) (x : A) (l : list A) :
  Permutation (insert_desc key x l) (x :: l).
Proof.
  induction l as [|y r IH]; simpl; auto.
  destruct (key y <=? key x); auto.
  rewrite IH. apply perm_swap.
Qed.

Lemma sort_desc_perm {A} (key : A -> Z) (l : list A) :
  Permutation (sort_desc key l) l.
Proof.
  induction l as [|x r IH]; simpl; auto.
  rewrite insert_desc_perm. auto.
Qed.

Lemma sort_desc_in {A} (key : A -> Z) (l : list A) (x : A) :
  In x (sort_desc key l) <-> In x l.
Proof.
  split; apply Permutation_in; [|symmetry]; apply sort_desc_perm.
Qed.

Lemma insert_desc_descending {A} (key : A -> Z) (x : A) (l : list A) :
  descending key l -> descending key (insert_desc key x l).
Proof.
  induction l as [|y r IH]; simpl; intros Hd.
  - split; auto. intros ? [].
  - destruct Hd as (Hy & Hr). destruct (key y <=? key x) eqn:E.
    + apply Z.leb_le in E. simpl. split; [|split; auto].
      intros z [<-|Hz]; auto. specialize (Hy _ Hz). lia.
    + apply Z.leb_gt in E. simpl. split; auto.
      intros z Hz. apply (Permutation_in _ (insert_desc_perm key x r)) in Hz.
      destruct Hz as [<-|Hz]; auto. lia.
Qed.

Lemma sort_desc_descending {A} (key : A -> Z) (l : list A) :
  descending key (sort_desc key l).
Proof.
  induction l as [|x r IH]; simpl; auto using insert_desc_descending.
Qed.

Lemma descending_firstn {A} (key : A -> Z) (k : nat) (l : list A) :
  descending key l -> descending key (firstn k l).
Proof.
  revert l. induction k as [|k IH]; intros [|x r]; simpl; auto.
  intros (Hx & Hr). split; auto.
  intros y Hy. apply Hx. apply (firstn_in k r y Hy).
Qed.

Lemma descending_cut {A} (key : A -> Z) (k : nat) (l : list A) (x y : A) :
  descending key l -> In x (firstn k l) -> In y (skipn k l) -> key y <= key x.
Proof.
  revert l. induction k as [|k IH]; intros [|z r]; simpl; try tauto.
  intros (Hz & Hr) [<-|Hx] Hy.
  - apply Hz. rewrite <- (firstn_skipn k r). apply in_or_app. auto.
  - eapply IH; eauto.
Qed.

Lemma firstn_all_of_short {A} (k : nat) (l : list A) :
  (List.length (firstn k l) < k)%nat -> firstn k l = l.
Proof.
  intros H. apply firstn_all2.
  destruct (Nat.le_gt_cases (List.length l) k) as [Hle|Hgt]; auto.
  rewrite firstn_length_le in H by lia. lia.
Qed.

(** ** Customers due for segmentation *)

Lemma bigint_parameter_inject n :
  - 2 ^ 63 <= n < 2 ^ 63 -> bigint_parameter (Finite (inject_Z n)) = Ok n.
Proof.
  intros Hn. unfold bigint_parameter, inject_Z. cbn [Qnum Qden].
  rewrite Z.mod_1_r, Z.div_1_r. cbn [Z.eqb].
  replace (- 2 ^ 63 <=? n) with true by (symmetry; apply Z.leb_le; lia).
  replace (n <? 2 ^ 63) with true by (symmetry; apply Z.ltb_lt; lia).
  reflexivity.
Qed.

Lemma bigint_parameter_ok limit n :
  bigint_parameter limit = Ok n ->
  - 2 ^ 63 <= n < 2 ^ 63 /\ same_value_zero limit (Finite (inject_Z n)) = true.
Proof.
  unfold bigint_parameter. destruct limit as [|b|q]; try discriminate.
  destruct (Qnum q mod Z.pos (Qden q) =? 0) eqn:Hint; [|discriminate].
  destruct (- 2 ^ 63 <=? Qnum q / Z.pos (Qden q)) eqn:H1;
    destruct (Qnum q / Z.pos (Qden q) <? 2 ^ 63) eqn:H2; cbn [andb];
    try (destruct (Z.abs _ <? 10 ^ 21); discriminate).
  intros [= <-]. apply Z.leb_le in H1. apply Z.ltb_lt in H2. split; [lia|].
  cbn [same_value_zero]. apply Qeq_bool_iff. unfold Qeq, inject_Z. cbn [Qnum Qden].
  apply Z.eqb_eq in Hint. apply Z.mod_divide in Hint; [|lia].
  destruct Hint as (k & Hk). rewrite Hk, Z.div_mul by lia. lia.
Qed.

Lemma bigint_parameter_throw limit e :
  bigint_parameter limit = Throw e -> exists detail, e = PgError detail.
Proof.
  unfold bigint_parameter. destruct limit as [|b|q]; try (intros [= <-]; eauto; fail).
  destruct (Qnum q mod Z.pos (Qden q) =? 0); [|intros [= <-]; eauto].
  destruct (_ && _); [discriminate|].
  destruct (Z.abs _ <? 10 ^ 21); intros [= <-]; eauto.
Qed.

Lemma getCustomersForSegmentation_eq limit now d :
  getCustomersForSegmentation limit now d =
  match bigint_parameter (match limit with Some n => n | None => Finite 50 end) with
  | Throw e =>
      (Throw (WhatsAppServiceError "Failed to retrieve customers for segmentation"
                (DatabaseServiceError "Query execution failed" e)), d)
  | Ok n =>
      if n <? 0
      then (Throw (WhatsAppServiceError "Failed to retrieve customers for segmentation"
                     (DatabaseServiceError "Query execution failed"
                        (PgError "LIMIT must not be negative"))), d)
      else (Ok (firstn (Z.to_nat n)
                  (sort_desc Customer.last_message_at
                     (filter (needs_segmentation now) (customers d)))), d)
  end.
Proof.
  unfold getCustomersForSegmentation, catch, query, select_customers_for_segmentation, throw.
  destruct (bigint_parameter _) as [n|e]; auto.
  destruct (n <? 0); auto.
Qed.

Lemma getCustomersForSegmentation_rows limit now d rows :
  fst (getCustomersForSegmentation limit now d) = Ok rows ->
  forall c, In c rows -> In c (customers d) /\ needs_segmentation now c = true.
Proof.
  rewrite getCustomersForSegmentation_eq.
  destruct (bigint_parameter _) as [n|e]; [|discriminate].
  destruct (n <? 0); [discriminate|]. simpl. intros [= <-] c Hin.
  apply firstn_in, sort_desc_in, filter_In in Hin. exact Hin.
Qed.

(** X11. With a limit [n] that is a natural number, [getCustomersForSegmentation]
    answers without changing the store.  It returns at most [n] rows; each is
    a customer of the store that has at least 3 in [total_messages] and
    either no segment or a segment set more than seven days ago; the rows are
    ordered by [last_message_at], latest first; an eligible customer that is
    left out was not active later than any customer returned; and when fewer
    than [n] rows come back, no eligible customer is left out.  Without an
    argument the limit is 50. *)
Theorem getCustomersForSegmentation_selects n now d :
  0 <= n < 2 ^ 63 ->
  exists rows,
    getCustomersForSegmentation (Some (Finite (inject_Z n))) now d = (Ok rows, d) /\
    (n = 50 -> getCustomersForSegmentation None now d = (Ok rows, d)) /\
    Z.of_nat (List.length rows) <= n /\
    (forall c, In c rows -> In c (customers d) /\ needs_segmentation now c = true) /\
    descending Customer.last_message_at rows /\
    (forall c c', In c rows -> In c' (customers d) -> needs_segmentation now c' = true ->
                  ~ In c' rows ->
                  Customer.last_message_at c' <= Customer.last_message_at c) /\
    (Z.of_nat (List.length rows) < n ->
     forall c, In c (customers d) -> needs_segmentation now c = true -> In c rows).
Proof.
  intros Hn.
  set (sorted := sort_desc Customer.last_message_at
                           (filter (needs_segmentation now) (customers d))).
  exists (firstn (Z.to_nat n) sorted).
  assert (Hok : getCustomersForSegmentation (Some (Finite (inject_Z n))) now d =
                (Ok (firstn (Z.to_nat n) sorted), d)).
  { rewrite getCustomersForSegmentation_eq, bigint_parameter_inject by lia.
    replace (n <? 0) with false by (symmetry; apply Z.ltb_ge; lia). reflexivity. }
  assert (Hsorted : forall c, In c sorted <->
                              In c (customers d) /\ needs_segmentation now c = true).
  { intros c. unfold sorted. rewrite sort_desc_in, filter_In. tauto. }
  split; [exact Hok|]. split; [|split; [|split; [|split; [|split]]]].
  - intros ->. exact Hok.
  - pose proof (firstn_le_length (Z.to_nat n) sorted).
    rewrite length_firstn. lia.
  - intros c Hin. apply Hsorted. apply (firstn_in _ _ _ Hin).
  - apply descending_firstn. apply sort_desc_descending.
  - intros c c' Hc Hc' Hneed Hout.
    apply (descending_cut Customer.last_message_at (Z.to_nat n) sorted c c'); auto.
    + apply sort_desc_descending.
    + assert (Hin : In c' sorted) by (apply Hsorted; auto).
      rewrite <- (firstn_skipn (Z.to_nat n) sorted) in Hin.
      apply in_app_or in Hin. tauto.
  - intros Hshort c Hc Hneed.
    rewrite firstn_all_of_short by lia. apply Hsorted. auto.
Qed.

Lemma getCustomersForSegmentation_selects_witness :
  0 <= 50 < 2 ^ 63 /\
  exists rows,
    getCustomersForSegmentation (Some (Finite (inject_Z 50))) (40 * MINUTE) store_b
      = (Ok rows, store_b) /\
    (50 = 50 -> getCustomersForSegmentation None (40 * MINUTE) store_b = (Ok rows, store_b)) /\
    Z.of_nat (List.length rows) <= 50 /\
    (forall c, In c rows ->
               In c (customers store_b) /\ needs_segmentation (40 * MINUTE) c = true) /\
    descending Customer.last_message_at rows /\
    (forall c c', In c rows -> In c' (customers store_b) ->
                  needs_segmentation (40 * MINUTE) c' = true -> ~ In c' rows ->
                  Customer.last_message_at c' <= Customer.last_message_at c) /\
    (Z.of_nat (List.length rows) < 50 ->
     forall c, In c (customers store_b) -> needs_segmentation (40 * MINUTE) c = true ->
               In c rows).
Proof.
  assert (H : 0 <= 50 < 2 ^ 63) by (split; [discriminate|reflexivity]).
  split; [exact H|].
  exact (getCustomersForSegmentation_selects 50 (40 * MINUTE) store_b H).
Defined.

(** X12. A limit that is not a natural number makes
    [getCustomersForSegmentation] fail, with the storage error wrapped twice
    and the store unchanged: a negative limit is an error rather than an
    empty answer, and so are [NaN], the infinities and fractions. *)
Theorem getCustomersForSegmentation_rejects now d :
  (forall n, - 2 ^ 63 <= n < 0 ->
     getCustomersForSegmentation (Some (Finite (inject_Z n))) now d =
     (Throw (WhatsAppServiceError "Failed to retrieve customers for segmentation"
               (DatabaseServiceError "Query execution failed"
                  (PgError "LIMIT must not be negative"))), d)) /\
  (forall limit,
     (forall n, 0 <= n < 2 ^ 63 -> ~ same_value_zero limit (Finite (inject_Z n)) = true) ->
     exists e, getCustomersForSegmentation (Some limit) now d =
               (Throw (WhatsAppServiceError "Failed to retrieve customers for segmentation"
                         (DatabaseServiceError "Query execution failed" (PgError e))), d)).
Proof.
  split.
  - intros n Hn. rewrite getCustomersForSegmentation_eq, bigint_parameter_inject by lia.
    replace (n <? 0) with true by (symmetry; apply Z.ltb_lt; lia). reflexivity.
  - intros limit Hno. rewrite getCustomersForSegmentation_eq.
    destruct (bigint_parameter limit) as [n|e] eqn:E.
    + destruct (bigint_parameter_ok limit n E) as (Hn & Hs).
      destruct (n <? 0) eqn:Hneg; eauto.
      apply Z.ltb_ge in Hneg. exfalso. apply (Hno n); auto. lia.
    + destruct (bigint_parameter_throw limit e E) as (detail & ->). eauto.
Qed.

Lemma updateCustomerSegment_store customerId seg now d log :
  fst (snd (updateCustomerSegment (Finite (inject_Z customerId)) seg now (d, log))) =
  snd (update_customer_segment seg customerId now d).
Proof.
  unfold updateCustomerSegment, io_catch, databaseService_query, with_integer.
  rewrite integer_parameter_inject. reflexivity.
Qed.

(** X13. A customer whose segment [updateCustomerSegment] has just set at
    time [t] is not returned by [getCustomersForSegmentation] as long as no
    more than seven days have passed since [t]. *)
Theorem segmented_customer_waits_seven_days customerId seg t d log limit now rows :
  now <= t + SEVEN_DAYS ->
  fst (getCustomersForSegmentation limit now
         (fst (snd (updateCustomerSegment (Finite (inject_Z customerId)) seg t (d, log)))))
    = Ok rows ->
  forall c, In c rows -> Customer.id c <> customerId.
Proof.
  intros Hnow Hrows c Hin Hid.
  rewrite updateCustomerSegment_store in Hrows.
  destruct (getCustomersForSegmentation_rows _ _ _ _ Hrows c Hin) as (Hc & Hneed).
  simpl in Hc. apply in_map_iff in Hc. destruct Hc as (c0 & Hc0 & _).
  destruct (Customer.id c0 =? customerId) eqn:E.
  - subst c. unfold needs_segmentation in Hneed. simpl in Hneed.
    apply andb_true_iff in Hneed. destruct Hneed as (Hold & _).
    apply Z.ltb_lt in Hold. lia.
  - subst c. apply Z.eqb_neq in E. auto.
Qed.

Lemma segmented_customer_waits_seven_days_witness :
  40 * MINUTE <= 20 * MINUTE + SEVEN_DAYS /\
  fst (getCustomersForSegmentation None (40 * MINUTE)
         (fst (snd (updateCustomerSegment (Finite (inject_Z 1)) "VIP_CUSTOMER"
                                          (20 * MINUTE) (store_b, [])))))
    = Ok [] /\
  forall c, In c [] -> Customer.id c <> 1.
Proof.
  assert (H1 : 40 * MINUTE <= 20 * MINUTE + SEVEN_DAYS) by discriminate.
  assert (H2 : fst (getCustomersForSegmentation None (40 * MINUTE)
                      (fst (snd (updateCustomerSegment (Finite (inject_Z 1)) "VIP_CUSTOMER"
                                                       (20 * MINUTE) (store_b, [])))))
               = Ok []) by reflexivity.
  split; [exact H1|]. split; [exact H2|].
  exact (segmented_customer_waits_seven_days 1 "VIP_CUSTOMER" (20 * MINUTE) store_b []
                                             None (40 * MINUTE) [] H1 H2).
Defined.

(** X14. In a store built by the service, [total_messages >= 3] holds of a
    customer exactly when two messages of the customer are stored: a
    customer without a segment is due for segmentation from the second
    message on. *)
Theorem segmentation_threshold_is_two_messages t d now c :
  reachable t d -> In c (customers d) -> Customer.segment c = None ->
  (needs_segmentation now c = true <->
   (2 <= List.length (filter (message_of_customer (Customer.id c)) (messages d)))%nat).
Proof.
  intros Hr Hin Hseg.
  pose proof (customer_total _ _ (reachable_consistent Hr) c Hin) as Htotal.
  unfold needs_segmentation. rewrite Hseg. cbn [andb].
  rewrite Z.leb_le. lia.
Qed.

Lemma segmentation_threshold_is_two_messages_witness :
  reachable (20 * MINUTE) store_b /\ In customer_b (customers store_b) /\
  Customer.segment customer_b = None /\
  (needs_segmentation (40 * MINUTE) customer_b = true <->
   (2 <= List.length (filter (message_of_customer (Customer.id customer_b))
                             (messages store_b)))%nat).
Proof.
  assert (Hin : In customer_b (customers store_b)) by (left; reflexivity).
  split; [exact reachable_store_b|]. split; [exact Hin|]. split; [reflexivity|].
  exact (segmentation_threshold_is_two_messages (20 * MINUTE) store_b (40 * MINUTE)
           customer_b reachable_store_b Hin eq_refl).
Defined.

(** ** Segment statistics *)

Lemma own_property_count_segment k s g :
  own_property k (count_segment s g) =
  if (s =? k)%string
  then Some (match own_property s g with Some n => n | None => 0 end + 1)
  else own_property k g.
Proof.
  induction g as [|[s0 n] r IH]; simpl.
  - destruct (String.eqb_spec s k); reflexivity.
  - destruct (String.eqb_spec s0 s) as [->|Hne]; simpl.
    + destruct (String.eqb_spec s k); reflexivity.
    + rewrite IH. destruct (String.eqb_spec s0 k) as [->|Hk].
      * destruct (String.eqb_spec s k); [congruence|reflexivity].
      * reflexivity.
Qed.

Lemma keys_count_segment k s g :
  In k (map fst (count_segment s g)) -> k = s \/ In k (map fst g).
Proof.
  induction g as [|[s0 n] r IH]; simpl.
  - intros [<-|[]]. auto.
  - destruct (String.eqb_spec s0 s) as [->|Hne]; simpl.
    + tauto.
    + intros [<-|H]; auto. apply IH in H. tauto.
Qed.

Lemma NoDup_count_segment s g :
  NoDup (map fst g) -> NoDup (map fst (count_segment s g)).
Proof.
  induction g as [|[s0 n] r IH]; simpl; intros Hnd.
  - constructor; [intros []|constructor].
  - inversion Hnd as [|? ? Hx Hr]; subst.
    destruct (String.eqb_spec s0 s) as [->|Hne]; simpl.
    + constructor; auto.
    + constructor; auto. intros Hin. apply keys_count_segment in Hin.
      destruct Hin as [->|Hin]; auto.
Qed.

Lemma NoDup_groups l : forall g,
  NoDup (map fst g) -> NoDup (map fst (fold_left tally l g)).
Proof.
  induction l as [|c l IH]; simpl; intros g Hg; auto.
  apply IH. unfold tally. destruct (Customer.segment c); auto using NoDup_count_segment.
Qed.

Lemma own_property_groups k l : forall g,
  own_property k (fold_left tally l g) =
  let n := Z.of_nat (List.length (filter (labelled k) l)) in
  match own_property k g with
  | Some m => Some (m + n)
  | None => if n =? 0 then None else Some n
  end.
Proof.
  induction l as [|c l IH]; intros g; cbn [fold_left filter].
  - simpl. destruct (own_property k g); auto. f_equal. lia.
  - rewrite IH. cbn zeta.
    set (n := Z.of_nat (List.length (filter (labelled k) l))).
    assert (Hn : 0 <= n) by (unfold n; lia).
    unfold tally, labelled. destruct (Customer.segment c) as [s|].
    + rewrite own_property_count_segment.
      destruct (String.eqb_spec s k) as [->|Hne].
      * cbn [List.length]. rewrite Nat2Z.inj_succ. fold (labelled k). fold n.
        destruct (own_property k g) as [m|].
        -- f_equal. lia.
        -- destruct (Z.eqb_spec (Z.succ n) 0); [lia|]. f_equal. lia.
      * fold (labelled k). fold n. reflexivity.
    + fold (labelled k). fold n. reflexivity.
Qed.

Lemma own_property_in k v (g : Record_string_number) :
  NoDup (map fst g) -> (own_property k g = Some v <-> In (k, v) g).
Proof.
  induction g as [|[k0 v0] r IH]; simpl; intros Hnd.
  - split; [discriminate|tauto].
  - inversion Hnd as [|? ? Hx Hr]; subst.
    destruct (String.eqb_spec k0 k) as [->|Hne].
    + split.
      * intros [= ->]. auto.
      * intros [[= ->]|Hin]; auto.
        exfalso. apply Hx. apply (in_map fst _ _ Hin).
    + rewrite (IH Hr). split; auto.
      intros [[= -> ->]|Hin]; [congruence|auto].
Qed.

Lemma own_property_perm k (g g' : Record_string_number) :
  NoDup (map fst g) -> Permutation g g' -> own_property k g = own_property k g'.
Proof.
  intros Hnd Hp.
  assert (Hnd' : NoDup (map fst g')).
  { apply (Permutation_NoDup (Permutation_map fst Hp) Hnd). }
  destruct (own_property k g) as [v|] eqn:E.
  - symmetry. apply own_property_in; auto.
    apply (Permutation_in _ Hp). apply own_property_in; auto.
  - destruct (own_property k g') as [v'|] eqn:E'; auto.
    apply own_property_in in E'; auto.
    apply (Permutation_in _ (Permutation_sym Hp)) in E'.
    apply own_property_in in E'; auto. congruence.
Qed.

Lemma own_property_set_property k key value acc :
  own_property k (set_property key value acc) =
  if (key =? k)%string then Some value else own_property k acc.
Proof.
  induction acc as [|[k0 v0] r IH]; simpl.
  - reflexivity.
  - destruct (String.eqb_spec k0 key) as [->|Hne]; simpl.
    + destruct (String.eqb_spec key k); reflexivity.
    + rewrite IH. destruct (String.eqb_spec k0 k) as [->|Hk]; auto.
      destruct (String.eqb_spec key k); [congruence|reflexivity].
Qed.

Lemma own_property_assigned k rows : forall acc,
  NoDup (map fst rows) ->
  own_property k (fold_left (fun acc row => assign (fst row) (snd row) acc) rows acc) =
  if (k =? "__proto__")%string then own_property k acc
  else match own_property k rows with
       | Some v => Some v
       | None => own_property k acc
       end.
Proof.
  induction rows as [|[k1 v1] r IH]; intros acc Hnd; cbn [fold_left fst snd].
  - simpl. destruct (k =? "__proto__")%string; reflexivity.
  - inversion Hnd as [|? ? Hx Hr]; subst. rewrite (IH _ Hr).
    destruct (String.eqb_spec k "__proto__") as [->|Hproto].
    + unfold assign. destruct (String.eqb_spec k1 "__proto__") as [->|Hne]; auto.
      rewrite own_property_set_property.
      destruct (String.eqb_spec k1 "__proto__"); [congruence|reflexivity].
    + cbn [own_property]. destruct (String.eqb_spec k1 k) as [->|Hne].
      * assert (Hnone : own_property k r = None).
        { destruct (own_property k r) as [v|] eqn:E; auto.
          apply own_property_in in E; auto.
          exfalso. apply Hx. apply (in_map fst _ _ E). }
        rewrite Hnone. unfold assign.
        destruct (String.eqb_spec k "__proto__"); [congruence|].
        rewrite own_property_set_property, String.eqb_refl. reflexivity.
      * destruct (own_property k r); auto. unfold assign.
        destruct (k1 =? "__proto__")%string; auto.
        rewrite own_property_set_property.
        destruct (String.eqb_spec k1 k); [congruence|reflexivity].
Qed.

(** X15. [getSegmentationStats] answers without changing the store, and the
    record it returns holds, for every label other than [__proto__], the
    number of customers that carry the label; a label that no customer
    carries has no entry, and a customer without a segment is not counted.
    The label [__proto__] never gets an entry. *)
Theorem getSegmentationStats_counts d :
  exists stats,
    getSegmentationStats d = (Ok stats, d) /\
    (forall seg, seg <> "__proto__" ->
       own_property seg stats =
       let n := Z.of_nat (List.length (filter (labelled seg) (customers d))) in
       if n =? 0 then None else Some n) /\
    own_property "__proto__" stats = None.
Proof.
  set (groups := fold_left tally (customers d) []).
  assert (Hnd : NoDup (map fst groups)) by (apply NoDup_groups; constructor).
  assert (Hp : Permutation (sort_desc snd groups) groups) by apply sort_desc_perm.
  assert (Hnd' : NoDup (map fst (sort_desc snd groups))).
  { apply (Permutation_NoDup (Permutation_map fst (Permutation_sym Hp)) Hnd). }
  eexists. split; [reflexivity|]. split.
  - intros seg Hseg. fold groups. rewrite own_property_assigned by exact Hnd'.
    destruct (String.eqb_spec seg "__proto__"); [congruence|].
    rewrite <- (own_property_perm seg groups (sort_desc snd groups) Hnd (Permutation_sym Hp)).
    unfold groups. rewrite own_property_groups. cbn zeta. simpl own_property.
    destruct (own_property seg (fold_left tally (customers d) [])) eqn:E;
      rewrite own_property_groups in E; simpl in E; rewrite E; reflexivity.
  - fold groups. rewrite own_property_assigned by exact Hnd'. reflexivity.
Qed.

(** ** The most active hours *)

Lemma hour_count_count_hour k h acc :
  hour_count k (count_hour h acc) = hour_count k acc + (if (h =? k)%nat then 1 else 0).
Proof.
  induction acc as [|[h0 n] r IH]; simpl.
  - lia.
  - destruct (Nat.eqb_spec h0 h) as [->|Hne]; simpl.
    + destruct (h =? k)%nat; lia.
    + destruct (h <? h0)%nat; simpl.
      * destruct (Nat.eqb_spec h k), (Nat.eqb_spec h0 k); lia.
      * rewrite IH. lia.
Qed.

Lemma keys_count_hour k h acc :
  In k (map fst (count_hour h acc)) -> k = h \/ In k (map fst acc).
Proof.
  induction acc as [|[h0 n] r IH]; simpl.
  - intros [<-|[]]. auto.
  - destruct (Nat.eqb_spec h0 h) as [->|Hne]; simpl; [intuition auto|].
    destruct (h <? h0)%nat; simpl; [intuition auto|].
    intros [<-|H]; auto. apply IH in H. tauto.
Qed.

Lemma ascending_count_hour h acc :
  ascending_hours acc -> ascending_hours (count_hour h acc).
Proof.
  induction acc as [|[h0 n] r IH]; simpl.
  - intros _. split; auto. intros k [].
  - intros (Hlt & Hr). destruct (Nat.eqb_spec h0 h) as [->|Hne]; simpl; auto.
    destruct (Nat.ltb_spec h h0) as [Hlt0|Hge]; simpl.
    + split; auto. intros k [<-|Hk]; auto. specialize (Hlt _ Hk). lia.
    + split; auto. intros k Hk. apply keys_count_hour in Hk.
      destruct Hk as [->|Hk]; auto. lia.
Qed.

Lemma positive_count_hour h acc :
  (forall e, In e acc -> 0 < snd e) -> forall e, In e (count_hour h acc) -> 0 < snd e.
Proof.
  induction acc as [|[h0 n] r IH]; simpl; intros Hpos e.
  - intros [<-|[]]. simpl. lia.
  - destruct (h0 =? h)%nat; simpl.
    + intros [<-|He]; auto. pose proof (Hpos (h0, n) (or_introl eq_refl)) as H0.
      simpl in *. lia.
    + destruct (h <? h0)%nat; simpl.
      * intros [<-|He]; auto. simpl. lia.
      * intros [<-|He]; auto.
Qed.

Lemma hour_count_absent h acc :
  ~ In h (map fst acc) -> hour_count h acc = 0.
Proof.
  induction acc as [|[h0 n] r IH]; simpl; auto.
  intros Hno. destruct (Nat.eqb_spec h0 h); [tauto|]. rewrite IH; tauto.
Qed.

Lemma hour_count_entry h n acc :
  ascending_hours acc -> In (h, n) acc -> hour_count h acc = n.
Proof.
  induction acc as [|[h0 n0] r IH]; simpl; [tauto|].
  intros (Hlt & Hr) [[= -> ->]|Hin].
  - rewrite Nat.eqb_refl, hour_count_absent; [lia|].
    intros Hk. specialize (Hlt _ Hk). lia.
  - destruct (Nat.eqb_spec h0 h) as [->|Hne].
    + specialize (Hlt h (in_map fst _ _ Hin)). lia.
    + rewrite IH; auto.
Qed.

Lemma hour_count_present h acc :
  ascending_hours acc -> hour_count h acc <> 0 -> In (h, hour_count h acc) acc.
Proof.
  induction acc as [|[h0 n0] r IH]; simpl; [tauto|].
  intros (Hlt & Hr) Hne. destruct (Nat.eqb_spec h0 h) as [->|Hh].
  - left. rewrite hour_count_absent; [f_equal; lia|].
    intros Hk. specialize (Hlt _ Hk). lia.
  - right. apply IH; auto.
Qed.

Lemma ascending_NoDup acc : ascending_hours acc -> NoDup (map fst acc).
Proof.
  induction acc as [|[h0 n0] r IH]; simpl; [constructor|].
  intros (Hlt & Hr). constructor; auto.
  intros Hin. specialize (Hlt _ Hin). lia.
Qed.

Section ActiveHoursFacts.

Variable getHours : Z -> nat.

Lemma messagesByHour_fold l : forall acc,
  ascending_hours acc -> (forall e, In e acc -> 0 < snd e) ->
  let acc' := fold_left (fun acc msg => count_hour (getHours (RecentMessage.timestamp msg)) acc)
                        l acc in
  ascending_hours acc' /\ (forall e, In e acc' -> 0 < snd e) /\
  forall h, hour_count h acc' = hour_count h acc + messages_in_hour getHours h l.
Proof.
  induction l as [|m l IH]; intros acc Ha Hp; cbn [fold_left].
  - repeat split; auto. intros h. unfold messages_in_hour. simpl. lia.
  - destruct (IH (count_hour (getHours (RecentMessage.timestamp m)) acc))
      as (A1 & A2 & A3).
    + apply ascending_count_hour; auto.
    + apply positive_count_hour; auto.
    + cbn zeta. repeat split; auto. intros h. rewrite A3, hour_count_count_hour.
      unfold messages_in_hour. cbn [filter].
      destruct (getHours (RecentMessage.timestamp m) =? h)%nat; cbn [List.length]; lia.
Qed.

Lemma messagesByHour_entries messages :
  ascending_hours (messagesByHour getHours messages) /\
  forall h n, In (h, n) (messagesByHour getHours messages) <->
              n = messages_in_hour getHours h messages /\ 0 < n.
Proof.
  destruct (messagesByHour_fold messages []) as (A1 & A2 & A3); simpl; auto; [tauto|].
  fold (messagesByHour getHours messages) in A1, A2, A3. split; auto.
  intros h n. split.
  - intros Hin. split.
    + rewrite <- (hour_count_entry h n _ A1 Hin). rewrite A3. simpl. lia.
    + apply (A2 _ Hin).
  - intros (-> & Hpos). specialize (A3 h). simpl in A3. rewrite <- A3.
    apply hour_count_present; auto. lia.
Qed.

End ActiveHoursFacts.

Lemma NoDup_firstn {A} (k : nat) (l : list A) : NoDup l -> NoDup (firstn k l).
Proof.
  intros H. rewrite <- (firstn_skipn k l) in H. apply (NoDup_app_remove_r _ _ H).
Qed.

Lemma descending_map {A B} (key : A -> Z) (key' : B -> Z) (f : A -> B) (l : list A) :
  (forall e, In e l -> key' (f e) = key e) ->
  descending key l -> descending key' (map f l).
Proof.
  induction l as [|x r IH]; simpl; auto.
  intros He (Hx & Hr). split.
  - intros y Hy. apply in_map_iff in Hy. destruct Hy as (e & <- & Hin).
    rewrite !He by auto. auto.
  - apply IH; auto.
Qed.

(** X16. The most active hours of the digest are at most three distinct
    hours of the day, each with at least one message, listed by decreasing
    number of messages; no hour left out has more messages than a listed
    one; and when fewer than three are listed, every hour with a message is
    listed. *)
Theorem mostActiveHours_are_the_busiest getHours messages :
  let top := mostActiveHours getHours messages in
  let count := fun h => messages_in_hour getHours h messages in
  (List.length top <= 3)%nat /\
  NoDup top /\
  descending count top /\
  (forall h, In h top -> 0 < count h) /\
  (forall h h', In h top -> ~ In h' top -> count h' <= count h) /\
  ((List.length top < 3)%nat -> forall h, 0 < count h -> In h top).
Proof.
  cbv zeta. unfold mostActiveHours.
  destruct (messagesByHour_entries getHours messages) as (Hasc & Hentries).
  set (entries := messagesByHour getHours messages) in *.
  set (sorted := sort_desc snd entries).
  assert (Hsorted : forall e, In e sorted <-> In e entries)
    by (intros e; apply sort_desc_in).
  assert (Hdesc : descending snd sorted) by apply sort_desc_descending.
  assert (Hkey : forall e, In e (firstn 3 sorted) ->
                           messages_in_hour getHours (fst e) messages = snd e).
  { intros [h n] Hin. apply firstn_in, Hsorted, Hentries in Hin. simpl.
    symmetry. tauto. }
  split; [|split; [|split; [|split; [|split]]]].
  - rewrite length_map, length_firstn. lia.
  - rewrite <- firstn_map. apply NoDup_firstn.
    apply (Permutation_NoDup (Permutation_map fst (Permutation_sym (sort_desc_perm snd entries)))).
    apply ascending_NoDup. exact Hasc.
  - apply (descending_map snd); auto. apply descending_firstn. exact Hdesc.
  - intros h Hin. apply in_map_iff in Hin. destruct Hin as ([h0 n] & <- & Hin).
    apply firstn_in, Hsorted, Hentries in Hin. simpl. destruct Hin as (<- & Hpos). exact Hpos.
  - intros h h' Hin Hout. apply in_map_iff in Hin. destruct Hin as ([h0 n] & <- & Hin).
    rewrite (Hkey _ Hin). simpl.
    assert (Hn : 0 < n) by (apply firstn_in, Hsorted, Hentries in Hin; tauto).
    destruct (Z_lt_le_dec 0 (messages_in_hour getHours h' messages)) as [Hpos|Hzero]; [|lia].
    assert (Hin' : In (h', messages_in_hour getHours h' messages) sorted).
    { apply Hsorted, Hentries. auto. }
    rewrite <- (firstn_skipn 3 sorted) in Hin'. apply in_app_or in Hin'.
    destruct Hin' as [Hfirst|Hrest].
    + exfalso. apply Hout. apply in_map_iff. eexists. split; [|exact Hfirst]. reflexivity.
    + apply (descending_cut snd 3 sorted (h0, n) _ Hdesc Hin Hrest).
  - rewrite length_map. intros Hshort h Hpos.
    rewrite firstn_all_of_short by exact Hshort.
    apply in_map_iff. exists (h, messages_in_hour getHours h messages). split; auto.
    apply Hsorted, Hentries. auto.
Qed.

(** ** The average response time *)

Lemma insert_by_time_sorted m l :
  descending (fun x => - RecentMessage.timestamp x) l ->
  descending (fun x => - RecentMessage.timestamp x) (insert_by_time m l).
Proof.
  induction l as [|y r IH]; simpl; intros Hd.
  - split; auto. intros ? [].
  - destruct Hd as (Hy & Hr).
    destruct (RecentMessage.timestamp m <=? RecentMessage.timestamp y) eqn:E.
    + apply Z.leb_le in E. simpl. split; [|split; auto].
      intros z [<-|Hz]; [lia|]. specialize (Hy _ Hz). simpl in Hy. lia.
    + apply Z.leb_gt in E. simpl. split; auto.
      intros z Hz. apply insert_by_time_in in Hz. destruct Hz as [->|Hz]; auto. lia.
Qed.

Lemma sort_by_time_sorted l :
  descending (fun x => - RecentMessage.timestamp x) (sort_by_time l).
Proof.
  induction l as [|x r IH]; simpl; auto using insert_by_time_sorted.
Qed.

Lemma sorted_pairs_elapsed l pair :
  descending (fun x => - RecentMessage.timestamp x) l ->
  In pair (consecutive_pairs l) -> 0 <= elapsed pair.
Proof.
  induction l as [|a [|b r] IH]; simpl; try tauto.
  intros (Ha & Hb & Hr) [<-|Hin].
  - unfold elapsed. simpl. specialize (Ha b (or_introl eq_refl)). lia.
  - apply IH; simpl; auto.
Qed.

Lemma response_delays_bounds messages lo hi delay :
  (forall m, In m messages -> lo <= RecentMessage.timestamp m <= hi) ->
  In delay (response_delays messages) -> 0 <= delay <= hi - lo.
Proof.
  intros Hb Hin. unfold response_delays in Hin. apply in_map_iff in Hin.
  destruct Hin as (pair & <- & Hin). apply filter_In in Hin. destruct Hin as (Hin & _).
  split.
  - apply (sorted_pairs_elapsed _ _ (sort_by_time_sorted messages) Hin).
  - apply consecutive_pairs_in in Hin. destruct Hin as (H1 & H2).
    apply sort_by_time_in in H1. apply sort_by_time_in in H2.
    apply Hb in H1. apply Hb in H2. unfold elapsed. lia.
Qed.

Lemma sum_Z_bounds l bound :
  (forall x, In x l -> 0 <= x <= bound) ->
  0 <= sum_Z l <= Z.of_nat (List.length l) * bound.
Proof.
  induction l as [|x r IH]; intros H.
  - simpl. lia.
  - assert (Hr : forall y, In y r -> 0 <= y <= bound) by (intros y Hy; apply H; right; auto).
    specialize (IH Hr). specialize (H x (or_introl eq_refl)).
    change (sum_Z (x :: r)) with (x + sum_Z r).
    change (List.length (x :: r)) with (S (List.length r)).
    rewrite Nat2Z.inj_succ. lia.
Qed.

Lemma mean_seconds_bounds l bound :
  l <> [] -> (forall x, In x l -> 0 <= x <= bound) ->
  (0 <= mean_seconds l)%Q /\ (mean_seconds l <= inject_Z bound / inject_Z 1000)%Q.
Proof.
  intros Hne Hb. destruct (sum_Z_bounds l bound Hb) as (H0 & H1).
  assert (Hn : 0 < Z.of_nat (List.length l)) by (destruct l; [congruence|simpl; lia]).
  assert (Hq : (0 < inject_Z (Z.of_nat (List.length l)))%Q).
  { rewrite <- (Zlt_Qlt 0). exact Hn. }
  assert (Hk : (0 <= / inject_Z 1000)%Q) by (apply Qinv_le_0_compat; discriminate).
  unfold mean_seconds. split.
  - unfold Qdiv. apply Qmult_le_0_compat; auto.
    apply Qmult_le_0_compat.
    + rewrite <- (Zle_Qle 0). exact H0.
    + apply Qinv_le_0_compat. apply Qlt_le_weak. exact Hq.
  - unfold Qdiv at 1 3. apply Qmult_le_compat_r; auto.
    apply Qle_shift_div_r; auto.
    rewrite <- inject_Z_mult, <- Zle_Qle. lia.
Qed.

(** X17. The average response time is never negative, and it is no more
    than the time, in seconds, between the earliest and the latest of the
    messages. *)
Theorem average_response_time_bounds messages lo hi :
  lo <= hi ->
  (forall m, In m messages -> lo <= RecentMessage.timestamp m <= hi) ->
  (0 <= calculateAverageResponseTime messages)%Q /\
  (calculateAverageResponseTime messages <= inject_Z (hi - lo) / inject_Z 1000)%Q.
Proof.
  intros Hle Hb. rewrite calculateAverageResponseTime_spec.
  destruct (response_delays messages) as [|x r] eqn:E.
  - split; [apply Qle_refl|].
    unfold Qdiv. apply Qmult_le_0_compat.
    + rewrite <- (Zle_Qle 0). lia.
    + apply Qinv_le_0_compat. discriminate.
  - apply mean_seconds_bounds; [discriminate|].
    intros d Hd. rewrite <- E in Hd.
    apply (response_delays_bounds messages lo hi d Hb Hd).
Qed.

Lemma average_response_time_bounds_witness :
  0 <= 30000 /\
  (forall m, In m sample_exchange -> 0 <= RecentMessage.timestamp m <= 30000) /\
  (0 <= calculateAverageResponseTime sample_exchange)%Q /\
  (calculateAverageResponseTime sample_exchange <= inject_Z (30000 - 0) / inject_Z 1000)%Q.
Proof.
  assert (H1 : 0 <= 30000) by discriminate.
  assert (H2 : forall m, In m sample_exchange -> 0 <= RecentMessage.timestamp m <= 30000).
  { intros m [<-|[<-|[]]]; simpl; lia. }
  split; [exact H1|]. split; [exact H2|].
  exact (average_response_time_bounds sample_exchange 0 30000 H1 H2).
Defined.

(** ** Reading a conversation history *)

Lemma newest_first_sort_desc l :
  fold_right insert_newest_first [] l = sort_desc Message.timestamp l.
Proof.
  unfold sort_desc. induction l as [|m l IH]; simpl; auto.
  rewrite IH. generalize (fold_right (insert_desc Message.timestamp) [] l).
  intros s. induction s as [|x r IHs]; simpl; auto.
  rewrite IHs. reflexivity.
Qed.

Lemma getCustomerConversationHistory_result n now d log h :
  fst (getCustomerConversationHistory n now (d, log)) = Ok h ->
  exists z customer rest,
    integer_parameter n = Ok z /\
    filter (fun c => Customer.id c =? z) (customers d) = customer :: rest /\
    fst (snd (getCustomerConversationHistory n now (d, log))) = d /\
    customerId h = Customer.id customer /\
    phoneNumber h = Customer.phone_number customer /\
    name h = Customer.name customer /\
    totalMessages h = Customer.total_messages customer /\
    totalSessions h =
      Z.of_nat (List.length (filter (session_of_customer z) (chat_sessions d))) /\
    (totalSessions h <> 0 ->
     avgMessagesPerSession h =
       (inject_Z (sum_Z (map ChatSession.message_count
                             (filter (session_of_customer z) (chat_sessions d))))
        / inject_Z (totalSessions h))%Q) /\
    recentMessages h =
      map recent_row
          (firstn 100
             (sort_desc Message.timestamp
                (filter (fun m => (Message.customer_id m =? z) && has_body m)
                        (messages d)))).
Proof.
  unfold getCustomerConversationHistory, io_catch, io_bind, databaseService_query,
    with_integer.
  destruct (integer_parameter n) as [z|e] eqn:En; simpl.
  2:{ discriminate. }
  destruct (filter (fun c => Customer.id c =? z) (customers d)) as [|customer rest] eqn:Ef;
    simpl.
  { discriminate. }
  intros H. inversion H; subst; clear H. simpl.
  exists z, customer, rest. rewrite newest_first_sort_desc.
  repeat split; auto.
  intros Hne. apply Z.eqb_neq in Hne. unfold session_of_customer in *.
  rewrite Hne. reflexivity.
Qed.

(** X18. A conversation history that [getCustomerConversationHistory]
    returns is a read of one customer: the store is left as it was; the id,
    phone number, name and message total are those of a customer row whose
    id is the parameter; the session total is the number of that customer's
    sessions; the recent messages are at most 100, newest first, each an
    existing message of the customer with a body; and when fewer than 100
    are listed, no message of the customer that has a body is left out. *)
Theorem history_reads_one_customer n now d log h :
  fst (getCustomerConversationHistory n now (d, log)) = Ok h ->
  fst (snd (getCustomerConversationHistory n now (d, log))) = d /\
  (exists c, In c (customers d) /\
     integer_parameter n = Ok (Customer.id c) /\
     customerId h = Customer.id c /\
     phoneNumber h = Customer.phone_number c /\
     name h = Customer.name c /\
     totalMessages h = Customer.total_messages c) /\
  totalSessions h =
    Z.of_nat (List.length (filter (session_of_customer (customerId h)) (chat_sessions d))) /\
  (List.length (recentMessages h) <= 100)%nat /\
  descending RecentMessage.timestamp (recentMessages h) /\
  (forall r, In r (recentMessages h) ->
     exists m, In m (messages d) /\
       Message.customer_id m = customerId h /\
       Message.message_body m = Some (RecentMessage.messageBody r) /\
       Message.timestamp m = RecentMessage.timestamp r /\
       Message.is_from_me m = RecentMessage.isFromMe r) /\
  ((List.length (recentMessages h) < 100)%nat ->
   forall m, In m (messages d) -> Message.customer_id m = customerId h ->
             has_body m = true -> In (recent_row m) (recentMessages h)).
Proof.
  intros Hok.
  destruct (getCustomerConversationHistory_result n now d log h Hok)
    as (z & customer & rest & Hz & Hf & Hd & E1 & E2 & E3 & E4 & E5 & _ & E7).
  assert (Hc : In customer (customers d) /\ Customer.id customer = z).
  { assert (Hin : In customer (filter (fun c => Customer.id c =? z) (customers d)))
      by (rewrite Hf; left; reflexivity).
    apply filter_In in Hin. destruct Hin as (Hin & Hid). apply Z.eqb_eq in Hid. auto. }
  destruct Hc as (Hc & Hid).
  assert (Hrow : forall m,
             In m (sort_desc Message.timestamp
                     (filter (fun m => (Message.customer_id m =? z) && has_body m)
                             (messages d))) <->
             In m (messages d) /\ Message.customer_id m = z /\ has_body m = true).
  { intros m. rewrite sort_desc_in, filter_In, andb_true_iff, Z.eqb_eq. tauto. }
  split; [exact Hd|]. split; [|split; [|split; [|split; [|split]]]].
  - exists customer. rewrite Hid. repeat split; auto; congruence.
  - rewrite E5, E1, Hid. reflexivity.
  - rewrite E7, length_map, length_firstn. lia.
  - rewrite E7. apply (descending_map Message.timestamp); [reflexivity|].
    apply descending_firstn, sort_desc_descending.
  - intros r Hr. rewrite E7 in Hr. apply in_map_iff in Hr. destruct Hr as (m & <- & Hm).
    apply firstn_in, Hrow in Hm. destruct Hm as (Hm & Hcust & Hbody).
    exists m. unfold recent_row. unfold has_body in Hbody.
    destruct (Message.message_body m); [|discriminate].
    simpl. repeat split; auto. congruence.
  - rewrite E7, length_map. intros Hshort m Hm Hcust Hbody.
    apply in_map. rewrite firstn_all_of_short by exact Hshort.
    apply Hrow. repeat split; auto. congruence.
Qed.

Lemma history_reads_one_customer_witness :
  fst (getCustomerConversationHistory (Finite 1) (40 * MINUTE) (store_b, [])) = Ok history_b /\
  fst (snd (getCustomerConversationHistory (Finite 1) (40 * MINUTE) (store_b, []))) = store_b /\
  (exists c, In c (customers store_b) /\
     integer_parameter (Finite 1) = Ok (Customer.id c) /\
     customerId history_b = Customer.id c /\
     phoneNumber history_b = Customer.phone_number c /\
     name history_b = Customer.name c /\
     totalMessages history_b = Customer.total_messages c) /\
  totalSessions history_b =
    Z.of_nat (List.length (filter (session_of_customer (customerId history_b))
                                  (chat_sessions store_b))) /\
  (List.length (recentMessages history_b) <= 100)%nat /\
  descending RecentMessage.timestamp (recentMessages history_b) /\
  (forall r, In r (recentMessages history_b) ->
     exists m, In m (messages store_b) /\
       Message.customer_id m = customerId history_b /\
       Message.message_body m = Some (RecentMessage.messageBody r) /\
       Message.timestamp m = RecentMessage.timestamp r /\
       Message.is_from_me m = RecentMessage.isFromMe r) /\
  ((List.length (recentMessages history_b) < 100)%nat ->
   forall m, In m (messages store_b) -> Message.customer_id m = customerId history_b ->
             has_body m = true -> In (recent_row m) (recentMessages history_b)).
Proof.
  assert (H : fst (getCustomerConversationHistory (Finite 1) (40 * MINUTE) (store_b, []))
              = Ok history_b) by reflexivity.
  split; [exact H|].
  exact (history_reads_one_customer (Finite 1) (40 * MINUTE) store_b [] history_b H).
Defined.

(** ** Sessions and messages of one customer *)

Lemma sum_Z_map_add {A} (a b : A -> Z) (l : list A) :
  sum_Z (map (fun x => a x + b x) l) = sum_Z (map a l) + sum_Z (map b l).
Proof.
  induction l as [|x r IH]; [reflexivity|].
  change (a x + b x + sum_Z (map (fun x => a x + b x) r) =
          a x + sum_Z (map a r) + (b x + sum_Z (map b r))).
  rewrite IH. lia.
Qed.

Lemma sum_Z_map_indicator {A} (q : A -> bool) (l : list A) :
  sum_Z (map (fun x => if q x then 1 else 0) l) = Z.of_nat (List.length (filter q l)).
Proof.
  induction l as [|x r IH]; [reflexivity|].
  change ((if q x then 1 else 0) + sum_Z (map (fun x => if q x then 1 else 0) r) =
          Z.of_nat (List.length (filter q (x :: r)))).
  rewrite IH. cbn [filter]. destruct (q x); cbn [List.length]; lia.
Qed.

Lemma one_session_per_id (p : ChatSession.t -> bool) l s0 :
  NoDup (map ChatSession.id l) -> In s0 l ->
  List.length (filter (fun s => ChatSession.id s0 =? ChatSession.id s) (filter p l)) =
  if p s0 then 1%nat else 0%nat.
Proof.
  induction l as [|x r IH]; simpl; [tauto|].
  intros Hnd Hin. inversion Hnd as [|? ? Hx Hr]; subst.
  destruct Hin as [->|Hin].
  - assert (Hnone : filter (fun s => ChatSession.id s0 =? ChatSession.id s) (filter p r) = []).
    { apply filter_none. intros s Hs. apply filter_In in Hs. destruct Hs as (Hs & _).
      apply Z.eqb_neq. intros E. apply Hx. rewrite E. apply in_map. exact Hs. }
    destruct (p s0); simpl; rewrite ?Z.eqb_refl, Hnone; reflexivity.
  - assert (Hne : (ChatSession.id s0 =? ChatSession.id x) = false).
    { apply Z.eqb_neq. intros E. apply Hx. rewrite <- E. apply in_map. exact Hin. }
    destruct (p x); simpl; rewrite ?Hne; apply IH; auto.
Qed.

Lemma sessions_sum_messages (sessions : list ChatSession.t) (l : list Message.t) z :
  NoDup (map ChatSession.id sessions) ->
  (forall m, In m l ->
     exists s, In s sessions /\ ChatSession.id s = Message.session_id m /\
               ChatSession.customer_id s = Message.customer_id m) ->
  sum_Z (map (fun s => Z.of_nat (List.length
                                   (filter (message_in_session (ChatSession.id s)) l)))
             (filter (session_of_customer z) sessions))
  = Z.of_nat (List.length (filter (message_of_customer z) l)).
Proof.
  intros Hnd. induction l as [|m l IH]; intros Href.
  - simpl. induction (filter (session_of_customer z) sessions); auto.
  - assert (Href' : forall m', In m' l ->
               exists s, In s sessions /\ ChatSession.id s = Message.session_id m' /\
                         ChatSession.customer_id s = Message.customer_id m')
      by (intros m' Hm'; apply Href; right; exact Hm').
    specialize (IH Href').
    destruct (Href m (or_introl eq_refl)) as (s0 & Hs0 & Eid & Ecust).
    rewrite (map_ext _ (fun s =>
               (if ChatSession.id s0 =? ChatSession.id s then 1 else 0) +
               Z.of_nat (List.length (filter (message_in_session (ChatSession.id s)) l)))).
    2:{ intros s. cbn [filter]. unfold message_in_session at 1. rewrite <- Eid.
        destruct (ChatSession.id s0 =? ChatSession.id s); cbn [List.length]; lia. }
    rewrite sum_Z_map_add, IH, sum_Z_map_indicator.
    rewrite (one_session_per_id (session_of_customer z) sessions s0 Hnd Hs0).
    cbn [filter]. unfold session_of_customer, message_of_customer at 2. rewrite Ecust.
    destruct (Message.customer_id m =? z); cbn [List.length]; lia.
Qed.

Lemma customer_sessions_sum t d z :
  reachable t d ->
  sum_Z (map ChatSession.message_count (filter (session_of_customer z) (chat_sessions d)))
  = Z.of_nat (List.length (filter (message_of_customer z) (messages d))).
Proof.
  intros Hr. pose proof (reachable_consistent Hr) as Hc.
  rewrite <- (sessions_sum_messages (chat_sessions d) (messages d) z).
  - f_equal. apply map_ext_in. intros s Hs. apply filter_In in Hs.
    apply (session_count _ _ Hc). tauto.
  - apply (wf_session_nodup _ _ (reachable_wf Hr)).
  - apply (message_has_session _ _ Hc).
Qed.

(** X19. For a store built by the service, the figures of a conversation
    history agree with the session rows up to the extra count of the first
    message: [totalSessions] is the number of the customer's sessions, which
    is at least one, and the [message_count]s of these sessions add up to
    [totalMessages] minus one. *)
Theorem history_sessions_add_up t d n now log h :
  reachable t d ->
  fst (getCustomerConversationHistory n now (d, log)) = Ok h ->
  1 <= totalSessions h /\
  totalSessions h =
    Z.of_nat (List.length (filter (session_of_customer (customerId h)) (chat_sessions d))) /\
  sum_Z (map ChatSession.message_count
             (filter (session_of_customer (customerId h)) (chat_sessions d)))
  = totalMessages h - 1.
Proof.
  intros Hr Hok.
  destruct (getCustomerConversationHistory_result n now d log h Hok)
    as (z & customer & rest & Hz & Hf & _ & E1 & _ & _ & E4 & E5 & _ & _).
  pose proof (reachable_consistent Hr) as Hc.
  assert (Hcust : In customer (customers d) /\ Customer.id customer = z).
  { assert (Hin : In customer (filter (fun c => Customer.id c =? z) (customers d)))
      by (rewrite Hf; left; reflexivity).
    apply filter_In in Hin. destruct Hin as (Hin & Hid). apply Z.eqb_eq in Hid. auto. }
  destruct Hcust as (Hin & Hid).
  rewrite E1, Hid.
  assert (Hone : 1 <= totalSessions h).
  { rewrite E5.
    destruct (customer_has_message _ _ Hc customer Hin) as (m & Hm & Em).
    destruct (message_has_session _ _ Hc m Hm) as (s & Hs & _ & Es).
    assert (Hfs : In s (filter (session_of_customer z) (chat_sessions d))).
    { apply filter_In. split; auto. unfold session_of_customer. apply Z.eqb_eq. congruence. }
    destruct (filter (session_of_customer z) (chat_sessions d)); [destruct Hfs|simpl; lia]. }
  split; [exact Hone|]. split; [exact E5|].
  rewrite (customer_sessions_sum t d z Hr).
  rewrite E4, (customer_total _ _ Hc customer Hin), Hid. lia.
Qed.

Lemma history_sessions_add_up_witness :
  (reachable (20 * MINUTE) store_b /\
   fst (getCustomerConversationHistory (Finite 1) (40 * MINUTE) (store_b, []))
   = Ok history_b) /\
  1 <= totalSessions history_b /\
  totalSessions history_b =
    Z.of_nat (List.length (filter (session_of_customer (customerId history_b))
                                  (chat_sessions store_b))) /\
  sum_Z (map ChatSession.message_count
             (filter (session_of_customer (customerId history_b)) (chat_sessions store_b)))
  = totalMessages history_b - 1.
Proof.
  assert (H : fst (getCustomerConversationHistory (Finite 1) (40 * MINUTE) (store_b, []))
              = Ok history_b) by reflexivity.
  split; [split; [exact reachable_store_b|exact H]|].
  exact (history_sessions_add_up (20 * MINUTE) store_b (Finite 1) (40 * MINUTE) []
                                 history_b reachable_store_b H).
Defined.

(** ** Segmenting a customer *)

Lemma history_keeps_store n now d log :
  fst (snd (getCustomerConversationHistory n now (d, log))) = d.
Proof.
  unfold getCustomerConversationHistory, io_catch, io_bind, databaseService_query,
    with_integer.
  destruct (integer_parameter n) as [z|e]; simpl; auto.
  destruct (filter (fun c => Customer.id c =? z) (customers d)); reflexivity.
Qed.

Lemma parseSegmentationResponse_valid JSON_parse response :
  In (result_segment (parseSegmentationResponse JSON_parse response)) validSegments /\
  (0 <= confidence (parseSegmentationResponse JSON_parse response))%Q /\
  (confidence (parseSegmentationResponse JSON_parse response) <= 1)%Q.
Proof.
  unfold parseSegmentationResponse.
  destruct (parseSegmentationResponse_try JSON_parse response) as [result|e] eqn:E.
  - destruct (parse_try_ok _ _ _ E) as (text & v & _ & _ & _ & Hin & _ & H0 & H1). auto.
  - split; [|split].
    + simpl. auto.
    + discriminate.
    + discriminate.
Qed.

Section SegmentFacts.

Variable JSON_parse : string -> option json.
Variable createSegmentationPrompt : CustomerSegmentationData -> string.
Variable callAnthropicAPI : string -> Result string.

Lemma LLMService_segmentCustomer_cases n now d log :
  let r := LLMService_segmentCustomer JSON_parse createSegmentationPrompt
                                      callAnthropicAPI n now (d, log) in
  (exists result z,
      fst r = Ok result /\ integer_parameter n = Ok z /\
      In (result_segment result) validSegments /\
      (0 <= confidence result)%Q /\ (confidence result <= 1)%Q /\
      (exists c, In c (customers d) /\ Customer.id c = z) /\
      fst (snd r) = snd (update_customer_segment (result_segment result) z now d))
  \/ (exists cause,
      fst r = Throw (LLMServiceError "Failed to segment customer" cause) /\
      fst (snd r) = d).
Proof.
  cbv zeta. unfold LLMService_segmentCustomer, io_catch, io_bind.
  destruct (getCustomerConversationHistory n now (d, log)) as [[h|e] [d1 log1]] eqn:Eh.
  2:{ right. exists e. split; [reflexivity|].
      pose proof (history_keeps_store n now d log) as Hd. rewrite Eh in Hd. exact Hd. }
  destruct (getCustomerConversationHistory_ok _ _ _ _ _ _ Eh)
    as (z & customer & rest & Hz & Hf & Hw & _).
  inversion Hw; subst d1 log1; clear Hw.
  destruct (callAnthropicAPI _) as [response|e].
  2:{ right. exists e. split; reflexivity. }
  left.
  destruct (parseSegmentationResponse_valid JSON_parse response) as (Hin & H0 & H1).
  exists (parseSegmentationResponse JSON_parse response), z.
  unfold updateCustomerSegment, io_catch, databaseService_query, with_integer, io_ret.
  rewrite Hz. simpl. repeat split; auto.
  exists customer. 
  assert (Hc : In customer (filter (fun c => Customer.id c =? z) (customers d)))
    by (rewrite Hf; left; reflexivity).
  apply filter_In in Hc. destruct Hc as (Hc & Hid). apply Z.eqb_eq in Hid. auto.
Qed.

End SegmentFacts.

Lemma set_segment_rows seg z now l c' :
  In c' (map (fun c => if Customer.id c =? z then set_segment seg now c else c) l) ->
  exists c, In c l /\ Customer.id c' = Customer.id c /\
    (if Customer.id c =? z
     then Customer.segment c' = Some seg /\ Customer.segment_updated_at c' = Some now
     else c' = c).
Proof.
  intros Hin. apply in_map_iff in Hin. destruct Hin as (c & <- & Hin).
  exists c. split; auto. destruct (Customer.id c =? z); simpl; auto.
Qed.

Lemma set_segment_ids seg z now l :
  map Customer.id (map (fun c => if Customer.id c =? z then set_segment seg now c else c) l)
  = map Customer.id l.
Proof.
  rewrite map_map. apply map_ext. intros c. destruct (_ =? _); reflexivity.
Qed.

Lemma labelled_after_update d key result z now :
  integer_parameter key = Ok z ->
  In (result_segment result) validSegments ->
  (0 <= confidence result)%Q -> (confidence result <= 1)%Q ->
  (exists c, In c (customers d) /\ Customer.id c = z) ->
  labelled_in (snd (update_customer_segment (result_segment result) z now d)) key result.
Proof.
  intros Hz Hin H0 H1 (c & Hc & Hid). split; [|split; [|split]]; auto.
  exists z. split; auto. simpl. split.
  - exists (set_segment (result_segment result) now c). split; [|exact Hid].
    apply in_map_iff. exists c. split; auto.
    rewrite Hid, Z.eqb_refl. reflexivity.
  - intros c' Hc' Hid'. apply set_segment_rows in Hc'.
    destruct Hc' as (c0 & _ & E & Hrow). rewrite <- E, Hid', Z.eqb_refl in Hrow. tauto.
Qed.

(** X20. [LLMService.segmentCustomer] changes nothing but customers'
    segments.  When it returns a result, the label is one of the seven, the
    confidence lies in [0, 1], the parameter is the id of a customer, and
    every customer row of that id now carries the returned label; when it
    fails, it fails with its own wrapped error and the store is as it was. *)
Theorem segmentCustomer_persists_its_answer JSON_parse createSegmentationPrompt
    callAnthropicAPI n now d log :
  let r := LLMService_segmentCustomer JSON_parse createSegmentationPrompt
                                      callAnthropicAPI n now (d, log) in
  chat_sessions (fst (snd r)) = chat_sessions d /\
  messages (fst (snd r)) = messages d /\
  map Customer.id (customers (fst (snd r))) = map Customer.id (customers d) /\
  match fst r with
  | Ok result => labelled_in (fst (snd r)) n result
  | Throw e =>
      fst (snd r) = d /\
      exists cause, e = LLMServiceError "Failed to segment customer" cause
  end.
Proof.
  cbv zeta.
  destruct (LLMService_segmentCustomer_cases JSON_parse createSegmentationPrompt
              callAnthropicAPI n now d log)
    as [(result & z & Hr & Hz & Hin & H0 & H1 & Hc & Hd)|(cause & Hr & Hd)];
    cbv zeta in *; rewrite Hr, Hd.
  - split; [reflexivity|]. split; [reflexivity|]. split; [apply set_segment_ids|].
    apply labelled_after_update; auto.
  - repeat split; eauto.
Qed.

(** ** Segmenting in batches *)

Lemma same_value_zero_refl a : same_value_zero a a = true.
Proof. destruct a as [|b|q]; simpl; auto using Qeq_bool_refl. destruct b; reflexivity. Qed.

Lemma same_value_zero_sym a b : same_value_zero a b = same_value_zero b a.
Proof.
  destruct a as [|x|p], b as [|y|q]; simpl; auto using Qeq_bool_comm.
  destruct x, y; reflexivity.
Qed.

Lemma same_value_zero_trans a b c :
  same_value_zero a b = true -> same_value_zero b c = true -> same_value_zero a c = true.
Proof.
  destruct a as [|x|p], b as [|y|q], c as [|z|r]; simpl; try discriminate; auto.
  - destruct x, y, z; simpl; auto.
  - apply Qeq_bool_trans.
Qed.

Lemma integer_parameter_ok a z :
  integer_parameter a = Ok z <->
  exists q, a = Finite q /\ Qnum q = z * Z.pos (Qden q).
Proof.
  unfold integer_parameter. split.
  - destruct a as [|b|q]; try discriminate.
    destruct (Qnum q mod Z.pos (Qden q) =? 0) eqn:E; [|discriminate].
    intros [= <-]. exists q. split; auto.
    apply Z.eqb_eq in E. apply Z.mod_divide in E; [|lia].
    destruct E as (k & ->). rewrite Z.div_mul by lia. reflexivity.
  - intros (q & -> & Hq). rewrite Hq, Z.mod_mul, Z.div_mul by lia. reflexivity.
Qed.

Lemma integer_parameter_same a b z :
  same_value_zero a b = true -> integer_parameter a = Ok z -> integer_parameter b = Ok z.
Proof.
  intros Hs Ha. apply integer_parameter_ok in Ha. destruct Ha as (p & -> & Hp).
  destruct b as [|y|q]; simpl in Hs; try discriminate.
  apply Qeq_bool_iff in Hs. unfold Qeq in Hs.
  apply integer_parameter_ok. exists q. split; auto.
  rewrite Hp in Hs.
  apply (Z.mul_cancel_r _ _ (Z.pos (Qden p))); [lia|].
  rewrite <- Hs. ring.
Qed.

Lemma integer_parameter_inj a b z :
  integer_parameter a = Ok z -> integer_parameter b = Ok z -> same_value_zero a b = true.
Proof.
  intros Ha Hb. apply integer_parameter_ok in Ha, Hb.
  destruct Ha as (p & -> & Hp), Hb as (q & -> & Hq). simpl.
  apply Qeq_bool_iff. unfold Qeq. rewrite Hp, Hq. ring.
Qed.

Lemma Map_get_set k key v m :
  Map_get k (Map_set key v m) =
  if same_value_zero key k then Some v else Map_get k m.
Proof.
  induction m as [|[k0 v0] r IH]; simpl.
  - destruct (same_value_zero key k); reflexivity.
  - destruct (same_value_zero k0 key) eqn:E0; simpl.
    + destruct (same_value_zero k0 k) eqn:E1.
      * rewrite (same_value_zero_trans key k0 k); auto.
        rewrite same_value_zero_sym. exact E0.
      * destruct (same_value_zero key k) eqn:E2; auto.
        rewrite (same_value_zero_trans k0 key k) in E1; auto. discriminate.
    + rewrite IH. destruct (same_value_zero k0 k) eqn:E1; auto.
      destruct (same_value_zero key k) eqn:E2; auto.
      rewrite (same_value_zero_trans k0 k key) in E0; auto; [discriminate|].
      rewrite same_value_zero_sym. exact E2.
Qed.

Lemma labelled_in_other d k v seg z now zk :
  labelled_in d k v -> integer_parameter k = Ok zk -> zk <> z ->
  labelled_in (snd (update_customer_segment seg z now d)) k v.
Proof.
  intros (Hin & H0 & H1 & z0 & Hz0 & (c & Hc & Hid) & Hall) Hk Hne.
  assert (z0 = zk) by congruence. subst z0.
  split; [|split; [|split]]; auto. exists zk. split; auto. simpl. split.
  - exists c. split; auto. apply in_map_iff. exists c. split; auto.
    destruct (Z.eqb_spec (Customer.id c) z); [congruence|reflexivity].
  - intros c' Hc' Hid'. apply set_segment_rows in Hc'.
    destruct Hc' as (c0 & Hc0 & E & Hrow).
    destruct (Z.eqb_spec (Customer.id c0) z); [congruence|].
    subst c'. apply Hall; auto. congruence.
Qed.

Section BatchFacts.

Variable JSON_parse : string -> option json.
Variable createSegmentationPrompt : CustomerSegmentationData -> string.
Variable callAnthropicAPI : string -> Result string.
Variable clock : nat -> Z.

(** One call looks one id up, whatever becomes of it. *)
Lemma segmentCustomer_lookups n now d log :
  lookups (snd (snd (LLMService_segmentCustomer JSON_parse createSegmentationPrompt
                       callAnthropicAPI n now (d, log))))
  = lookups log ++ [n].
Proof.
  unfold LLMService_segmentCustomer, getCustomerConversationHistory, updateCustomerSegment,
    io_catch, io_bind, databaseService_query, with_integer, io_throw, io_ret, lookups.
  destruct (integer_parameter n) as [z|e]; simpl.
  - destruct (filter (fun c => Customer.id c =? z) (customers d)); simpl.
    + rewrite flat_map_app. reflexivity.
    + destruct (callAnthropicAPI _); simpl;
        rewrite !flat_map_app; simpl; rewrite ?app_nil_r; reflexivity.
  - rewrite flat_map_app. reflexivity.
Qed.

(** With a classifier that answers, the call succeeds for the id of a
    customer. *)
Lemma segmentCustomer_succeeds n z now d log :
  (forall prompt, exists response, callAnthropicAPI prompt = Ok response) ->
  integer_parameter n = Ok z ->
  In z (map Customer.id (customers d)) ->
  exists result,
    fst (LLMService_segmentCustomer JSON_parse createSegmentationPrompt
           callAnthropicAPI n now (d, log)) = Ok result.
Proof.
  intros Hapi Hz Hin. apply in_map_iff in Hin. destruct Hin as (c & Hid & Hc).
  assert (Hf : In c (filter (fun c => Customer.id c =? z) (customers d)))
    by (apply filter_In; split; auto; apply Z.eqb_eq; exact Hid).
  unfold LLMService_segmentCustomer, getCustomerConversationHistory, updateCustomerSegment,
    io_catch, io_bind, databaseService_query, with_integer, io_throw, io_ret.
  rewrite Hz. simpl.
  destruct (filter (fun c => Customer.id c =? z) (customers d)) as [|c0 rest];
    [destruct Hf|]. simpl.
  match goal with |- context [callAnthropicAPI ?p] => destruct (Hapi p) as (response & ->) end.
  simpl. eexists. reflexivity.
Qed.

Lemma batch_loop_spec customerIds : forall i results d log,
  let r := batch_loop JSON_parse createSegmentationPrompt callAnthropicAPI clock
                      customerIds i results (d, log) in
  chat_sessions (fst (snd r)) = chat_sessions d /\
  messages (fst (snd r)) = messages d /\
  map Customer.id (customers (fst (snd r))) = map Customer.id (customers d) /\
  (forall c, In c (customers d) ->
     (forall key, In key customerIds -> integer_parameter key <> Ok (Customer.id c)) ->
     In c (customers (fst (snd r)))) /\
  ((forall k v, Map_get k results = Some v -> labelled_in d k v) ->
   forall k v, Map_get k (fst r) = Some v -> labelled_in (fst (snd r)) k v) /\
  (forall k v, Map_get k (fst r) = Some v ->
     Map_get k results = Some v \/
     exists key, In key customerIds /\ same_value_zero key k = true) /\
  lookups (snd (snd r)) = lookups log ++ customerIds /\
  (forall k, Map_get k results <> None -> Map_get k (fst r) <> None) /\
  ((forall prompt, exists response, callAnthropicAPI prompt = Ok response) ->
   forall key z, In key customerIds -> integer_parameter key = Ok z ->
     In z (map Customer.id (customers d)) ->
     Map_get key (fst r) <> None).
Proof.
  induction customerIds as [|key rest IH]; intros i results d log; cbv zeta.
  - simpl. rewrite app_nil_r.
    split; [|split; [|split; [|split; [|split; [|split; [|split; [|split]]]]]]]; auto.
  - cbn [batch_loop].
    pose proof (segmentCustomer_lookups key (clock i) d log) as Hlog.
    pose proof (fun Hapi z Hz Hin =>
                  segmentCustomer_succeeds key z (clock i) d log Hapi Hz Hin) as Hsucc.
    destruct (LLMService_segmentCustomer_cases JSON_parse createSegmentationPrompt
                callAnthropicAPI key (clock i) d log)
      as [(result & z & Hr & Hz & Hin & H0 & H1 & Hc & Hd)|(cause & Hr & Hd)];
      cbv zeta in Hr, Hd;
      destruct (LLMService_segmentCustomer JSON_parse createSegmentationPrompt
                  callAnthropicAPI key (clock i) (d, log)) as [res [d1 log1]];
      cbn [fst snd] in Hr, Hd, Hlog, Hsucc; subst res d1.
    + destruct (IH (S i) (Map_set key result results)
                   (snd (update_customer_segment (result_segment result) z (clock i) d)) log1)
        as (A1 & A2 & A3 & A4 & A5 & A6 & A7 & A8 & A9).
      split; [exact A1|]. split; [exact A2|].
      split; [rewrite A3; apply set_segment_ids|].
      split; [|split; [|split; [|split; [|split]]]].
      * intros c Hcin Hkeys. apply A4.
        -- simpl. apply in_map_iff. exists c. split; auto.
           destruct (Z.eqb_spec (Customer.id c) z) as [E|_]; auto.
           exfalso. apply (Hkeys key (or_introl eq_refl)). congruence.
        -- intros key' Hkey'. apply Hkeys. right. exact Hkey'.
      * intros Hinv. apply A5. intros k v Hget. rewrite Map_get_set in Hget.
        destruct (same_value_zero key k) eqn:Es.
        -- inversion Hget; subst v.
           apply labelled_after_update; auto.
           apply (integer_parameter_same key k z Es Hz).
        -- pose proof (Hinv k v Hget) as Hl.
           assert (Hzk : exists zk, integer_parameter k = Ok zk)
             by (destruct Hl as (_ & _ & _ & zk & Hzk & _); eauto).
           destruct Hzk as (zk & Hzk).
           apply (labelled_in_other d k v _ z _ zk); auto.
           intros ->. rewrite (integer_parameter_inj key k z Hz Hzk) in Es. discriminate.
      * intros k v Hget. destruct (A6 k v Hget) as [Hold|(key' & Hkey' & Es)].
        -- rewrite Map_get_set in Hold. destruct (same_value_zero key k) eqn:Es; auto.
           right. exists key. split; auto. left. reflexivity.
        -- right. exists key'. split; auto. right. exact Hkey'.
      * rewrite A7, Hlog, <- app_assoc. reflexivity.
      * intros k Hk. apply A8. rewrite Map_get_set.
        destruct (same_value_zero key k); [discriminate|exact Hk].
      * intros Hapi key' z' [<-|Hkey'] Hz' Hin'.
        -- apply A8. rewrite Map_get_set, same_value_zero_refl. discriminate.
        -- apply (A9 Hapi key' z' Hkey' Hz'). simpl. rewrite set_segment_ids. exact Hin'.
    + destruct (IH (S i) results d log1) as (A1 & A2 & A3 & A4 & A5 & A6 & A7 & A8 & A9).
      split; [exact A1|]. split; [exact A2|]. split; [exact A3|].
      split; [|split; [|split; [|split; [|split]]]].
      * intros c Hcin Hkeys. apply A4; auto. intros key' Hkey'. apply Hkeys. right. exact Hkey'.
      * exact A5.
      * intros k v Hget. destruct (A6 k v Hget) as [Hold|(key' & Hkey' & Es)]; auto.
        right. exists key'. split; auto. right. exact Hkey'.
      * rewrite A7, Hlog, <- app_assoc. reflexivity.
      * exact A8.
      * intros Hapi key' z' [<-|Hkey'] Hz' Hin'.
        -- destruct (Hsucc Hapi z' Hz' Hin') as (result & E). discriminate.
        -- apply (A9 Hapi key' z' Hkey' Hz' Hin').
Qed.

End BatchFacts.

(** X21. [batchSegmentCustomers] goes through all the ids, whatever fails on
    the way: each id of the list is looked up once, in the order of the
    list; and when the classifier answers every prompt, the map it returns
    has an entry for each id given that is a customer's.  It changes nothing
    but customers' segments.  Each entry of the map belongs to one of the
    ids given, and for each entry the label is one of the seven and is the
    label that every customer row of that id carries in the store
    afterwards.  A customer whose id is not among the ids given keeps its
    row. *)
Theorem batchSegmentCustomers_labels JSON_parse createSegmentationPrompt callAnthropicAPI
    clock customerIds d log :
  let r := batchSegmentCustomers JSON_parse createSegmentationPrompt callAnthropicAPI
                                 clock customerIds (d, log) in
  lookups (snd (snd r)) = lookups log ++ customerIds /\
  ((forall prompt, exists response, callAnthropicAPI prompt = Ok response) ->
   forall key z, In key customerIds -> integer_parameter key = Ok z ->
     In z (map Customer.id (customers d)) ->
     exists result, Map_get key (fst r) = Some result) /\
  chat_sessions (fst (snd r)) = chat_sessions d /\
  messages (fst (snd r)) = messages d /\
  map Customer.id (customers (fst (snd r))) = map Customer.id (customers d) /\
  (forall key result, Map_get key (fst r) = Some result ->
     labelled_in (fst (snd r)) key result /\
     exists key', In key' customerIds /\ same_value_zero key' key = true) /\
  (forall c, In c (customers d) ->
     (forall key, In key customerIds -> integer_parameter key <> Ok (Customer.id c)) ->
     In c (customers (fst (snd r)))).
Proof.
  cbv zeta. unfold batchSegmentCustomers.
  destruct (batch_loop_spec JSON_parse createSegmentationPrompt callAnthropicAPI clock
              customerIds 0 [] d log) as (A1 & A2 & A3 & A4 & A5 & A6 & A7 & A8 & A9).
  split; [exact A7|]. split.
  { intros Hapi key z Hkey Hz Hin. pose proof (A9 Hapi key z Hkey Hz Hin) as Hsome.
    destruct (Map_get key _) as [result|]; [eauto|congruence]. }
  split; [exact A1|]. split; [exact A2|]. split; [exact A3|]. split; [|exact A4].
  intros key result Hget. split.
  - apply A5; auto. intros k v Hk. discriminate.
  - destruct (A6 key result Hget) as [Hold|H]; [discriminate|exact H].
Qed.

(** ** Updating a segment *)

(** X22. [updateCustomerSegment] with an id in the range of [INTEGER] that
    no customer has, and a label that the segment column takes, succeeds
    and leaves the store as it was: the missing customer is not reported. *)
Theorem updateCustomerSegment_unknown_customer z seg now d log :
  in_INTEGER z -> fits 100 seg ->
  (forall c, In c (customers d) -> Customer.id c <> z) ->
  updateCustomerSegment (Finite (inject_Z z)) seg now (d, log) =
  (Ok tt, (d, log ++ [UpdateCustomerSegment seg (Finite (inject_Z z))])).
Proof.
  intros _ _ Hno.
  unfold updateCustomerSegment, io_catch, databaseService_query, with_integer.
  rewrite integer_parameter_inject. unfold update_customer_segment.
  rewrite (map_ext_in _ (fun c => c)).
  - rewrite map_id. destruct d; reflexivity.
  - intros c Hc. destruct (Z.eqb_spec (Customer.id c) z) as [E|_]; auto.
    destruct (Hno c Hc E).
Qed.

Lemma updateCustomerSegment_unknown_customer_witness :
  (in_INTEGER 7 /\ fits 100 "VIP_CUSTOMER" /\
   forall c, In c (customers store_a) -> Customer.id c <> 7) /\
  updateCustomerSegment (Finite (inject_Z 7)) "VIP_CUSTOMER" MINUTE (store_a, []) =
  (Ok tt, (store_a, [] ++ [UpdateCustomerSegment "VIP_CUSTOMER" (Finite (inject_Z 7))])).
Proof.
  assert (H0 : in_INTEGER 7) by (unfold in_INTEGER, INTEGER_MAX; lia).
  assert (H1 : fits 100 "VIP_CUSTOMER") by reflexivity.
  assert (H : forall c, In c (customers store_a) -> Customer.id c <> 7).
  { intros c [<-|[]]. discriminate. }
  split; [split; [exact H0|split; [exact H1|exact H]]|].
  exact (updateCustomerSegment_unknown_customer 7 "VIP_CUSTOMER" MINUTE store_a [] H0 H1 H).
Defined.

(** ** Looking a customer up twice *)

(** X23. On a store built by the service whose customer sequence has a
    value left, and for a number, a name and a timestamp that the columns
    take, [findOrCreateCustomer] returns a customer with the given phone
    number, and a second lookup of the same number, whatever payload and
    time it comes with, returns the same row and writes nothing: the name
    and the first message time stay those of the first payload. *)
Theorem findOrCreateCustomer_is_idempotent t phoneNumber payload now d :
  reachable t d -> customers_id_seq d <= INTEGER_MAX ->
  fits 20 phoneNumber ->
  fits_if_given 255 (or_null (WahaMessagePayload.notifyName payload)) ->
  in_TIMESTAMP (WahaMessagePayload.timestamp payload) ->
  exists c,
    fst (findOrCreateCustomer phoneNumber payload now d) = Ok c /\
    Customer.phone_number c = phoneNumber /\
    forall payload' now',
      findOrCreateCustomer phoneNumber payload' now'
        (snd (findOrCreateCustomer phoneNumber payload now d))
      = (Ok c, snd (findOrCreateCustomer phoneNumber payload now d)).
Proof.
  intros _ _ _ _ _.
  destruct (findOrCreateCustomer_cases phoneNumber payload now d)
    as (cust & l' & seq' & Hstep & ->).
  exists cust. split; [reflexivity|].
  pose proof (customer_step_found Hstep) as (_ & Hphone & _).
  split; [exact Hphone|]. intros payload' now'. cbn [snd].
  assert (Hfilter : exists rest, filter (by_phone phoneNumber) l' = cust :: rest).
  { destruct Hstep as [(rest & Hf & -> & _)|(Hnone & _ & -> & _)]; [eauto|].
    exists []. rewrite filter_app, Hnone. simpl. unfold by_phone at 1.
    rewrite Hphone, String.eqb_refl. reflexivity. }
  destruct Hfilter as (rest & Hf).
  unfold findOrCreateCustomer, bind, select_customers_by_phone. cbn [customers].
  fold (by_phone phoneNumber). rewrite Hf. reflexivity.
Qed.

Lemma findOrCreateCustomer_is_idempotent_witness :
  (reachable 0 empty_db /\ customers_id_seq empty_db <= INTEGER_MAX /\
   fits 20 "6281234567890" /\
   fits_if_given 255 (or_null (WahaMessagePayload.notifyName (sample_message "A" 0))) /\
   in_TIMESTAMP (WahaMessagePayload.timestamp (sample_message "A" 0))) /\
  exists c,
    fst (findOrCreateCustomer "6281234567890" (sample_message "A" 0) 0 empty_db) = Ok c /\
    Customer.phone_number c = "6281234567890" /\
    forall payload' now',
      findOrCreateCustomer "6281234567890" payload' now'
        (snd (findOrCreateCustomer "6281234567890" (sample_message "A" 0) 0 empty_db))
      = (Ok c, snd (findOrCreateCustomer "6281234567890" (sample_message "A" 0) 0 empty_db)).
Proof.
  assert (H1 : customers_id_seq empty_db <= INTEGER_MAX) by (unfold INTEGER_MAX; simpl; lia).
  assert (H2 : fits 20 "6281234567890") by reflexivity.
  assert (H3 : fits_if_given 255
                 (or_null (WahaMessagePayload.notifyName (sample_message "A" 0))))
    by reflexivity.
  assert (H4 : in_TIMESTAMP (WahaMessagePayload.timestamp (sample_message "A" 0)))
    by (unfold in_TIMESTAMP; simpl; lia).
  split; [split; [apply reachable_empty|split; [exact H1|split; [exact H2|split;
    [exact H3|exact H4]]]]|].
  exact (findOrCreateCustomer_is_idempotent 0 "6281234567890" (sample_message "A" 0) 0
           empty_db (reachable_empty 0) H1 H2 H3 H4).
Defined.

(** ** The text handed to [JSON.parse] *)

Lemma index_brace_step a s :
  Ascii.eqb a "{" = false ->
  index 0 "{" (String a s) =
  match index 0 "{" s with Some n => Some (S n) | None => None end.
Proof.
  intros Ha.
  change (index 0 "{" (String a s))
    with (if (if ascii_dec "{" a then prefix "" s else false)
          then Some 0%nat
          else match index 0 "{" s with Some n => Some (S n) | None => None end).
  destruct (ascii_dec "{" a) as [E|_]; [|reflexivity].
  subst a. discriminate.
Qed.

Lemma index_first_brace pre rest :
  occurs "{" pre = false ->
  index 0 "{" (pre ++ String "{" rest) = Some (String.length pre).
Proof.
  induction pre as [|a pre IH]; intros Hno.
  - simpl. destruct rest; reflexivity.
  - cbn [occurs] in Hno. apply orb_false_iff in Hno. destruct Hno as (Ha & Hno).
    cbn [append String.length]. rewrite (index_brace_step a _ Ha), (IH Hno). reflexivity.
Qed.

Lemma index_no_brace s : occurs "{" s = false -> index 0 "{" s = None.
Proof.
  induction s as [|a s IH]; intros Hno.
  - reflexivity.
  - cbn [occurs] in Hno. apply orb_false_iff in Hno. destruct Hno as (Ha & Hno).
    rewrite (index_brace_step a _ Ha), (IH Hno). reflexivity.
Qed.

Lemma last_index_of_absent c s : occurs c s = false -> last_index_of c s = None.
Proof.
  induction s as [|a s IH]; simpl; intros Hno; auto.
  apply orb_false_iff in Hno. destruct Hno as (Ha & Hno).
  rewrite (IH Hno), Ha. reflexivity.
Qed.

Lemma last_index_of_last c s post :
  occurs c post = false ->
  last_index_of c (s ++ String c post) = Some (String.length s).
Proof.
  intros Hno. induction s as [|a s IH]; simpl.
  - rewrite (last_index_of_absent c post Hno), Ascii.eqb_refl. reflexivity.
  - rewrite IH. reflexivity.
Qed.

Lemma substring_tail pre s :
  substring (String.length pre) (String.length (pre ++ s) - String.length pre) (pre ++ s) = s.
Proof.
  rewrite substring_append_tail, length_append.
  replace (String.length pre + String.length s - String.length pre)%nat
    with (String.length s) by lia.
  apply substring_all.
Qed.

Lemma append_assoc (a b c : string) : ((a ++ b) ++ c)%string = (a ++ (b ++ c))%string.
Proof. induction a as [|x a IH]; simpl; congruence. Qed.

(** X24. The text that [parseSegmentationResponse] hands to [JSON.parse]
    runs from the first opening brace of the answer to its last closing
    brace, whatever stands between them, before or after; an answer without
    an opening brace, or without a closing brace after the first opening
    one, has no such text and gets the fallback. *)
Theorem jsonMatch_spans_first_to_last_brace JSON_parse :
  (forall pre mid post,
      occurs "{" pre = false -> occurs "}" post = false ->
      jsonMatch (pre ++ "{" ++ mid ++ "}" ++ post) = Some ("{" ++ mid ++ "}")%string) /\
  (forall response,
      occurs "{" response = false ->
      jsonMatch response = None /\
      parseSegmentationResponse JSON_parse response = fallback_result) /\
  (forall pre rest,
      occurs "{" pre = false -> occurs "}" rest = false ->
      jsonMatch (pre ++ "{" ++ rest) = None /\
      parseSegmentationResponse JSON_parse (pre ++ "{" ++ rest) = fallback_result).
Proof.
  assert (Hnone : forall response, jsonMatch response = None ->
                    parseSegmentationResponse JSON_parse response = fallback_result).
  { intros response E. unfold parseSegmentationResponse, parseSegmentationResponse_try.
    rewrite E. reflexivity. }
  split; [|split].
  - intros pre mid post Hpre Hpost. unfold jsonMatch.
    change ("{" ++ mid ++ "}" ++ post)%string with (String "{" (mid ++ String "}" post)).
    rewrite (index_first_brace pre _ Hpre), substring_tail.
    change (String "{" (mid ++ String "}" post))
      with (String "{" mid ++ String "}" post)%string.
    rewrite (last_index_of_last "}" (String "{" mid) post Hpost).
    change (String "{" mid ++ String "}" post)%string
      with (String "{" (mid ++ String "}" post)).
    replace (String "{" (mid ++ String "}" post))
      with ((String "{" mid ++ "}") ++ post)%string
      by (simpl; rewrite append_assoc; reflexivity).
    replace (S (String.length (String "{" mid)))
      with (String.length (String "{" mid ++ "}")%string)
      by (rewrite length_append; simpl; lia).
    rewrite substring_append_head. reflexivity.
  - intros response Hno.
    assert (E : jsonMatch response = None)
      by (unfold jsonMatch; rewrite (index_no_brace response Hno); reflexivity).
    split; auto.
  - intros pre rest Hpre Hrest.
    assert (E : jsonMatch (pre ++ "{" ++ rest) = None).
    { unfold jsonMatch.
      change ("{" ++ rest)%string with (String "{" rest).
      rewrite (index_first_brace pre _ Hpre), substring_tail.
      simpl. rewrite (last_index_of_absent "}" rest Hrest). reflexivity. }
    split; auto.
Qed.

(** ** Times of the rows *)

Lemma timeline_empty t : timeline t empty_db.
Proof. constructor; simpl; intros; tauto. Qed.

Lemma timeline_later t t' d : timeline t d -> t <= t' -> timeline t' d.
Proof.
  intros [T1 T2 T3 T4] Ht. constructor; auto.
  intros m Hm. specialize (T1 m Hm). lia.
Qed.

Lemma timeline_same t d d' : timeline t d -> same_tables d d' -> timeline t d'.
Proof.
  intros [T1 T2 T3 T4] (E1 & E2 & E3). constructor; rewrite ?E1, ?E2, ?E3; auto.
Qed.

Lemma timeline_status t d st now wahaMessageId :
  timeline t d ->
  timeline t (mkDatabase (customers d) (chat_sessions d)
                (map (fun m => if has_waha_id wahaMessageId m
                               then set_status st now m else m) (messages d))
                (customers_id_seq d) (chat_sessions_id_seq d) (messages_id_seq d)).
Proof.
  intros [T1 T2 T3 T4].
  set (f := fun m => if has_waha_id wahaMessageId m then set_status st now m else m).
  assert (Hf : forall m, Message.created_at (f m) = Message.created_at m /\
                         Message.timestamp (f m) = Message.timestamp m /\
                         Message.customer_id (f m) = Message.customer_id m /\
                         Message.session_id (f m) = Message.session_id m)
    by (intros m; unfold f; destruct (has_waha_id _ m); repeat split).
  constructor; cbn [customers chat_sessions messages].
  - intros m Hm. apply in_map_iff in Hm. destruct Hm as (m0 & <- & Hm).
    destruct (Hf m0) as (-> & _). auto.
  - intros m s Hm Hs. apply in_map_iff in Hm. destruct Hm as (m0 & <- & Hm).
    destruct (Hf m0) as (-> & _ & _ & ->). auto.
  - intros c Hc. destruct (T3 c Hc) as (m & Hfind & E1 & E2).
    exists (f m). rewrite find_map_stable, Hfind.
    + destruct (Hf m) as (-> & -> & _). auto.
    + intros x. unfold message_of_customer. destruct (Hf x) as (_ & _ & -> & _). reflexivity.
  - intros c Hc. destruct (T4 c Hc) as ((m & Hm & E1 & E2) & Hall). split.
    + exists (f m). destruct (Hf m) as (-> & _ & -> & _).
      split; auto. apply in_map. exact Hm.
    + intros m' Hm'. apply in_map_iff in Hm'. destruct Hm' as (m0 & <- & Hm0).
      destruct (Hf m0) as (-> & _ & -> & _). auto.
Qed.

Lemma timeline_segment t d seg now customerId :
  timeline t d ->
  timeline t (mkDatabase (map (fun c => if Customer.id c =? customerId
                                        then set_segment seg now c else c) (customers d))
                (chat_sessions d) (messages d)
                (customers_id_seq d) (chat_sessions_id_seq d) (messages_id_seq d)).
Proof.
  intros [T1 T2 T3 T4].
  set (f := fun c => if Customer.id c =? customerId then set_segment seg now c else c).
  assert (Hf : forall c, Customer.id (f c) = Customer.id c /\
                         Customer.first_message_at (f c) = Customer.first_message_at c /\
                         Customer.created_at (f c) = Customer.created_at c /\
                         Customer.last_message_at (f c) = Customer.last_message_at c)
    by (intros c; unfold f; destruct (_ =? _); repeat split).
  constructor; cbn [customers chat_sessions messages]; auto.
  - intros c Hc. apply in_map_iff in Hc. destruct Hc as (c0 & <- & Hc).
    destruct (Hf c0) as (-> & -> & -> & _). auto.
  - intros c Hc. apply in_map_iff in Hc. destruct Hc as (c0 & <- & Hc).
    destruct (Hf c0) as (-> & _ & _ & ->). auto.
Qed.

Lemma timeline_ingested t payload now d d' cust sess :
  wf t d -> consistent t d -> timeline t d -> t <= now ->
  ingested payload now d d' cust sess -> timeline now d'.
Proof.
  intros Hwf Hcons [T1 T2 T3 T4] Ht Hing.
  destruct Hing as (l1 & seq1 & l2 & seq2 & Hc & Hs & ->).
  set (msg := new_message_row (Customer.id cust) (ChatSession.id sess) payload now
                              (messages_id_seq d)).
  assert (Hmsg : Message.created_at msg = now /\
                 Message.customer_id msg = Customer.id cust /\
                 Message.session_id msg = ChatSession.id sess /\
                 Message.timestamp msg = WahaMessagePayload.timestamp payload * 1000)
    by (repeat split).
  destruct Hmsg as (Mc & Mk & Ms & Mt).
  assert (Hthirty : 0 < THIRTY_MINUTES) by reflexivity.
  constructor; cbn [customers chat_sessions messages].
  - intros m Hm. apply in_app_or in Hm. destruct Hm as [Hm|[<-|[]]].
    + specialize (T1 m Hm). lia.
    + lia.
  - intros m s' Hm Hs' Eid.
    destruct (session_row_origin _ _ _ _ _ _ _ (ChatSession.id sess) s' Hs Hs')
      as [(s & Hold & Es & _ & Est & _)|(Es & _ & Est & _ & _ & _ & _ & Esess)].
    + rewrite Est. apply in_app_or in Hm. destruct Hm as [Hm|[<-|[]]].
      * apply T2; auto. congruence.
      * rewrite Mc. rewrite Ms in Eid.
        destruct Hs as [(Hl & _)|(_ & -> & _)].
        -- apply latest_session_in in Hl. apply filter_In in Hl. destruct Hl as (Hl & Hf).
           assert (s = sess)
             by (apply (nodup_session_id_inj _ _ _ (wf_session_nodup _ _ Hwf) Hold Hl);
                 congruence).
           subst s. pose proof (wf_session_start _ _ Hwf _ Hl).
           unfold fresh_active in Hf. apply andb_true_iff in Hf. destruct Hf as (_ & Hf).
           apply Z.ltb_lt in Hf. lia.
        -- simpl in Eid. pose proof (wf_session_id _ _ Hwf _ Hold). lia.
    + rewrite Est. apply in_app_or in Hm. destruct Hm as [Hm|[<-|[]]].
      * pose proof (message_session_fresh _ _ Hcons m Hm). lia.
      * rewrite Mc. lia.
  - intros c' Hc'.
    destruct (customer_row_origin _ _ _ _ _ _ _ _ (Customer.id cust) c' Hc Hc')
      as (c & Horigin & Eid & _ & _ & Efirst & _ & _ & Ecreated & _).
    rewrite Eid, Efirst, Ecreated, find_app_last.
    destruct Horigin as [Hold|(Hrow & Ecust & _)].
    + destruct (T3 c Hold) as (m & -> & E1 & E2). eauto.
    + assert (Hnone : find (message_of_customer (Customer.id c)) (messages d) = None).
      { apply filter_nil_find, filter_none.
        intros m Hm. pose proof (wf_message_fk _ _ Hwf m Hm).
        unfold message_of_customer. apply Z.eqb_neq. rewrite Hrow. simpl. lia. }
      rewrite Hnone. exists msg. unfold message_of_customer.
      rewrite Mk, <- Ecust, Z.eqb_refl. rewrite Hrow. simpl. auto.
  - intros c' Hc'.
    destruct (customer_row_origin _ _ _ _ _ _ _ _ (Customer.id cust) c' Hc Hc')
      as (c & Horigin & Eid & _ & _ & _ & _ & _ & _ & _ & Hbumped & Hkept).
    destruct (Z.eqb_spec (Customer.id c) (Customer.id cust)) as [E|Hne].
    + rewrite (Hbumped eq_refl). split.
      * exists msg. split; [apply in_or_app; simpl; auto|]. split; congruence.
      * intros m Hm _. apply in_app_or in Hm. destruct Hm as [Hm|[<-|[]]].
        -- specialize (T1 m Hm). lia.
        -- lia.
    + rewrite (Hkept eq_refl) in *.
      destruct Horigin as [Hold|(_ & Ecust & _)]; [|congruence].
      destruct (T4 c Hold) as ((m & Hm & E1 & E2) & Hall). split.
      * exists m. split; auto. apply in_or_app. auto.
      * intros m' Hm' Em'. apply in_app_or in Hm'. destruct Hm' as [Hm'|[<-|[]]]; auto.
        congruence.
Qed.

Lemma timeline_apply_event t t' e d :
  wf t d -> consistent t d -> timeline t d -> t <= t' -> timeline t' (apply_event t' e d).
Proof.
  intros Hwf Hc Htl Ht.
  destruct (apply_event_shape t' e d) as [Hs Hq|payload cust sess _ Hnew Hing|st w ->|seg c ->].
  - apply timeline_same with d; auto. apply timeline_later with t; auto.
  - apply (timeline_ingested t payload t' d _ cust sess); auto.
  - apply timeline_status. apply timeline_later with t; auto.
  - apply timeline_segment. apply timeline_later with t; auto.
Qed.

Lemma evolves_timeline {t d t' d'} :
  evolves t d t' d' -> wf t d -> consistent t d -> timeline t d -> timeline t' d'.
Proof.
  induction 1 as [|t1 d1 t2 e Hev IH Hle]; intros Hwf Hc Htl; auto.
  apply timeline_apply_event with t1; auto.
  - apply (evolves_wf Hev Hwf).
  - apply (evolves_consistent Hev Hwf Hc).
Qed.

Lemma reachable_timeline {t d} : reachable t d -> timeline t d.
Proof.
  intros (t0 & Hev).
  exact (evolves_timeline Hev (wf_empty t0) (consistent_empty t0) (timeline_empty t0)).
Qed.

(** X25. In a store built by the service, every message was processed
    within thirty minutes of the start of its session, and not before that
    start. *)
Theorem messages_fall_in_session_window t d m s :
  reachable t d -> In m (messages d) -> In s (chat_sessions d) ->
  ChatSession.id s = Message.session_id m ->
  ChatSession.session_start s <= Message.created_at m
    < ChatSession.session_start s + THIRTY_MINUTES.
Proof.
  intros Hr. apply (within_window _ _ (reachable_timeline Hr)).
Qed.

Lemma messages_fall_in_session_window_witness :
  reachable (20 * MINUTE) store_b /\ In row_b (messages store_b) /\
  In session_b (chat_sessions store_b) /\
  ChatSession.id session_b = Message.session_id row_b /\
  ChatSession.session_start session_b <= Message.created_at row_b
    < ChatSession.session_start session_b + THIRTY_MINUTES.
Proof.
  assert (H1 : In row_b (messages store_b)) by (right; left; reflexivity).
  assert (H2 : In session_b (chat_sessions store_b)) by (left; reflexivity).
  split; [exact reachable_store_b|]. split; [exact H1|]. split; [exact H2|].
  split; [reflexivity|].
  exact (messages_fall_in_session_window (20 * MINUTE) store_b row_b session_b
           reachable_store_b H1 H2 eq_refl).
Defined.

(** X26. In a store built by the service, a customer's [first_message_at]
    is the timestamp carried by the first message row of the customer, and
    its [created_at] is the time that row was stored; its [last_message_at]
    is the time the latest message row of the customer was stored, which no
    message of the customer exceeds. *)
Theorem customer_times_follow_its_messages t d c :
  reachable t d -> In c (customers d) ->
  (exists first,
      find (message_of_customer (Customer.id c)) (messages d) = Some first /\
      Customer.first_message_at c = Message.timestamp first /\
      Customer.created_at c = Message.created_at first) /\
  (exists last,
      In last (messages d) /\ Message.customer_id last = Customer.id c /\
      Customer.last_message_at c = Message.created_at last) /\
  (forall m, In m (messages d) -> Message.customer_id m = Customer.id c ->
             Message.created_at m <= Customer.last_message_at c).
Proof.
  intros Hr Hin. pose proof (reachable_timeline Hr) as Htl.
  destruct (first_message _ _ Htl c Hin) as (m & Hfind & E1 & E2).
  destruct (last_message _ _ Htl c Hin) as ((m' & Hm' & E3 & E4) & Hall).
  split; [|split].
  - exists m. auto.
  - exists m'. auto.
  - exact Hall.
Qed.

Lemma customer_times_follow_its_messages_witness :
  reachable (20 * MINUTE) store_b /\ In customer_b (customers store_b) /\
  (exists first,
      find (message_of_customer (Customer.id customer_b)) (messages store_b) = Some first /\
      Customer.first_message_at customer_b = Message.timestamp first /\
      Customer.created_at customer_b = Message.created_at first) /\
  (exists last,
      In last (messages store_b) /\ Message.customer_id last = Customer.id customer_b /\
      Customer.last_message_at customer_b = Message.created_at last) /\
  (forall m, In m (messages store_b) -> Message.customer_id m = Customer.id customer_b ->
             Message.created_at m <= Customer.last_message_at customer_b).
Proof.
  assert (Hin : In customer_b (customers store_b)) by (left; reflexivity).
  split; [exact reachable_store_b|]. split; [exact Hin|].
  exact (customer_times_follow_its_messages (20 * MINUTE) store_b customer_b
           reachable_store_b Hin).
Defined.

(** ** The analytics view *)

Lemma distinct_keys_filtered {A B} (key : A -> B) (keep : A -> bool) (rows : list A) :
  NoDup (map key rows) -> NoDup (map key (filter keep rows)).
Proof.
  intros Hnd. induction rows as [|row rows IH]; simpl; auto.
  inversion Hnd as [|? ? Hrow Hrows]; subst.
  destruct (keep row); simpl; auto. constructor; auto.
  intros Hin. apply Hrow. apply in_map_iff in Hin. destruct Hin as (y & E & Hy).
  apply filter_In in Hy. rewrite <- E. apply in_map. tauto.
Qed.

Lemma count_distinct_NoDup l : NoDup l -> count_distinct l = Z.of_nat (List.length l).
Proof. intros H. unfold count_distinct. rewrite nodup_fixed_point; auto. Qed.

Lemma filter_both {A} (p q : A -> bool) (l : list A) :
  filter q (filter p l) = filter (fun x => p x && q x) l.
Proof.
  induction l as [|x l IH]; simpl; auto.
  destruct (p x); simpl; [destruct (q x)|]; rewrite IH; reflexivity.
Qed.

Lemma customer_has_session t d c :
  reachable t d -> In c (customers d) ->
  (1 <= List.length (filter (session_of_customer (Customer.id c)) (chat_sessions d)))%nat.
Proof.
  intros Hr Hin. pose proof (reachable_consistent Hr) as Hc.
  destruct (customer_has_message _ _ Hc c Hin) as (m & Hm & Em).
  destruct (message_has_session _ _ Hc m Hm) as (s & Hs & _ & Es).
  assert (Hfs : In s (filter (session_of_customer (Customer.id c)) (chat_sessions d))).
  { apply filter_In. split; auto. unfold session_of_customer. apply Z.eqb_eq. congruence. }
  destruct (filter (session_of_customer (Customer.id c)) (chat_sessions d));
    [destruct Hfs|simpl; lia].
Qed.

Lemma customer_of_id t d c c' :
  reachable t d -> In c (customers d) -> In c' (customers d) ->
  Customer.id c = Customer.id c' -> c = c'.
Proof.
  intros Hr. pose proof (unique_customer_ids _ _ (reachable_consistent Hr)) as Hnd.
  revert Hnd. generalize (customers d). intros l.
  induction l as [|x l IH]; simpl; intros Hnd Ha Hb E; [tauto|].
  inversion Hnd as [|? ? Hx Hnd']; subst.
  destruct Ha as [->|Ha], Hb as [->|Hb]; auto.
  - exfalso. apply Hx. rewrite E. apply in_map. exact Hb.
  - exfalso. apply Hx. rewrite <- E. apply in_map. exact Ha.
Qed.

(** X27. For a store built by the service, each row of the view
    [customer_analytics] reports at least one session and at most one active
    session; the [message_count]s of the sessions it is grouped from add up
    to its message total minus one; and the row agrees with the conversation
    history of the same customer on the message total and the session
    total. *)
Theorem customer_analytics_agrees t d row :
  reachable t d -> In row (customer_analytics d) ->
  1 <= CustomerAnalytics.total_sessions row /\
  0 <= CustomerAnalytics.active_sessions row <= 1 /\
  sum_Z (map ChatSession.message_count
             (filter (session_of_customer (CustomerAnalytics.id row)) (chat_sessions d)))
  = CustomerAnalytics.total_messages row - 1 /\
  (forall n now log h,
      fst (getCustomerConversationHistory n now (d, log)) = Ok h ->
      customerId h = CustomerAnalytics.id row ->
      totalMessages h = CustomerAnalytics.total_messages row /\
      totalSessions h = CustomerAnalytics.total_sessions row).
Proof.
  intros Hr Hrow. unfold customer_analytics in Hrow. apply in_map_iff in Hrow.
  destruct Hrow as (c & <- & Hc).
  pose proof (reachable_consistent Hr) as Hcons.
  pose proof (reachable_wf Hr) as Hwf.
  set (joined := filter (session_of_customer (Customer.id c)) (chat_sessions d)).
  assert (Hnd : NoDup (map ChatSession.id joined))
    by (apply distinct_keys_filtered, (wf_session_nodup _ _ Hwf)).
  assert (Hone : (1 <= List.length joined)%nat) by (apply (customer_has_session t); auto).
  assert (Htotal : CustomerAnalytics.total_sessions (analytics_row d c)
                   = Z.of_nat (List.length joined)).
  { unfold analytics_row. cbn [CustomerAnalytics.total_sessions]. fold joined.
    rewrite (count_distinct_NoDup _ Hnd), length_map. reflexivity. }
  split; [rewrite Htotal; lia|]. split; [|split].
  - unfold analytics_row. cbn [CustomerAnalytics.active_sessions]. fold joined.
    rewrite count_distinct_NoDup by (apply distinct_keys_filtered; exact Hnd).
    rewrite length_map. unfold joined. rewrite filter_both.
    pose proof (wf_one_active _ _ Hwf (Customer.id c)) as Hactive.
    unfold active_count, is_active_of in Hactive. unfold session_of_customer. lia.
  - cbn [CustomerAnalytics.id CustomerAnalytics.total_messages analytics_row].
    rewrite (customer_sessions_sum t d (Customer.id c) Hr).
    rewrite (customer_total _ _ Hcons c Hc). lia.
  - intros n now log h Hok Hid.
    destruct (getCustomerConversationHistory_result n now d log h Hok)
      as (z & customer & rest & Hz & Hf & _ & E1 & _ & _ & E4 & E5 & _ & _).
    assert (Hcust : In customer (customers d) /\ Customer.id customer = z).
    { assert (Hin : In customer (filter (fun c => Customer.id c =? z) (customers d)))
        by (rewrite Hf; left; reflexivity).
      apply filter_In in Hin. destruct Hin as (Hin & Hz'). apply Z.eqb_eq in Hz'. auto. }
    destruct Hcust as (Hin & Hzid).
    cbn [CustomerAnalytics.id analytics_row] in Hid.
    assert (customer = c) by (apply (customer_of_id t d); auto; congruence).
    subst customer. subst z.
    split; [exact E4|]. rewrite Htotal. exact E5.
Qed.

Lemma customer_analytics_agrees_witness :
  (reachable (20 * MINUTE) store_b /\
   In (analytics_row store_b customer_b) (customer_analytics store_b)) /\
  1 <= CustomerAnalytics.total_sessions (analytics_row store_b customer_b) /\
  0 <= CustomerAnalytics.active_sessions (analytics_row store_b customer_b) <= 1 /\
  sum_Z (map ChatSession.message_count
             (filter (session_of_customer
                        (CustomerAnalytics.id (analytics_row store_b customer_b)))
                     (chat_sessions store_b)))
  = CustomerAnalytics.total_messages (analytics_row store_b customer_b) - 1 /\
  (forall n now log h,
      fst (getCustomerConversationHistory n now (store_b, log)) = Ok h ->
      customerId h = CustomerAnalytics.id (analytics_row store_b customer_b) ->
      totalMessages h = CustomerAnalytics.total_messages (analytics_row store_b customer_b) /\
      totalSessions h = CustomerAnalytics.total_sessions (analytics_row store_b customer_b)).
Proof.
  assert (Hin : In (analytics_row store_b customer_b) (customer_analytics store_b))
    by (left; reflexivity).
  split; [split; [exact reachable_store_b|exact Hin]|].
  exact (customer_analytics_agrees (20 * MINUTE) store_b (analytics_row store_b customer_b)
           reachable_store_b Hin).
Defined.

(** ** A message and the other customers *)

Lemma ingested_other_customer t payload now d d' cust sess c :
  wf t d -> consistent t d -> t <= now ->
  ingested payload now d d' cust sess ->
  In c (customers d) ->
  Customer.phone_number c <> extractPhoneNumber (WahaMessagePayload.from payload) ->
  In c (customers d') /\
  (forall s, ChatSession.customer_id s = Customer.id c ->
             (In s (chat_sessions d') <-> In s (chat_sessions d))) /\
  (forall m, Message.customer_id m = Customer.id c ->
             (In m (messages d') <-> In m (messages d))).
Proof.
  intros Hwf Hcons Ht Hing Hc Hphone.
  pose proof (ingested_session Hwf Ht Hing) as (_ & _ & Hsc & _ & _).
  destruct Hing as (l1 & seq1 & l2 & seq2 & Hcs & Hs & ->).
  pose proof (customer_step_found Hcs) as (_ & Hph & Hcust & Hsub & _).
  assert (Hne : Customer.id c <> Customer.id cust).
  { intros E. destruct Hcust as [Hold|(Hid & _)].
    - assert (c = cust).
      { pose proof (unique_customer_ids _ _ Hcons) as Hnd.
        revert Hnd Hc Hold E. generalize (customers d). intros l.
        induction l as [|x l IH]; simpl; intros Hnd Ha Hb E; [tauto|].
        inversion Hnd as [|? ? Hx Hnd']; subst.
        destruct Ha as [->|Ha], Hb as [->|Hb]; auto.
        - exfalso. apply Hx. rewrite E. apply in_map. exact Hb.
        - exfalso. apply Hx. rewrite <- E. apply in_map. exact Ha. }
      subst c. auto.
    - pose proof (wf_customer_id _ _ Hwf c Hc). lia. }
  assert (Hsess : forall s, In s (chat_sessions d) ->
                            ChatSession.customer_id s = Customer.id c ->
                            ChatSession.id s <> ChatSession.id sess).
  { intros s Hin Es E. destruct Hs as [(Hl & _)|(_ & -> & _)].
    - apply latest_session_in in Hl. apply filter_In in Hl. destruct Hl as (Hl & _).
      pose proof (nodup_session_id_inj _ _ _ (wf_session_nodup _ _ Hwf) Hin Hl E).
      subst s. congruence.
    - simpl in E. pose proof (wf_session_id _ _ Hwf _ Hin). lia. }
  cbn [customers chat_sessions messages]. split; [|split].
  - unfold bump_customers. apply in_map_iff. exists c. split; auto.
    destruct (Z.eqb_spec (Customer.id c) (Customer.id cust)); [contradiction|reflexivity].
  - intros s Es. split.
    + intros Hin. unfold bump_sessions in Hin. apply in_map_iff in Hin.
      destruct Hin as (s1 & E1 & Hin1).
      assert (Hs1 : ChatSession.customer_id s1 = Customer.id c)
        by (rewrite <- Es, <- E1; destruct (_ =? _); reflexivity).
      assert (Hold : In s1 (chat_sessions d)).
      { destruct Hs as [(_ & -> & _)|(_ & -> & -> & _)]; auto.
        apply in_app_or in Hin1. destruct Hin1 as [Hin1|[<-|[]]].
        - unfold close_active in Hin1. apply in_map_iff in Hin1.
          destruct Hin1 as (s0 & E0 & Hin0).
          unfold is_active_of in E0.
          destruct (Z.eqb_spec (ChatSession.customer_id s0) (Customer.id cust)) as [E|_].
          + exfalso. destruct (ChatSession.is_active s0); simpl in E0; subst s1;
              simpl in Hs1; congruence.
          + simpl in E0. subst s1. exact Hin0.
        - simpl in Hs1. congruence. }
      destruct (Z.eqb_spec (ChatSession.id s1) (ChatSession.id sess)) as [E|_].
      * destruct (Hsess s1 Hold Hs1 E).
      * subst s. exact Hold.
    + intros Hin. unfold bump_sessions. apply in_map_iff. exists s. split.
      * destruct (Z.eqb_spec (ChatSession.id s) (ChatSession.id sess)) as [E|_]; auto.
        destruct (Hsess s Hin Es E).
      * destruct Hs as [(_ & -> & _)|(_ & _ & -> & _)]; auto.
        apply in_or_app. left. unfold close_active. apply in_map_iff. exists s.
        split; auto. unfold is_active_of.
        destruct (Z.eqb_spec (ChatSession.customer_id s) (Customer.id cust));
          [congruence|reflexivity].
  - intros m Em. split.
    + intros Hin. apply in_app_or in Hin. destruct Hin as [Hin|[<-|[]]]; auto.
      simpl in Em. congruence.
    + intros Hin. apply in_or_app. auto.
Qed.

(** X28. A message changes only the rows of its sender: when
    [handleIncomingMessage] runs on a store built by the service, a customer
    with another phone number keeps its row as it is, and its sessions and
    its messages are, row for row, those it had before. *)
Theorem message_touches_only_its_sender t d payload now c :
  reachable t d -> t <= now ->
  In c (customers d) ->
  Customer.phone_number c <> extractPhoneNumber (WahaMessagePayload.from payload) ->
  let d' := snd (handleIncomingMessage payload now d) in
  In c (customers d') /\
  (forall s, ChatSession.customer_id s = Customer.id c ->
             (In s (chat_sessions d') <-> In s (chat_sessions d))) /\
  (forall m, Message.customer_id m = Customer.id c ->
             (In m (messages d') <-> In m (messages d))).
Proof.
  intros Hr Ht Hc Hphone. cbv zeta.
  destruct (handleIncomingMessage_cases payload now d)
    as [[_ ->]|[(_ & _ & _ & _ & (E1 & E2 & E3) & _)|(_ & _ & _ & _ & cust & sess & Hing)]].
  - simpl. repeat split; auto.
  - cbv zeta in *. rewrite E1, E2, E3. repeat split; auto.
  - apply (ingested_other_customer t payload now d _ cust sess c); auto.
    + apply (reachable_wf Hr).
    + apply (reachable_consistent Hr).
Qed.

Lemma message_touches_only_its_sender_witness :
  reachable (20 * MINUTE) store_b /\ 20 * MINUTE <= 25 * MINUTE /\
  In customer_b (customers store_b) /\
  Customer.phone_number customer_b
    <> extractPhoneNumber (WahaMessagePayload.from other_message) /\
  In customer_b (customers (snd (handleIncomingMessage other_message (25 * MINUTE) store_b))) /\
  (forall s, ChatSession.customer_id s = Customer.id customer_b ->
             (In s (chat_sessions (snd (handleIncomingMessage other_message (25 * MINUTE)
                                                              store_b)))
              <-> In s (chat_sessions store_b))) /\
  (forall m, Message.customer_id m = Customer.id customer_b ->
             (In m (messages (snd (handleIncomingMessage other_message (25 * MINUTE) store_b)))
              <-> In m (messages store_b))).
Proof.
  assert (H1 : 20 * MINUTE <= 25 * MINUTE) by discriminate.
  assert (H2 : In customer_b (customers store_b)) by (left; reflexivity).
  assert (H3 : Customer.phone_number customer_b
               <> extractPhoneNumber (WahaMessagePayload.from other_message))
    by discriminate.
  split; [exact reachable_store_b|]. split; [exact H1|]. split; [exact H2|].
  split; [exact H3|].
  exact (message_touches_only_its_sender (20 * MINUTE) store_b other_message (25 * MINUTE)
           customer_b reachable_store_b H1 H2 H3).
Defined.

(** ** Segmenting a customer that does not exist *)

Lemma history_of_unknown_customer n z now d log :
  integer_parameter n = Ok z ->
  (forall c, In c (customers d) -> Customer.id c <> z) ->
  getCustomerConversationHistory n now (d, log) =
  (Throw (WhatsAppServiceError "Failed to retrieve conversation history"
            (WhatsAppServiceError
               ("Customer with ID " ++ Number_toString n ++ " not found") NoCause)),
   (d, log ++ [SelectCustomerById n])).
Proof.
  intros Hz Hno.
  unfold getCustomerConversationHistory, io_catch, io_bind, databaseService_query,
    with_integer.
  rewrite Hz. simpl.
  rewrite (filter_none (fun c => Customer.id c =? z)); [reflexivity|].
  intros c Hc. apply Z.eqb_neq. auto.
Qed.

Lemma Number_toString_integer n z :
  integer_parameter n = Ok z -> Number_toString n = NilZero.string_of_int (Z.to_int z).
Proof.
  destruct n as [| |q]; simpl; try discriminate.
  destruct (_ =? _); [|discriminate]. intros E. inversion E. reflexivity.
Qed.

(** X29. Asking for the segmentation of a customer that does not exist is
    answered like an internal failure: for a path parameter that reads as an
    integer of the range of [INTEGER] which is no customer's id,
    [getCustomerConversationHistory] wraps its own not-found error, whose
    message carries the id in decimal, [LLMService.segmentCustomer] wraps it
    again, and the endpoint responds 500; one lookup is sent to the storage
    engine, nothing is written, and the answer does not depend on the
    classifier. *)
Theorem segment_endpoint_unknown_customer JSON_parse createSegmentationPrompt
    callAnthropicAPI s z now d log :
  integer_parameter (Number s) = Ok z ->
  in_INTEGER z ->
  (forall c, In c (customers d) -> Customer.id c <> z) ->
  LLMService_segmentCustomer JSON_parse createSegmentationPrompt callAnthropicAPI
                             (Number s) now (d, log)
  = (Throw (LLMServiceError "Failed to segment customer"
              (WhatsAppServiceError "Failed to retrieve conversation history"
                 (WhatsAppServiceError
                    ("Customer with ID " ++ NilZero.string_of_int (Z.to_int z)
                                         ++ " not found") NoCause))),
     (d, log ++ [SelectCustomerById (Number s)])) /\
  segmentCustomer JSON_parse createSegmentationPrompt callAnthropicAPI (Some s) now (d, log)
  = ((500, None), (d, log ++ [SelectCustomerById (Number s)])).
Proof.
  intros Hz _ Hno.
  assert (E : LLMService_segmentCustomer JSON_parse createSegmentationPrompt callAnthropicAPI
                (Number s) now (d, log)
              = (Throw (LLMServiceError "Failed to segment customer"
                          (WhatsAppServiceError "Failed to retrieve conversation history"
                             (WhatsAppServiceError
                                ("Customer with ID "
                                   ++ NilZero.string_of_int (Z.to_int z)
                                   ++ " not found") NoCause))),
                 (d, log ++ [SelectCustomerById (Number s)]))).
  { unfold LLMService_segmentCustomer, io_catch, io_bind.
    rewrite (history_of_unknown_customer (Number s) z now d log Hz Hno).
    rewrite (Number_toString_integer _ _ Hz). reflexivity. }
  split; [exact E|].
  unfold segmentCustomer, customerIdSchema_parse. rewrite E. reflexivity.
Qed.

Lemma segment_endpoint_unknown_customer_witness :
  (integer_parameter (Number "7") = Ok 7 /\ in_INTEGER 7 /\
   forall c, In c (customers store_a) -> Customer.id c <> 7) /\
  LLMService_segmentCustomer stub_parse (fun _ => "prompt") (fun _ => Ok "{}")
                             (Number "7") MINUTE (store_a, [])
  = (Throw (LLMServiceError "Failed to segment customer"
              (WhatsAppServiceError "Failed to retrieve conversation history"
                 (WhatsAppServiceError "Customer with ID 7 not found" NoCause))),
     (store_a, [] ++ [SelectCustomerById (Number "7")])) /\
  segmentCustomer stub_parse (fun _ => "prompt") (fun _ => Ok "{}") (Some "7") MINUTE
                  (store_a, [])
  = ((500, None), (store_a, [] ++ [SelectCustomerById (Number "7")])).
Proof.
  assert (H1 : integer_parameter (Number "7") = Ok 7) by reflexivity.
  assert (H0 : in_INTEGER 7) by (unfold in_INTEGER, INTEGER_MAX; lia).
  assert (H2 : forall c, In c (customers store_a) -> Customer.id c <> 7).
  { intros c [<-|[]]. discriminate. }
  split; [split; [exact H1|split; [exact H0|exact H2]]|].
  exact (segment_endpoint_unknown_customer stub_parse (fun _ => "prompt") (fun _ => Ok "{}")
           "7" 7 MINUTE store_a [] H1 H0 H2).
Defined.
